(** * STS transit simulation: entity model, entity agents and message broker

    A shallow embedding of the Python sources

      - [src/models/origin.py], [station.py], [stop.py], [route.py],
        [bus.py], [passenger.py]                      (entity model)
      - [src/core/bus_thread.py], [stop_thread.py],
        [passenger_thread.py]                         (entity agents)
      - [src/projects/project_2/core/message_broker.py]
      - [src/projects/project_2/core/message_components.py]
        (the boarding and alighting handlers of the adapters)

    Python objects are mutable and shared by reference.  Every object is
    therefore named by an identifier ([nat]) and lives in a store of the
    [World]; a method that mutates [self] or one of its arguments takes a
    world and returns the updated one.  Python references never dangle, so
    the stores are total functions.  Objects that define no [__eq__] are
    compared by identity, which is equality of identifiers here. *)

From stdpp Require Import base decidable option list functions gmap sets
  strings sorting.

Set Default Proof Using "Type".
#[local] Set Warnings "-clear-no-such-hyp".

(* ===================================================================== *)
(** ** Python list primitives *)
(* ===================================================================== *)

(** [x in l] *)
Definition py_in (x : nat) (l : list nat) : bool := bool_decide (x ∈ l).

(** [l.index(x)]; [None] stands for the [ValueError] Python raises. *)
Fixpoint py_index (x : nat) (l : list nat) : option nat :=
  match l with
  | [] => None
  | y :: l' => if decide (y = x) then Some 0 else S <$> py_index x l'
  end.

(** [l.remove(x)] for an [x] the caller knows to be in [l]: drops the first
    occurrence. *)
Fixpoint py_remove (x : nat) (l : list nat) : list nat :=
  match l with
  | [] => []
  | y :: l' => if decide (y = x) then l' else y :: py_remove x l'
  end.

(* ===================================================================== *)
(** ** Entity model *)
(* ===================================================================== *)

(** [Passenger.STATUS_*] *)
Inductive Status :=
| STATUS_WAITING | STATUS_BOARDING | STATUS_IN_BUS | STATUS_ALIGHTING
| STATUS_ARRIVED.

Global Instance Status_eq_dec : EqDecision Status.
Proof. solve_decision. Defined.

(** [passenger.destination]: a reference to a [Stop], to a [Station], or
    [None]. *)
Inductive Destination :=
| DestStop (s : nat)
| DestStation (st : nat)
| DestNone.

Global Instance Destination_eq_dec : EqDecision Destination.
Proof. solve_decision. Defined.

(** [Station(Origin)]: only [stop_list] is read by the agents. *)
Record Station := mkStation { station_stop_list : list nat }.

(** [Route]: the ordered [stop_list]. *)
Record Route := mkRoute { route_stop_list : list nat }.

(** [Stop(Origin)].  The attribute [stop_list] that [Stop] inherits from
    [Origin.__init__] is the empty list and nothing in the repository ever
    appends to it; it is rendered by [Origin_stop_list] below rather than
    stored. *)
Record Stop := mkStop {
  stop_passenger_list : list nat;
  stop_capacity : nat;
  stop_waiting_passengers : list nat;
  stop_is_occupied : bool;
  stop_bus_queue : list nat;          (* deque: head is the left end *)
  stop_current_buses : gset nat       (* set() of buses *)
}.

(** [Bus]; [capacity] is a number of passengers. *)
Record Bus := mkBus {
  bus_capacity : nat;
  bus_passenger_list : list nat;
  bus_current_stop : option nat;
  bus_current_route : option nat
}.

Record Passenger := mkPassenger {
  p_destination : Destination;
  p_current_stop : option nat;
  p_current_bus : option nat;
  p_status : Status;
  p_stops_visited : list nat;
  p_buses_taken : list nat;
  p_current_route : option nat
}.

(** Observable events, in program order: every assignment to
    [passenger.status], every assignment to [bus.current_stop] made by the
    bus agent, and every call of [Stop.bus_arrival] / [Stop.bus_departure]. *)
Inductive Event :=
| EvStatus (p : nat) (s : Status)
| EvCurrentStop (bus stop : nat)
| EvBusArrival (stop bus : nat)
| EvBusDeparture (stop bus : nat).

Global Instance Event_eq_dec : EqDecision Event.
Proof. solve_decision. Defined.

Record World := mkWorld {
  stops : nat → Stop;
  stations : nat → Station;
  routes : nat → Route;
  buses : nat → Bus;
  passengers : nat → Passenger;
  log : list Event
}.

(** *** Field updates *)

Definition upd_stop (s : nat) (f : Stop → Stop) (w : World) : World :=
  mkWorld (<[s := f (stops w s)]> (stops w)) (stations w) (routes w)
          (buses w) (passengers w) (log w).

Definition upd_bus (b : nat) (f : Bus → Bus) (w : World) : World :=
  mkWorld (stops w) (stations w) (routes w)
          (<[b := f (buses w b)]> (buses w)) (passengers w) (log w).

Definition upd_passenger (p : nat) (f : Passenger → Passenger) (w : World)
  : World :=
  mkWorld (stops w) (stations w) (routes w) (buses w)
          (<[p := f (passengers w p)]> (passengers w)) (log w).

Definition emit (e : Event) (w : World) : World :=
  mkWorld (stops w) (stations w) (routes w) (buses w) (passengers w)
          (log w ++ [e]).

Definition set_status (s : Status) (x : Passenger) : Passenger :=
  mkPassenger (p_destination x) (p_current_stop x) (p_current_bus x) s
              (p_stops_visited x) (p_buses_taken x) (p_current_route x).

Definition set_p_current_bus (b : option nat) (x : Passenger) : Passenger :=
  mkPassenger (p_destination x) (p_current_stop x) b (p_status x)
              (p_stops_visited x) (p_buses_taken x) (p_current_route x).

Definition set_p_current_stop (s : option nat) (x : Passenger) : Passenger :=
  mkPassenger (p_destination x) s (p_current_bus x) (p_status x)
              (p_stops_visited x) (p_buses_taken x) (p_current_route x).

Definition set_p_current_route (r : option nat) (x : Passenger) : Passenger :=
  mkPassenger (p_destination x) (p_current_stop x) (p_current_bus x)
              (p_status x) (p_stops_visited x) (p_buses_taken x) r.

Definition push_stops_visited (s : nat) (x : Passenger) : Passenger :=
  mkPassenger (p_destination x) (p_current_stop x) (p_current_bus x)
              (p_status x) (p_stops_visited x ++ [s]) (p_buses_taken x)
              (p_current_route x).

Definition push_buses_taken (b : nat) (x : Passenger) : Passenger :=
  mkPassenger (p_destination x) (p_current_stop x) (p_current_bus x)
              (p_status x) (p_stops_visited x) (p_buses_taken x ++ [b])
              (p_current_route x).

Definition set_bus_passenger_list (l : list nat) (x : Bus) : Bus :=
  mkBus (bus_capacity x) l (bus_current_stop x) (bus_current_route x).

Definition set_bus_current_stop (s : option nat) (x : Bus) : Bus :=
  mkBus (bus_capacity x) (bus_passenger_list x) s (bus_current_route x).

Definition set_stop_lists (pl wl : list nat) (x : Stop) : Stop :=
  mkStop pl (stop_capacity x) wl (stop_is_occupied x) (stop_bus_queue x)
         (stop_current_buses x).

Definition set_stop_admission (occ : bool) (q : list nat) (cur : gset nat)
    (x : Stop) : Stop :=
  mkStop (stop_passenger_list x) (stop_capacity x)
         (stop_waiting_passengers x) occ q cur.

(** [self.status = s], recorded in the log. *)
Definition assign_status (p : nat) (s : Status) (w : World) : World :=
  emit (EvStatus p s) (upd_passenger p (set_status s) w).

(* ===================================================================== *)
(** ** [models/bus.py] *)
(* ===================================================================== *)

(** [Bus.can_accept_passengers(count=1)] *)
Definition Bus_can_accept_passengers (x : Bus) (count : nat) : bool :=
  bool_decide (length (bus_passenger_list x) + count ≤ bus_capacity x).

(** [Bus.is_full] *)
Definition Bus_is_full (x : Bus) : bool :=
  bool_decide (bus_capacity x ≤ length (bus_passenger_list x)).

(** [Bus.add_passenger] *)
Definition Bus_add_passenger (b p : nat) (w : World) : bool * World :=
  if Bus_can_accept_passengers (buses w b) 1 then
    let w1 :=
      upd_bus b (λ x, set_bus_passenger_list (bus_passenger_list x ++ [p]) x)
              w in
    (true, upd_passenger p (set_p_current_bus (Some b)) w1)
  else (false, w).

(** [Bus.remove_passenger] *)
Definition Bus_remove_passenger (b p : nat) (w : World) : bool * World :=
  if py_in p (bus_passenger_list (buses w b)) then
    let w1 :=
      upd_bus b
        (λ x, set_bus_passenger_list (py_remove p (bus_passenger_list x)) x)
        w in
    (true, upd_passenger p (set_p_current_bus None) w1)
  else (false, w).

(* ===================================================================== *)
(** ** [models/stop.py] *)
(* ===================================================================== *)

(** [Stop.can_accept_passengers(count=1)] *)
Definition Stop_can_accept_passengers (x : Stop) (count : nat) : bool :=
  bool_decide (length (stop_passenger_list x) + count ≤ stop_capacity x).

(** [Stop.add_passenger] *)
Definition Stop_add_passenger (s p : nat) (w : World) : bool * World :=
  if Stop_can_accept_passengers (stops w s) 1 then
    let w1 :=
      upd_stop s
        (λ x, set_stop_lists (stop_passenger_list x ++ [p])
                             (stop_waiting_passengers x ++ [p]) x) w in
    (true, upd_passenger p (set_p_current_stop (Some s)) w1)
  else (false, w).

(** [Stop.remove_passenger] *)
Definition Stop_remove_passenger (s p : nat) (w : World) : bool * World :=
  if py_in p (stop_passenger_list (stops w s)) then
    (true,
     upd_stop s
       (λ x, set_stop_lists
               (py_remove p (stop_passenger_list x))
               (if py_in p (stop_waiting_passengers x)
                then py_remove p (stop_waiting_passengers x)
                else stop_waiting_passengers x) x) w)
  else (false, w).

(** [Stop.bus_arrival]: the method only touches [self], so it is a
    function on the stop's own state. *)
Definition Stop_bus_arrival (bus : nat) (x : Stop) : bool * Stop :=
  if stop_is_occupied x then
    (false,
     set_stop_admission (stop_is_occupied x) (stop_bus_queue x ++ [bus])
                        (stop_current_buses x) x)
  else
    (true,
     set_stop_admission true (stop_bus_queue x)
                        ({[bus]} ∪ stop_current_buses x) x).

(** [Stop.bus_departure] *)
Definition Stop_bus_departure (bus : nat) (x : Stop) : bool * Stop :=
  if bool_decide (bus ∈ stop_current_buses x) then
    let cur := stop_current_buses x ∖ {[bus]} in
    if bool_decide (cur = ∅) then
      match stop_bus_queue x with
      | next_bus :: q =>
          (true, set_stop_admission true q ({[next_bus]} ∪ cur) x)
      | [] => (true, set_stop_admission false [] cur x)
      end
    else
      (true, set_stop_admission (stop_is_occupied x) (stop_bus_queue x) cur x)
  else (false, x).

(** A call [stop.bus_arrival(bus)] on the stop stored at [s]. *)
Definition call_bus_arrival (s bus : nat) (w : World) : bool * World :=
  let w := emit (EvBusArrival s bus) w in
  let '(r, x) := Stop_bus_arrival bus (stops w s) in
  (r, upd_stop s (λ _, x) w).

(** A call [stop.bus_departure(bus)] on the stop stored at [s]. *)
Definition call_bus_departure (s bus : nat) (w : World) : bool * World :=
  let w := emit (EvBusDeparture s bus) w in
  let '(r, x) := Stop_bus_departure bus (stops w s) in
  (r, upd_stop s (λ _, x) w).

(* ===================================================================== *)
(** ** [models/passenger.py] *)
(* ===================================================================== *)

(** [isinstance(self.destination, Stop)] and
    [isinstance(self.destination, Station)] as [passenger.py] evaluates
    them.  The module imports the two classes from [models.stop] and
    [models.station], whereas every entity of the system is built by the
    seed from the classes of [src.models.stop] and [src.models.station];
    both paths are importable and give different class objects.  For every
    destination of a world, which is one of the seed's objects, both tests
    are therefore [False]. *)
Definition isinstance_models_Stop (d : Destination) : bool := false.
Definition isinstance_models_Station (d : Destination) : bool := false.

(** [Passenger.is_at_destination] *)
Definition Passenger_is_at_destination (p : nat) (w : World) : bool :=
  let x := passengers w p in
  match p_current_stop x, p_destination x with
  | None, _ | _, DestNone => false
  | Some c, d =>
      if isinstance_models_Stop d then
        match d with DestStop s => bool_decide (c = s) | _ => false end
      else if isinstance_models_Station d then
        match d with
        | DestStation st => py_in c (station_stop_list (stations w st))
        | _ => false
        end
      else false
  end.

(** [Passenger.board_bus] *)
Definition Passenger_board_bus (p bus : nat) (w : World) : bool * World :=
  if negb (bool_decide (p_status (passengers w p) = STATUS_WAITING)) then
    (false, w)
  else if negb (Bus_can_accept_passengers (buses w bus) 1) then (false, w)
  else
    let w := assign_status p STATUS_BOARDING w in
    let w := upd_passenger p (set_p_current_bus (Some bus)) w in
    let w :=
      match p_current_stop (passengers w p) with
      | Some c => upd_passenger p (push_stops_visited c) w
      | None => w
      end in
    let w := upd_passenger p (push_buses_taken bus) w in
    let w := assign_status p STATUS_IN_BUS w in
    let w :=
      upd_passenger p (set_p_current_route (bus_current_route (buses w bus)))
                    w in
    (true, w).

(** [Passenger.alight_bus]; the result [None] stands for the
    [AttributeError] that the final [print] raises, after the assignments,
    when it reads [previous_bus.id] of a passenger that was in no bus. *)
Definition Passenger_alight_bus (p stop : nat) (w : World)
  : option bool * World :=
  if negb (bool_decide (p_status (passengers w p) = STATUS_IN_BUS)) then
    (Some false, w)
  else
    let previous_bus := p_current_bus (passengers w p) in
    let w := assign_status p STATUS_ALIGHTING w in
    let w := upd_passenger p (set_p_current_bus None) w in
    let w := upd_passenger p (set_p_current_stop (Some stop)) w in
    let w := upd_passenger p (push_stops_visited stop) w in
    let w := assign_status p STATUS_WAITING w in
    if Passenger_is_at_destination p w then
      (Some true, assign_status p STATUS_ARRIVED w)
    else
      match previous_bus with
      | Some _ => (Some true, w)
      | None => (None, w)
      end.

(* ===================================================================== *)
(** ** [core/bus_thread.py] *)
(* ===================================================================== *)

(** [hasattr(destination, 'stop_list')] together with the attribute's
    value.  A [Stop] has the attribute too: [Origin.__init__] gives every
    stop [stop_list = []]. *)
Definition Origin_stop_list (d : Destination) (w : World)
  : option (list nat) :=
  match d with
  | DestStop _ => Some []
  | DestStation st => Some (station_stop_list (stations w st))
  | DestNone => None
  end.

(** [destination == stop] for a possibly-[None] stop reference. *)
Definition dest_eq (d : Destination) (c : option nat) : bool :=
  match d, c with
  | DestStop s, Some c => bool_decide (s = c)
  | DestNone, None => true
  | _, _ => false
  end.

(** [destination in stops] *)
Definition dest_in (d : Destination) (l : list nat) : bool :=
  match d with
  | DestStop s => py_in s l
  | _ => false
  end.

(** What a Python call leaves behind: it returns, or an exception
    propagates to the caller. *)
Inductive outcome := Normal | Raised.

(** [BusThread._should_passenger_alight] *)
Definition BusThread_should_passenger_alight (b p : nat) (w : World) : bool :=
  let current_stop := bus_current_stop (buses w b) in
  let d := p_destination (passengers w p) in
  if dest_eq d current_stop then true
  else
    match Origin_stop_list d w, current_stop with
    | Some l, Some c => py_in c l
    | _, _ => false
    end.

(** [BusThread._handle_alighting] *)
Definition BusThread_handle_alighting (b : nat) (w : World) : World :=
  let alighting_passengers :=
    filter (λ p, BusThread_should_passenger_alight b p w = true)
           (bus_passenger_list (buses w b)) in
  foldl (λ w p, snd (Bus_remove_passenger b p w)) w alighting_passengers.

(** [BusThread._can_accept_passenger]; [None] when [list.index] raises. *)
Definition BusThread_can_accept_passenger (b p : nat) (w : World)
  : option bool :=
  match bus_current_route (buses w b) with
  | None => Some false
  | Some r =>
      let route_stops := route_stop_list (routes w r) in
      match bus_current_stop (buses w b) with
      | None => None
      | Some c =>
          match py_index c route_stops with
          | None => None
          | Some current_index =>
              let d := p_destination (passengers w p) in
              match Origin_stop_list d w with
              | Some l =>
                  Some (existsb (λ s, py_in s (drop current_index route_stops))
                                l)
              | None => Some (dest_in d (drop current_index route_stops))
              end
          end
      end
  end.

(** The [for passenger in waiting_passengers] loop of
    [BusThread._handle_boarding], at stop [c]. *)
Fixpoint boarding_loop (b c : nat) (ps : list nat) (w : World)
  : outcome * World :=
  match ps with
  | [] => (Normal, w)
  | p :: ps' =>
      if Bus_can_accept_passengers (buses w b) 1 then
        match BusThread_can_accept_passenger b p w with
        | None => (Raised, w)
        | Some false => boarding_loop b c ps' w
        | Some true =>
            let '(added, w1) := Bus_add_passenger b p w in
            boarding_loop b c ps'
              (if added then snd (Stop_remove_passenger c p w1) else w1)
        end
      else boarding_loop b c ps' w
  end.

(** [BusThread._handle_boarding] *)
Definition BusThread_handle_boarding (b : nat) (w : World) : outcome * World :=
  if Bus_is_full (buses w b) then (Normal, w)
  else
    match bus_current_stop (buses w b) with
    | None => (Raised, w)
    | Some c => boarding_loop b c (stop_waiting_passengers (stops w c)) w
    end.

(** [BusThread._handle_passenger_exchange] *)
Definition BusThread_handle_passenger_exchange (b : nat) (w : World)
  : outcome * World :=
  match bus_current_stop (buses w b) with
  | None => (Normal, w)
  | Some _ => BusThread_handle_boarding b (BusThread_handle_alighting b w)
  end.

(** [bus.current_stop = stop], recorded in the log. *)
Definition assign_current_stop (b stop : nat) (w : World) : World :=
  emit (EvCurrentStop b stop) (upd_bus b (set_bus_current_stop (Some stop)) w).

(** [BusThread._move_to_next_stop] *)
Definition BusThread_move_to_next_stop (b : nat) (w : World) : bool * World :=
  match bus_current_route (buses w b), bus_current_stop (buses w b) with
  | Some r, Some c =>
      let route_stops := route_stop_list (routes w r) in
      match route_stops with
      | [] => (false, w)
      | first :: _ =>
          match py_index c route_stops with
          | None => (true, assign_current_stop b first w)
          | Some current_index =>
              let next_stop :=
                if bool_decide (current_index < length route_stops - 1)
                then default first (route_stops !! (current_index + 1))
                else first in
              let w := snd (call_bus_departure c b w) in
              let w := assign_current_stop b next_stop w in
              let w := snd (call_bus_arrival next_stop b w) in
              (true, w)
          end
      end
  | _, _ => (false, w)
  end.

(** One iteration of the [while] loop of [BusThread.run]; an exception
    raised by the passenger exchange is caught by the loop and the move is
    skipped. *)
Definition BusThread_cycle (b : nat) (w : World) : World :=
  match bus_current_route (buses w b), bus_current_stop (buses w b) with
  | Some _, Some _ =>
      match BusThread_handle_passenger_exchange b w with
      | (Normal, w1) => snd (BusThread_move_to_next_stop b w1)
      | (Raised, w1) => w1
      end
  | _, _ => w
  end.

(* ===================================================================== *)
(** ** [core/stop_thread.py] *)
(* ===================================================================== *)

(** [StopThread._manage_bus_queue], on the state of the agent's stop. *)
Definition StopThread_manage_bus_queue (x : Stop) : Stop :=
  match stop_bus_queue x with
  | next_bus :: q =>
      if negb (stop_is_occupied x) then
        snd (Stop_bus_arrival next_bus
               (set_stop_admission (stop_is_occupied x) q
                                   (stop_current_buses x) x))
      else x
  | [] => x
  end.

(* ===================================================================== *)
(** ** [projects/project_2/core/message_broker.py] *)
(* ===================================================================== *)

Inductive MessageType :=
| BUS_ARRIVAL | BUS_DEPARTURE | PASSENGER_BOARDING | PASSENGER_ALIGHTING
| ROUTE_UPDATE | SCHEDULE_UPDATE | SYSTEM_ALERT | STOP_STATUS
| STATION_STATUS | CAPACITY_UPDATE.

Global Instance MessageType_eq_dec : EqDecision MessageType.
Proof. solve_decision. Defined.

(** Values stored in a message's [data] dictionary. *)
Inductive Value := VInt (n : nat) | VStr (s : string).

Global Instance Value_eq_dec : EqDecision Value.
Proof. solve_decision. Defined.

(** [Message]; [id] is derived from [sender_id] and [timestamp]. *)
Record Message := mkMessage {
  msg_type : MessageType;
  sender_id : string;
  data : gmap string Value;
  timestamp : nat
}.

Global Instance Message_eq_dec : EqDecision Message.
Proof. solve_decision. Defined.

(** [MessageBroker].  [_subscribers] maps each kind to a Python [set] of
    subscribers: a finite set, which records who is a member and nothing
    of the order of the [add] calls.
    [_message_queue] is the FIFO [queue.Queue], head first.  The last three
    fields are histories: the arguments of every [publish] call, every
    message the consumer loop took from the queue, and every
    [subscriber.on_message(message)] call, each in program order. *)
Record Broker := mkBroker {
  subscribers : MessageType → gset nat;
  message_queue : list Message;
  stop_event : bool;
  published : list Message;
  dequeued : list Message;
  delivered : list (nat * Message)
}.

(** State of [MessageBroker.__init__]. *)
Definition MessageBroker_init : Broker :=
  mkBroker (λ _, ∅) [] false [] [] [].

(** [MessageBroker.subscribe] *)
Definition MessageBroker_subscribe (subscriber : nat)
    (message_types : list MessageType) (b : Broker) : Broker :=
  mkBroker
    (foldl (λ subs t, <[t := {[subscriber]} ∪ subs t]> subs) (subscribers b)
           message_types)
    (message_queue b) (stop_event b) (published b) (dequeued b) (delivered b).

Definition all_message_types : list MessageType :=
  [BUS_ARRIVAL; BUS_DEPARTURE; PASSENGER_BOARDING; PASSENGER_ALIGHTING;
   ROUTE_UPDATE; SCHEDULE_UPDATE; SYSTEM_ALERT; STOP_STATUS; STATION_STATUS;
   CAPACITY_UPDATE].

(** [MessageBroker.unsubscribe]; [message_types = None] means all kinds. *)
Definition MessageBroker_unsubscribe (subscriber : nat)
    (message_types : option (list MessageType)) (b : Broker) : Broker :=
  mkBroker
    (foldl (λ subs t, <[t := subs t ∖ {[subscriber]}]> subs) (subscribers b)
           (default all_message_types message_types))
    (message_queue b) (stop_event b) (published b) (dequeued b) (delivered b).

(** [MessageBroker.publish]: [self._message_queue.put(message)]. *)
Definition MessageBroker_publish (m : Message) (b : Broker) : Broker :=
  mkBroker (subscribers b) (message_queue b ++ [m]) (stop_event b)
           (published b ++ [m]) (dequeued b) (delivered b).

(** [MessageBroker.shutdown]: stop the consumer, then empty the queue
    without delivering. *)
Definition MessageBroker_shutdown (b : Broker) : Broker :=
  mkBroker (subscribers b) [] true (published b) (dequeued b) (delivered b).

(** What the subscribers' [on_message] do to the broker during one
    iteration of the consumer loop: [on_message s m] lists the messages
    subscriber [s] publishes while it handles [m] (the adapters re-publish
    confirmations).  An exception a handler raises is caught by the loop. *)
Definition Handlers : Type := nat → Message → list Message.

(** One pass of the [for subscriber in subscribers] body. *)
Definition deliver (on_message : Handlers) (m : Message) (b : Broker)
    (subscriber : nat) : Broker :=
  foldl (λ b m', MessageBroker_publish m' b)
        (mkBroker (subscribers b) (message_queue b) (stop_event b)
                  (published b) (dequeued b)
                  (delivered b ++ [(subscriber, m)]))
        (on_message subscriber m).

(** The order in which a loop such as [for subscriber in subscribers]
    visits a Python [set].  CPython derives it from the members' hashes
    (for these objects, their addresses) and from the set's history of
    insertions and removals; the program fixes neither, and the order keeps
    no record of the order of the [add] calls.  Each run of such a loop
    therefore comes with its iteration: some enumeration of the set that
    visits every member once. *)
Record SetIteration := mkSetIteration {
  visit : gset nat → list nat;
  visit_members : ∀ X, visit X ≡ₚ elements X
}.

(** One iteration of the [while] loop of
    [MessageBroker._process_messages]. *)
Definition MessageBroker_process_messages (iteration : SetIteration)
    (on_message : Handlers) (b : Broker) : Broker :=
  if stop_event b then b
  else
    match message_queue b with
    | [] => b
    | m :: q =>
        foldl (deliver on_message m)
              (mkBroker (subscribers b) q (stop_event b) (published b)
                        (dequeued b ++ [m]) (delivered b))
              (visit iteration (subscribers b (msg_type m)))
    end.

(** Calls made on the broker, in the order in which they take effect; an
    iteration of the consumer loop comes with the order in which it visits
    the subscriber set and with what the handlers do in it. *)
Inductive BrokerOp :=
| Subscribe (subscriber : nat) (message_types : list MessageType)
| Unsubscribe (subscriber : nat) (message_types : option (list MessageType))
| Publish (m : Message)
| Process (iteration : SetIteration) (on_message : Handlers)
| Shutdown.

Definition broker_step (b : Broker) (o : BrokerOp) : Broker :=
  match o with
  | Subscribe s ts => MessageBroker_subscribe s ts b
  | Unsubscribe s ts => MessageBroker_unsubscribe s ts b
  | Publish m => MessageBroker_publish m b
  | Process iteration on_message =>
      MessageBroker_process_messages iteration on_message b
  | Shutdown => MessageBroker_shutdown b
  end.

Definition broker_run (h : list BrokerOp) : Broker :=
  foldl broker_step MessageBroker_init h.

(** The messages [subscriber] has observed, in the order of observation. *)
Definition inbox (subscriber : nat) (b : Broker) : list Message :=
  (filter (λ d, d.1 = subscriber) (delivered b)).*2.

(** Subscription order of the spec: the current subscribers of kind [t] in
    the order in which they subscribed. *)
Definition subscription_order (t : MessageType) (h : list BrokerOp)
  : list nat :=
  foldl (λ l o,
           match o with
           | Subscribe s ts =>
               if bool_decide (t ∈ ts) && negb (py_in s l) then l ++ [s] else l
           | Unsubscribe s ts =>
               if bool_decide (t ∈ default all_message_types ts)
               then filter (λ s', s' ≠ s) l else l
           | _ => l
           end) [] h.

(* ===================================================================== *)
(** ** [projects/project_2/core/message_components.py] *)
(* ===================================================================== *)

(** Python truthiness of [message.data.get(key)]. *)
Definition py_truthy (v : option Value) : bool :=
  match v with
  | None | Some (VInt 0) | Some (VStr EmptyString) => false
  | Some _ => true
  end.

(** [STSSeed().passengers]: the handler builds a new seed object, whose
    constructor sets [self.passengers = {}]. *)
Definition STSSeed_passengers : gmap nat nat := ∅.

(** [MessageStopAdapter._handle_passenger_alighting_confirmation], the only
    code outside [passenger.py] that assigns [passenger.status].  The
    entities' [id] / [stop_id] attributes are their identifiers.  The final
    [publish_stop_status()] only talks to the broker and is left out. *)
Definition MessageStopAdapter_handle_passenger_alighting_confirmation
    (stop : nat) (m : Message) (w : World) : World :=
  if bool_decide (data m !! "stop_id" ≠ Some (VInt stop))
     || bool_decide (data m !! "status" ≠ Some (VStr "confirmed"))
  then w
  else
    let passenger_id := data m !! "passenger_id" in
    if negb (py_truthy passenger_id) then w
    else
      match passenger_id ≫= (λ v, match v with
                                   | VInt n => STSSeed_passengers !! n
                                   | VStr _ => None
                                   end) with
      | None => w
      | Some p =>
          let is_already_here :=
            existsb (λ q, bool_decide (passenger_id = Some (VInt q)))
                    (stop_passenger_list (stops w stop)) in
          if is_already_here then w
          else
            let at_dest :=
              dest_eq (p_destination (passengers w p)) (Some stop) in
            let w :=
              assign_status p
                (if at_dest then STATUS_ARRIVED else STATUS_WAITING) w in
            let w := upd_passenger p (set_p_current_stop (Some stop)) w in
            let w := snd (Stop_add_passenger stop p w) in
            if negb at_dest
               && negb (py_in p (stop_waiting_passengers (stops w stop)))
            then
              upd_stop stop
                (λ x, set_stop_lists (stop_passenger_list x)
                                     (stop_waiting_passengers x ++ [p]) x) w
            else w
      end.

(* ===================================================================== *)
(** ** Operations on the shared entity graph *)
(* ===================================================================== *)

(** The calls the agents and adapters make on the entities; a run of the
    system is a sequence of them. *)
Inductive Op :=
| OpBoardBus (p bus : nat)               (* passenger.board_bus(bus) *)
| OpAlightBus (p stop : nat)             (* passenger.alight_bus(stop) *)
| OpBusAddPassenger (bus p : nat)        (* bus.add_passenger(passenger) *)
| OpBusRemovePassenger (bus p : nat)     (* bus.remove_passenger(passenger) *)
| OpStopAddPassenger (stop p : nat)      (* stop.add_passenger(passenger) *)
| OpStopRemovePassenger (stop p : nat)   (* stop.remove_passenger(passenger) *)
| OpBusCycle (bus : nat)                 (* one cycle of the bus agent *)
| OpAlightingConfirmation (stop : nat) (m : Message).

Definition step (w : World) (o : Op) : World :=
  match o with
  | OpBoardBus p bus => snd (Passenger_board_bus p bus w)
  | OpAlightBus p stop => snd (Passenger_alight_bus p stop w)
  | OpBusAddPassenger bus p => snd (Bus_add_passenger bus p w)
  | OpBusRemovePassenger bus p => snd (Bus_remove_passenger bus p w)
  | OpStopAddPassenger stop p => snd (Stop_add_passenger stop p w)
  | OpStopRemovePassenger stop p => snd (Stop_remove_passenger stop p w)
  | OpBusCycle bus => BusThread_cycle bus w
  | OpAlightingConfirmation stop m =>
      MessageStopAdapter_handle_passenger_alighting_confirmation stop m w
  end.

Definition run (ops : list Op) (w : World) : World := foldl step w ops.

(** Calls on one stop's admission state. *)
Inductive StopOp :=
| OpBusArrival (bus : nat)               (* stop.bus_arrival(bus) *)
| OpBusDeparture (bus : nat)             (* stop.bus_departure(bus) *)
| OpManageBusQueue.                      (* the stop agent's queue drain *)

Definition stop_step (x : Stop) (o : StopOp) : Stop :=
  match o with
  | OpBusArrival bus => snd (Stop_bus_arrival bus x)
  | OpBusDeparture bus => snd (Stop_bus_departure bus x)
  | OpManageBusQueue => StopThread_manage_bus_queue x
  end.

(** [Stop.__init__] with its default arguments. *)
Definition Stop_init : Stop := mkStop [] 50 [] false [] ∅.

(** The admission state every constructed stop starts from: not occupied,
    no bus queued, no bus admitted. *)
Definition stop_fresh (x : Stop) : Prop :=
  stop_is_occupied x = false ∧ stop_bus_queue x = [] ∧
  stop_current_buses x = ∅.

(** The states a stop reaches from its constructor through arrivals,
    departures and queue drains. *)
Definition stop_reachable (x : Stop) : Prop :=
  ∃ (x0 : Stop) (ops : list StopOp),
    stop_fresh x0 ∧ x = foldl stop_step x0 ops.



(* ===================================================================== *)
(** ** Further methods of [models/bus.py] and [models/passenger.py] *)
(* ===================================================================== *)

(** [Bus.get_available_seats]: a Python integer, negative when the bus is
    over capacity. *)
Definition Bus_get_available_seats (x : Bus) : Z :=
  (Z.of_nat (bus_capacity x) - Z.of_nat (length (bus_passenger_list x)))%Z.

(** [Bus.is_empty] *)
Definition Bus_is_empty (x : Bus) : bool :=
  bool_decide (length (bus_passenger_list x) = 0).

(** [Bus.get_route_destinations] *)
Definition Bus_get_route_destinations (b : nat) (w : World) : list nat :=
  match bus_current_route (buses w b), bus_current_stop (buses w b) with
  | Some r, Some c =>
      match py_index c (route_stop_list (routes w r)) with
      | Some current_index => drop current_index (route_stop_list (routes w r))
      | None => []
      end
  | _, _ => []
  end.

(** [Bus.move_to_next_stop]; [None] when [list.index] raises [ValueError]
    (the method does not catch it).  The attribute [next_stop] it also
    assigns is read by nothing modelled here and is not stored. *)
Definition Bus_move_to_next_stop (b : nat) (w : World) : option (bool * World) :=
  match bus_current_route (buses w b), bus_current_stop (buses w b) with
  | Some r, Some c =>
      let stop_list := route_stop_list (routes w r) in
      match py_index c stop_list with
      | None => None
      | Some current_index =>
          if bool_decide (current_index < length stop_list - 1) then
            match stop_list !! (current_index + 1) with
            | Some next_stop =>
                Some (true, upd_bus b (set_bus_current_stop (Some next_stop)) w)
            | None => None
            end
          else Some (false, w)
      end
  | _, _ => Some (false, w)
  end.

(** [Passenger.should_board_bus]; its [isinstance] tests are those of
    [passenger.py]. *)
Definition Passenger_should_board_bus (p bus : nat) (w : World) : bool :=
  match bus_current_route (buses w bus) with
  | None => false
  | Some r =>
      let stop_list := route_stop_list (routes w r) in
      let d := p_destination (passengers w p) in
      if isinstance_models_Stop d then
        match d with DestStop s => py_in s stop_list | _ => false end
      else if isinstance_models_Station d then
        match d with
        | DestStation st =>
            existsb (λ stop, py_in stop (station_stop_list (stations w st)))
                    stop_list
        | _ => false
        end
      else false
  end.

(** [Bus.handle_passenger_boarding]: returns [boarded_count]. *)
Definition Bus_handle_passenger_boarding (b stop : nat) (w : World)
  : nat * World :=
  if Bus_is_full (buses w b) then (0, w)
  else
    let available_seats := Bus_get_available_seats (buses w b) in
    let waiting_passengers :=
      filter (λ p, Passenger_should_board_bus p b w = true)
             (stop_waiting_passengers (stops w stop)) in
    foldl (λ '(boarded_count, w) p,
             let '(added, w') := Bus_add_passenger b p w in
             (if added then boarded_count + 1 else boarded_count, w'))
          (0, w)
          (take (Z.to_nat available_seats) waiting_passengers).

(* ===================================================================== *)
(** ** Further methods of [core/bus_thread.py] *)
(* ===================================================================== *)

(** [BusThread._verify_and_fix_bus_initialization]; the [IndexError] of
    [stop_list[0]] on an empty route is caught and gives [False]. *)
Definition BusThread_verify_and_fix_bus_initialization (b : nat) (w : World)
  : bool * World :=
  match bus_current_route (buses w b) with
  | None => (false, w)
  | Some r =>
      let stop_list := route_stop_list (routes w r) in
      match bus_current_stop (buses w b) with
      | None =>
          match stop_list with
          | first :: _ => (true, upd_bus b (set_bus_current_stop (Some first)) w)
          | [] => (true, w)
          end
      | Some c =>
          if py_in c stop_list then (true, w)
          else
            match stop_list with
            | first :: _ =>
                (true, upd_bus b (set_bus_current_stop (Some first)) w)
            | [] => (false, w)
            end
      end
  end.

(* ===================================================================== *)
(** ** [core/passenger_thread.py] *)
(* ===================================================================== *)

(** [PassengerThread._can_board_bus].  [current_stop_index] is [-1] when
    the bus's stop is not on its route.  For a destination without
    [stop_list] (only [None] here) the one candidate is the destination
    itself, which is on no route. *)
Definition PassengerThread_can_board_bus (p bus : nat) (w : World) : bool :=
  match bus_current_route (buses w bus) with
  | None => false
  | Some r =>
      let stops_to_check :=
        default [] (Origin_stop_list (p_destination (passengers w p)) w) in
      let route_stops := route_stop_list (routes w r) in
      let current_stop_index : Z :=
        match bus_current_stop (buses w bus) ≫= (λ c, py_index c route_stops)
        with
        | Some i => Z.of_nat i
        | None => (-1)%Z
        end in
      existsb (λ stop,
                 match py_index stop route_stops with
                 | Some stop_index =>
                     bool_decide (current_stop_index < Z.of_nat stop_index)%Z
                 | None => false
                 end)
              stops_to_check
  end.

(** The [for bus in current_buses] loop of
    [PassengerThread._try_board_bus]. *)
Fixpoint try_board_loop (p : nat) (current_buses : list nat) (w : World)
  : World :=
  match current_buses with
  | [] => w
  | bus :: rest =>
      if PassengerThread_can_board_bus p bus w then
        let '(boarded, w') := Passenger_board_bus p bus w in
        if boarded then w' else try_board_loop p rest w'
      else try_board_loop p rest w
  end.

(** [PassengerThread._try_board_bus]; [get_current_buses] is
    [list(self.current_buses)], the buses in the order in which the set is
    iterated. *)
Definition PassengerThread_try_board_bus (iteration : SetIteration) (p : nat)
    (w : World) : World :=
  match p_current_stop (passengers w p) with
  | None => w
  | Some c =>
      try_board_loop p (visit iteration (stop_current_buses (stops w c))) w
  end.

(** [PassengerThread._should_alight_at_stop] *)
Definition PassengerThread_should_alight_at_stop (p stop : nat) (w : World)
  : bool :=
  let d := p_destination (passengers w p) in
  if dest_eq d (Some stop) then true
  else
    match Origin_stop_list d w with
    | Some l => py_in stop l
    | None => false
    end.

(** [PassengerThread._check_arrival] *)
Definition PassengerThread_check_arrival (p : nat) (w : World) : World :=
  match p_current_bus (passengers w p) with
  | None => w
  | Some bus =>
      match bus_current_stop (buses w bus) with
      | None => w
      | Some current_stop =>
          if PassengerThread_should_alight_at_stop p current_stop w
          then snd (Passenger_alight_bus p current_stop w)
          else w
      end
  end.

(** One iteration of the [while] loop of [PassengerThread.run]. *)
Definition PassengerThread_cycle (iteration : SetIteration) (p : nat)
    (w : World) : World :=
  match p_status (passengers w p) with
  | STATUS_WAITING => PassengerThread_try_board_bus iteration p w
  | STATUS_IN_BUS => PassengerThread_check_arrival p w
  | _ => w
  end.

(* ===================================================================== *)
(** ** Methods of [models/route.py] *)
(* ===================================================================== *)

(** The Python slice [l[a:b]] for indices [0 ≤ a], [0 ≤ b]. *)
Definition py_slice (a b : nat) (l : list nat) : list nat :=
  take (b - a) (drop a l).

(** [Route.get_next_stop] *)
Definition Route_get_next_stop (x : Route) (current_stop : nat) : option nat :=
  match py_index current_stop (route_stop_list x) with
  | Some current_index =>
      if bool_decide (current_index < length (route_stop_list x) - 1)
      then route_stop_list x !! (current_index + 1) else None
  | None => None
  end.

(** [Route.get_previous_stop] *)
Definition Route_get_previous_stop (x : Route) (current_stop : nat)
  : option nat :=
  match py_index current_stop (route_stop_list x) with
  | Some current_index =>
      if bool_decide (0 < current_index)
      then route_stop_list x !! (current_index - 1) else None
  | None => None
  end.

(** [Route.get_remaining_stops] *)
Definition Route_get_remaining_stops (x : Route) (current_stop : nat)
  : list nat :=
  match py_index current_stop (route_stop_list x) with
  | Some current_index => drop (current_index + 1) (route_stop_list x)
  | None => []
  end.

(** [Route.contains_stop] *)
Definition Route_contains_stop (x : Route) (stop : nat) : bool :=
  py_in stop (route_stop_list x).

(** [Route.get_stop_position] *)
Definition Route_get_stop_position (x : Route) (stop : nat) : Z :=
  match py_index stop (route_stop_list x) with
  | Some i => Z.of_nat i
  | None => (-1)%Z
  end.

(** [Route.get_stops_between]; [None] is Python's [None]. *)
Definition Route_get_stops_between (x : Route) (start_stop end_stop : nat)
  : option (list nat) :=
  match py_index start_stop (route_stop_list x),
        py_index end_stop (route_stop_list x) with
  | Some start_index, Some end_index =>
      Some (if bool_decide (start_index < end_index)
            then py_slice (start_index + 1) end_index (route_stop_list x)
            else rev (py_slice (end_index + 1) start_index (route_stop_list x)))
  | _, _ => None
  end.

(** [Route.create_reverse_route]: the stop list of the new route (its
    origins are those of the route, swapped). *)
Definition Route_create_reverse_route (x : Route) : Route :=
  mkRoute (rev (route_stop_list x)).

(** What [Route.is_valid] reads of an origin: whether it is a [Station] or
    an [Intersection], and its [stop_list]. *)
Record OriginView := mkOriginView {
  origin_is_station_or_intersection : bool;
  origin_stop_list : list nat
}.

(** [Route.is_valid], for a route with the given origins ([None] for an
    origin that is [None]) over the stops' [neighboring_stops]. *)
Definition Route_is_valid (neighboring_stops : nat → gset nat)
    (origin_start origin_end : option OriginView) (x : Route) : bool :=
  let stop_list := route_stop_list x in
  if bool_decide (length stop_list < 2) then false
  else if negb (forallb
                  (λ i, match stop_list !! i, stop_list !! (i + 1) with
                        | Some a, Some b =>
                            bool_decide (b ∈ neighboring_stops a)
                        | _, _ => true
                        end)
                  (seq 0 (length stop_list - 1)))
  then false
  else
    match origin_start, origin_end, stop_list !! 0, last stop_list with
    | Some os, Some oe, Some first_stop, Some last_stop =>
        if origin_is_station_or_intersection os
           && negb (py_in first_stop (origin_stop_list os)) then false
        else if origin_is_station_or_intersection oe
                && negb (py_in last_stop (origin_stop_list oe)) then false
        else true
    | _, _, _, _ => true
    end.

(** [Route.remove_stop]: the result and the new [stop_list]. *)
Definition Route_remove_stop (neighboring_stops : nat → gset nat) (x : Route)
    (stop : nat) : bool * Route :=
  let stop_list := route_stop_list x in
  match py_index stop stop_list with
  | None => (false, x)
  | Some position =>
      if bool_decide (position = 0)
         || bool_decide (position = length stop_list - 1) then (false, x)
      else
        match stop_list !! (position - 1), stop_list !! (position + 1) with
        | Some prev_stop, Some next_stop =>
            if bool_decide (next_stop ∈ neighboring_stops prev_stop)
            then (true, mkRoute (py_remove stop stop_list))
            else (false, x)
        | _, _ => (false, x)
        end
  end.

(* ===================================================================== *)
(** ** Neighbours and connections ([models/stop.py], [models/origin.py]) *)
(* ===================================================================== *)

(** [Stop.add_neighboring_stop], on the stops' [neighboring_stops] sets. *)
Definition Stop_add_neighboring_stop (self stop : nat)
    (neighboring_stops : nat → gset nat) : bool * (nat → gset nat) :=
  if bool_decide (stop ∉ neighboring_stops self) && bool_decide (stop ≠ self)
  then
    let nb := <[self := {[stop]} ∪ neighboring_stops self]> neighboring_stops in
    (true, <[stop := {[self]} ∪ nb stop]> nb)
  else (false, neighboring_stops).

(** [Stop.remove_neighboring_stop] *)
Definition Stop_remove_neighboring_stop (self stop : nat)
    (neighboring_stops : nat → gset nat) : bool * (nat → gset nat) :=
  if bool_decide (stop ∈ neighboring_stops self) then
    let nb := <[self := neighboring_stops self ∖ {[stop]}]> neighboring_stops in
    (true, <[stop := nb stop ∖ {[self]}]> nb)
  else (false, neighboring_stops).

(** [Origin.connect_to], on the origins' [connected_origins] lists. *)
Definition Origin_connect_to (self other : nat)
    (connected_origins : nat → list nat) : bool * (nat → list nat) :=
  if negb (py_in other (connected_origins self)) then
    let co := <[self := connected_origins self ++ [other]]> connected_origins in
    (true,
     if negb (py_in self (co other)) then <[other := co other ++ [self]]> co
     else co)
  else (false, connected_origins).

(** [Origin.disconnect_from] *)
Definition Origin_disconnect_from (self other : nat)
    (connected_origins : nat → list nat) : bool * (nat → list nat) :=
  if py_in other (connected_origins self) then
    let co :=
      <[self := py_remove other (connected_origins self)]> connected_origins in
    (true,
     if py_in self (co other) then <[other := py_remove self (co other)]> co
     else co)
  else (false, connected_origins).

(** [Origin.is_connected_to] *)
Definition Origin_is_connected_to (self other : nat)
    (connected_origins : nat → list nat) : bool :=
  py_in other (connected_origins self).

(* ===================================================================== *)
(** ** Further handlers of [projects/project_2/core/message_components.py] *)
(* ===================================================================== *)

(** The first element of a list whose [id] equals the message's
    [passenger_id]: the [for ... if passenger.id == passenger_id: ... break]
    loops of the handlers. *)
Definition find_by_id (passenger_id : option Value) (l : list nat)
  : option nat :=
  List.find (λ q, bool_decide (passenger_id = Some (VInt q))) l.

(** The message [MessageBusAdapter.publish_passenger_boarded] builds, as
    published by the boarding handler: there [add_passenger] has just
    succeeded, so [capacity - len(passenger_list)] is not negative.
    [self_id] is the adapter's [id], [now] the time stamp. *)
Definition boarded_message (self_id : string) (bus p : nat) (stop_id : Value)
    (now : nat) (w : World) : Message :=
  mkMessage PASSENGER_BOARDING self_id
    (<["bus_id" := VInt bus]>
       (<["passenger_id" := VInt p]>
          (<["stop_id" := stop_id]>
             (<["status" := VStr "confirmed"]>
                (<["available_seats" :=
                     VInt (bus_capacity (buses w bus)
                           - length (bus_passenger_list (buses w bus)))]> ∅)))))
    now.

(** [MessageBusAdapter._handle_passenger_boarding_request], for the adapter
    of [bus]: the new state and the messages it publishes. *)
Definition MessageBusAdapter_handle_passenger_boarding_request
    (self_id : string) (bus now : nat) (m : Message) (w : World)
  : World * list Message :=
  let passenger_id := data m !! "passenger_id" in
  let stop_id := data m !! "stop_id" in
  if negb (py_truthy passenger_id) || negb (py_truthy stop_id) then (w, [])
  else
    match bus_current_stop (buses w bus), stop_id with
    | Some c, Some sid =>
        if bool_decide (sid = VInt c)
           && Bus_can_accept_passengers (buses w bus) 1 then
          match find_by_id passenger_id (stop_waiting_passengers (stops w c))
          with
          | Some p =>
              let '(added, w1) := Bus_add_passenger bus p w in
              (w1, if added then [boarded_message self_id bus p sid now w1]
                   else [])
          | None => (w, [])
          end
        else (w, [])
    | _, _ => (w, [])
    end.

(** [MessageBusAdapter._handle_passenger_alighting_request]: the new state
    and whether [publish_passenger_alighted] is called. *)
Definition MessageBusAdapter_handle_passenger_alighting_request
    (bus : nat) (m : Message) (w : World) : World * bool :=
  let passenger_id := data m !! "passenger_id" in
  let stop_id := data m !! "stop_id" in
  if negb (py_truthy passenger_id) || negb (py_truthy stop_id) then (w, false)
  else
    match bus_current_stop (buses w bus) with
    | Some c =>
        if bool_decide (stop_id = Some (VInt c)) then
          match find_by_id passenger_id (bus_passenger_list (buses w bus)) with
          | Some p =>
              let '(removed, w1) := Bus_remove_passenger bus p w in
              (w1, removed)
          | None => (w, false)
          end
        else (w, false)
    | None => (w, false)
    end.

(** [MessageStopAdapter._handle_passenger_boarding_confirmation], for the
    adapter of [stop]. *)
Definition MessageStopAdapter_handle_passenger_boarding_confirmation
    (stop : nat) (m : Message) (w : World) : World :=
  if bool_decide (data m !! "stop_id" ≠ Some (VInt stop))
     || bool_decide (data m !! "status" ≠ Some (VStr "confirmed"))
  then w
  else
    let passenger_id := data m !! "passenger_id" in
    match passenger_id with
    | None => w
    | Some _ =>
        match find_by_id passenger_id (stop_waiting_passengers (stops w stop))
        with
        | Some p => snd (Stop_remove_passenger stop p w)
        | None => w
        end
    end.
(* ===================================================================== *)
(** * Specification vocabulary *)
(* ===================================================================== *)

(** ** Stop admission *)

(** What every reachable admission state satisfies. *)
Record stop_inv (x : Stop) : Prop := mk_stop_inv {
  inv_occupied : stop_is_occupied x = true ↔ stop_current_buses x ≠ ∅;
  inv_single : size (stop_current_buses x) ≤ 1;
  inv_backlog : stop_is_occupied x = false → stop_bus_queue x = []
}.

(** ** Bus capacity *)

Definition within_capacity (x : Bus) : Prop :=
  length (bus_passenger_list x) ≤ bus_capacity x.

(** The calls [bus.add_passenger] and [bus.remove_passenger]. *)
Definition bus_list_op (o : Op) : Prop :=
  match o with
  | OpBusAddPassenger _ _ | OpBusRemovePassenger _ _ => True
  | _ => False
  end.

(** ** Where a passenger is *)

(** A passenger as the seed constructs it: waiting at a stop, in no bus. *)
Definition passenger_fresh (x : Passenger) : Prop :=
  is_Some (p_current_stop x) ∧ p_current_bus x = None ∧
  p_status x = STATUS_WAITING.

(** The boarding and alighting operations: [Passenger.board_bus],
    [Bus.add_passenger], [Stop.remove_passenger], [Passenger.alight_bus]. *)
Definition boarding_alighting_op (o : Op) : Prop :=
  match o with
  | OpBoardBus _ _ | OpBusAddPassenger _ _ | OpStopRemovePassenger _ _
  | OpAlightBus _ _ => True
  | _ => False
  end.

(** Exactly one of [current_stop] and [current_bus] is set. *)
Definition exactly_one_location (x : Passenger) : Prop :=
  (is_Some (p_current_stop x) ∧ p_current_bus x = None) ∨
  (p_current_stop x = None ∧ is_Some (p_current_bus x)).

(** The location invariant as the data model words it, for passenger [p]
    after the operations [ops] from [w0]. *)
Definition exclusive_location_after (w0 : World) (ops : list Op) (p : nat)
  : Prop :=
  passenger_fresh (passengers w0 p) →
  Forall boarding_alighting_op ops →
  p_status (passengers (run ops w0) p) ≠ STATUS_ARRIVED →
  exactly_one_location (passengers (run ops w0) p).

(** What the operations do maintain. *)
Definition location_inv (x : Passenger) : Prop :=
  is_Some (p_current_stop x) ∧
  (p_status x = STATUS_IN_BUS → is_Some (p_current_bus x)).

(** ** Passenger status *)

(** The statuses assigned to passenger [p] by a stretch of the log. *)
Fixpoint status_writes (p : nat) (evs : list Event) : list Status :=
  match evs with
  | [] => []
  | EvStatus q s :: evs' =>
      if decide (q = p) then s :: status_writes p evs'
      else status_writes p evs'
  | _ :: evs' => status_writes p evs'
  end.

(** The events operation [o] appends to the log of [w]. *)
Definition new_events (w : World) (o : Op) : list Event :=
  drop (length (log w)) (log (step w o)).

(** The chain WAITING→BOARDING→IN_BUS→ALIGHTING→{WAITING|ARRIVED}. *)
Definition chain (a b : Status) : bool :=
  match a, b with
  | STATUS_WAITING, STATUS_BOARDING
  | STATUS_BOARDING, STATUS_IN_BUS
  | STATUS_IN_BUS, STATUS_ALIGHTING
  | STATUS_ALIGHTING, STATUS_WAITING
  | STATUS_ALIGHTING, STATUS_ARRIVED => true
  | _, _ => false
  end.

(** Starting from status [s], every assignment in [l] takes a step of the
    relation [R]. *)
Fixpoint follows (R : Status → Status → bool) (s : Status) (l : list Status)
  : bool :=
  match l with
  | [] => true
  | s' :: l' => R s s' && follows R s' l'
  end.

(** Every status change operation [o] makes to passenger [p] follows the
    chain. *)
Definition status_follows_chain (w : World) (o : Op) (p : nat) : bool :=
  follows chain (p_status (passengers w p)) (status_writes p (new_events w o)).

(** The status assignments one operation can make to a passenger whose
    status was [s]. *)
Definition status_shape (s : Status) (ws : list Status) : Prop :=
  ws = [] ∨
  (s = STATUS_WAITING ∧ ws = [STATUS_BOARDING; STATUS_IN_BUS]) ∨
  (s = STATUS_IN_BUS ∧ ws = [STATUS_ALIGHTING; STATUS_WAITING]).

(** What an operation does to the status of passenger [p]: the log grows
    by some events, the status field ends as the last assignment logged for
    [p], and those assignments have one of the shapes above. *)
Definition transition_spec (w w' : World) (p : nat) : Prop :=
  ∃ evs,
    log w' = log w ++ evs ∧
    p_status (passengers w' p)
    = List.last (status_writes p evs) (p_status (passengers w p)) ∧
    status_shape (p_status (passengers w p)) (status_writes p evs).

(** An operation that assigns no status. *)
Definition quiet (w w' : World) : Prop :=
  (∀ p, p_status (passengers w' p) = p_status (passengers w p)) ∧
  ∃ evs, log w' = log w ++ evs ∧ ∀ p, status_writes p evs = [].

(** ** Scenario A of the testable properties *)

(** Stops A = 0 and B = 1, route 0 = [A, B], bus 0 of capacity 2 at A on
    route 0, passenger 0 waiting at A.  The passenger's destination is the
    parameter. *)
Definition scenario (d : Destination) : World :=
  mkWorld (<[0 := mkStop [0] 50 [0] false [] ∅]> (λ _, Stop_init))
          (λ _, mkStation [1])
          (λ _, mkRoute [0; 1])
          (λ _, mkBus 2 [] (Some 0) (Some 0))
          (λ _, mkPassenger d (Some 0) None STATUS_WAITING [] [] None)
          [].

(** Scenario A proper: the destination is stop B. *)
Definition scenario_A : World := scenario (DestStop 1).

(** ** Bus agent *)

(** The stop after index [i] on a route, wrapping to the first stop. *)
Definition route_successor (route_stops : list nat) (i : nat) : option nat :=
  if bool_decide (i + 1 < length route_stops)
  then route_stops !! (i + 1) else route_stops !! 0.

(** The destination stop set of the spec: the stop itself, or the stops of
    a destination station. *)
Definition destination_stops (d : Destination) (w : World) : list nat :=
  match d with
  | DestStop s => [s]
  | DestStation st => station_stop_list (stations w st)
  | DestNone => []
  end.

(** The remaining forward stops of bus [b]: its route's stop list from the
    index of its current stop onward. *)
Definition forward_stops (b : nat) (w : World) : option (list nat) :=
  r ← bus_current_route (buses w b);
  c ← bus_current_stop (buses w b);
  i ← py_index c (route_stop_list (routes w r));
  Some (drop i (route_stop_list (routes w r))).

(** The waiting list the boarding step of bus [b] walks through. *)
Definition waiting_list (b : nat) (w : World) : list nat :=
  match bus_current_stop (buses w b) with
  | Some c => stop_waiting_passengers (stops w c)
  | None => []
  end.

(** What the boarding loop of bus [b] leaves as it was in [w0]. *)
Record boarding_frame (b : nat) (w0 w : World) : Prop := mk_boarding_frame {
  frame_routes : routes w = routes w0;
  frame_stations : stations w = stations w0;
  frame_route : bus_current_route (buses w b) = bus_current_route (buses w0 b);
  frame_stop : bus_current_stop (buses w b) = bus_current_stop (buses w0 b);
  frame_capacity : bus_capacity (buses w b) = bus_capacity (buses w0 b);
  frame_destination :
    ∀ p, p_destination (passengers w p) = p_destination (passengers w0 p)
}.

(** ** Broker *)

(** The deliveries made by the consumer loop's next iteration. *)
Definition next_deliveries (iteration : SetIteration) (on_message : Handlers)
    (b : Broker) : list (nat * Message) :=
  drop (length (delivered b))
       (delivered (MessageBroker_process_messages iteration on_message b)).

(** Delivery in subscription order, for the history [h] followed by one
    iteration of the consumer loop that dequeues [m]. *)
Definition delivers_in_subscription_order (iteration : SetIteration)
    (on_message : Handlers) (h : list BrokerOp) (m : Message) : Prop :=
  next_deliveries iteration on_message (broker_run h)
  = (λ s, (s, m)) <$> subscription_order (msg_type m) h.

(** Two iterations of a set: by ascending and by descending identifier.
    CPython visits a set's table slot by slot, and a member's slot comes
    from its hash: either order occurs, depending on where the objects
    lie. *)
Definition ascending_iteration : SetIteration :=
  mkSetIteration (λ X, merge_sort (≤) (elements X))
                 (λ X, merge_sort_Permutation (≤) (elements X)).

Definition descending_iteration : SetIteration :=
  mkSetIteration
    (λ X, reverse (merge_sort (≤) (elements X)))
    (λ X, transitivity (reverse_Permutation (merge_sort (≤) (elements X)))
                       (merge_sort_Permutation (≤) (elements X))).

(** What the histories of every broker satisfy. *)
Record broker_inv (b : Broker) : Prop := mk_broker_inv {
  inv_queue : stop_event b = false → published b = dequeued b ++ message_queue b;
  inv_prefix : dequeued b `prefix_of` published b;
  inv_inbox : ∀ s, inbox s b `sublist_of` dequeued b
}.

(** A concrete message and three more, told apart by sender and
    timestamp. *)
Definition msg (sender : string) (t : nat) : Message :=
  mkMessage BUS_ARRIVAL sender ∅ t.

(** Handlers that publish nothing. *)
Definition silent : Handlers := λ _ _, [].


(* ===================================================================== *)
(** * Further vocabulary *)
(* ===================================================================== *)

(** ** Broker *)

(** Subscriber [s] is registered for no kind at all. *)
Definition unsubscribed (s : nat) (b : Broker) : Prop :=
  ∀ t, s ∉ subscribers b t.

(** A call that is not a [subscribe] of [s]. *)
Definition not_subscribe (s : nat) (o : BrokerOp) : Prop :=
  match o with
  | Subscribe s' _ => s' ≠ s
  | _ => True
  end.

(** The messages among [ms] whose kind [s] is registered for in [b]. *)
Definition wanted_by (s : nat) (b : Broker) (ms : list Message)
  : list Message :=
  filter (λ m, s ∈ subscribers b (msg_type m)) ms.

(** [n] iterations of the consumer loop with handlers that publish
    nothing. *)
Definition drain (iteration : SetIteration) (n : nat) (b : Broker) : Broker :=
  Nat.iter n (MessageBroker_process_messages iteration silent) b.

(** ** Stops *)

(** The two passenger lists of a stop agree and respect its capacity. *)
Definition lists_ok (x : Stop) : Prop :=
  stop_waiting_passengers x = stop_passenger_list x ∧
  length (stop_passenger_list x) ≤ stop_capacity x.

(** ** Passengers and buses *)

(** A status a passenger can be found in between two operations. *)
Definition status_at_rest (s : Status) : Prop :=
  s = STATUS_WAITING ∨ s = STATUS_IN_BUS ∨ s = STATUS_ARRIVED.

(** [board_bus] called for each passenger of [ps] in turn, on one bus. *)
Definition board_all (bus : nat) (ps : list nat) (w : World) : World :=
  foldl (λ w p, snd (Passenger_board_bus p bus w)) w ps.

(** ** Bus agent *)

(** The bus is on its route: it has a route and a current stop, and the
    stop is in the route's stop list. *)
Definition bus_on_route (b : nat) (w : World) : Prop :=
  ∃ r c, bus_current_route (buses w b) = Some r ∧
         bus_current_stop (buses w b) = Some c ∧
         c ∈ route_stop_list (routes w r).

(** What [Bus.remove_passenger] and the alighting step leave as they
    are. *)
Record alighting_frame (b : nat) (w w' : World) : Prop := mk_alighting_frame {
  af_stops : stops w' = stops w;
  af_stations : stations w' = stations w;
  af_routes : routes w' = routes w;
  af_stop : bus_current_stop (buses w' b) = bus_current_stop (buses w b);
  af_route : bus_current_route (buses w' b) = bus_current_route (buses w b);
  af_destination :
    ∀ p, p_destination (passengers w' p) = p_destination (passengers w p);
  af_no_bus :
    ∀ p, p_current_bus (passengers w p) = None →
         p_current_bus (passengers w' p) = None
}.

(** ** Passenger agent *)

(** A step that touches nothing but passenger [p]'s own fields (and the
    log). *)
Record passenger_only (p : nat) (w w' : World) : Prop := mk_passenger_only {
  po_buses : buses w' = buses w;
  po_stops : stops w' = stops w;
  po_routes : routes w' = routes w;
  po_stations : stations w' = stations w;
  po_others : ∀ q, q ≠ p → passengers w' q = passengers w q
}.

(** ** Routes *)

(** Consecutive stops of the list are neighbours. *)
Definition adjacent (neighboring_stops : nat → gset nat) (l : list nat)
  : Prop :=
  ∀ i a b, l !! i = Some a → l !! (i + 1) = Some b → b ∈ neighboring_stops a.

(** ** Neighbours and connections *)

(** Calls of [Stop.add_neighboring_stop] and
    [Stop.remove_neighboring_stop]. *)
Inductive NeighbourOp :=
  | OpAddNeighbour (self stop : nat)
  | OpRemoveNeighbour (self stop : nat).

Definition neighbour_step (nb : nat → gset nat) (o : NeighbourOp)
  : nat → gset nat :=
  match o with
  | OpAddNeighbour self stop => (Stop_add_neighboring_stop self stop nb).2
  | OpRemoveNeighbour self stop => (Stop_remove_neighboring_stop self stop nb).2
  end.

(** The neighbour relation is symmetric and no stop is its own
    neighbour. *)
Definition neighbours_ok (nb : nat → gset nat) : Prop :=
  (∀ a b, b ∈ nb a → a ∈ nb b) ∧ (∀ a, a ∉ nb a).

(** Calls of [Origin.connect_to] and [Origin.disconnect_from]. *)
Inductive ConnectionOp :=
  | OpConnect (self other : nat)
  | OpDisconnect (self other : nat).

Definition connection_step (co : nat → list nat) (o : ConnectionOp)
  : nat → list nat :=
  match o with
  | OpConnect self other => (Origin_connect_to self other co).2
  | OpDisconnect self other => (Origin_disconnect_from self other co).2
  end.

(** Connections are symmetric and no connection is listed twice. *)
Definition connections_ok (co : nat → list nat) : Prop :=
  (∀ a b, b ∈ co a → a ∈ co b) ∧ (∀ a, NoDup (co a)).
(* ===================================================================== *)
(** * Proofs *)
(* ===================================================================== *)

Ltac stop_simpl :=
  cbn [stop_is_occupied stop_bus_queue stop_current_buses stop_passenger_list
       stop_waiting_passengers stop_capacity set_stop_admission snd fst] in *.

Ltac world_simpl :=
  cbn [stops stations routes buses passengers log upd_stop upd_bus
       upd_passenger emit assign_status assign_current_stop snd fst] in *.

Ltac passenger_simpl :=
  cbn [p_destination p_current_stop p_current_bus p_status p_stops_visited
       p_buses_taken p_current_route set_status set_p_current_bus
       set_p_current_stop set_p_current_route push_stops_visited
       push_buses_taken] in *.

(** Unfold a chain of updates of one passenger read back at that
    passenger. *)
Ltac self_simpl :=
  repeat (progress (world_simpl; rewrite ?fn_lookup_insert; passenger_simpl)).

(** Read passenger [q] after a chain of updates of passenger [p]. *)
Ltac read_passenger q p :=
  self_simpl;
  destruct (decide (p = q)) as [->|?];
  [ rewrite ?fn_lookup_insert
  | rewrite ?fn_lookup_insert_ne by done ];
  passenger_simpl.


(** ** Stores *)

Lemma Passenger_is_at_destination_false p w :
  Passenger_is_at_destination p w = false.
Proof.
  unfold Passenger_is_at_destination.
  destruct (p_current_stop _); [|done]. by destruct (p_destination _).
Qed.

Lemma Passenger_alight_bus_world p stop w :
  snd (Passenger_alight_bus p stop w)
  = if negb (bool_decide (p_status (passengers w p) = STATUS_IN_BUS)) then w
    else
      assign_status p STATUS_WAITING
        (upd_passenger p (push_stops_visited stop)
           (upd_passenger p (set_p_current_stop (Some stop))
              (upd_passenger p (set_p_current_bus None)
                 (assign_status p STATUS_ALIGHTING w)))).
Proof.
  unfold Passenger_alight_bus. destruct (negb _); [done|]. cbv zeta.
  rewrite Passenger_is_at_destination_false.
  by destruct (p_current_bus (passengers w p)).
Qed.

Lemma passengers_upd_passenger p f w q :
  passengers (upd_passenger p f w) q
  = if decide (p = q) then f (passengers w p) else passengers w q.
Proof.
  unfold upd_passenger; cbn [passengers]. case_decide as E.
  - subst. apply fn_lookup_insert.
  - by apply fn_lookup_insert_ne.
Qed.

Lemma buses_upd_bus b f w b' :
  buses (upd_bus b f w) b'
  = if decide (b = b') then f (buses w b) else buses w b'.
Proof.
  unfold upd_bus; cbn [buses]. case_decide as E.
  - subst. apply fn_lookup_insert.
  - by apply fn_lookup_insert_ne.
Qed.

Lemma py_remove_length x l : length (py_remove x l) ≤ length l.
Proof.
  induction l as [|y l IH]; cbn [py_remove]; [done|].
  case_decide; cbn [length]; lia.
Qed.

Lemma run_snoc ops o w : run (ops ++ [o]) w = step (run ops w) o.
Proof. unfold run. by rewrite foldl_app. Qed.

(** ** Stop admission ([Stop.bus_arrival], [Stop.bus_departure],
       [StopThread._manage_bus_queue]) *)

Lemma gset_single (X : gset nat) (b : nat) :
  size X ≤ 1 → b ∈ X → X ∖ {[b]} = ∅.
Proof.
  intros Hsz Hb.
  assert (Hsplit : X = {[b]} ∪ X ∖ {[b]}).
  { apply set_eq. intros y. destruct (decide (y = b)); set_solver. }
  assert (Hs : size X = size ({[b]} : gset nat) + size (X ∖ {[b]})).
  { rewrite Hsplit at 1. apply size_union. set_solver. }
  rewrite size_singleton in Hs.
  apply leibniz_equiv, size_empty_iff. lia.
Qed.

Lemma stop_inv_fresh x : stop_fresh x → stop_inv x.
Proof.
  intros (Hocc & Hq & Hcur). split.
  - rewrite Hocc, Hcur. split; [done | intros H; by destruct H].
  - rewrite Hcur, size_empty. lia.
  - done.
Qed.

Lemma stop_inv_arrival bus x : stop_inv x → stop_inv (snd (Stop_bus_arrival bus x)).
Proof.
  intros [Hocc Hsz Hq]. unfold Stop_bus_arrival.
  destruct (stop_is_occupied x) eqn:E; simpl.
  - split; stop_simpl; [done | done | done].
  - assert (Hcur : stop_current_buses x = ∅).
    { destruct (decide (stop_current_buses x = ∅)) as [|Hne]; [done|].
      apply Hocc in Hne. done. }
    split; stop_simpl.
    + split; [intros _; set_solver | done].
    + rewrite Hcur. rewrite (right_id_L ∅ (∪)), size_singleton. lia.
    + done.
Qed.

Lemma stop_inv_departure bus x : stop_inv x → stop_inv (snd (Stop_bus_departure bus x)).
Proof.
  intros [Hocc Hsz Hq]. unfold Stop_bus_departure.
  case_bool_decide as Hin; stop_simpl; [|by split].
  rewrite (gset_single _ _ Hsz Hin).
  rewrite bool_decide_eq_true_2; [|done].
  destruct (stop_bus_queue x) as [|next q]; stop_simpl.
  - split; stop_simpl; [split; [done | intros H; by destruct H] | rewrite size_empty; lia | done].
  - split; stop_simpl.
    + split; [intros _; set_solver | done].
    + rewrite (right_id_L ∅ (∪)), size_singleton. lia.
    + done.
Qed.

Lemma manage_bus_queue_idle x : stop_inv x → StopThread_manage_bus_queue x = x.
Proof.
  intros [Hocc Hsz Hq]. unfold StopThread_manage_bus_queue.
  destruct (stop_bus_queue x) as [|next q] eqn:E; [done|].
  destruct (stop_is_occupied x); [done|]. by specialize (Hq eq_refl).
Qed.

Lemma stop_inv_step o x : stop_inv x → stop_inv (stop_step x o).
Proof.
  intros H. destruct o; simpl.
  - by apply stop_inv_arrival.
  - by apply stop_inv_departure.
  - by rewrite manage_bus_queue_idle.
Qed.

Lemma stop_inv_reachable x : stop_reachable x → stop_inv x.
Proof.
  intros (x0 & ops & Hfresh & ->).
  apply stop_inv_fresh in Hfresh. revert x0 Hfresh.
  induction ops as [|o ops IH]; intros x0 H; simpl; [done|].
  apply IH. by apply stop_inv_step.
Qed.

(** C8.  In every state a stop reaches from its constructor through
    [bus_arrival], [bus_departure] and the stop agent's queue drain,
    [is_occupied] is true exactly when [current_buses] is non-empty; and
    when the only admitted bus departs while the queue is non-empty, the
    head of the queue is admitted by that same call and the stop is occupied
    again. *)
Theorem C8_occupied_iff_admitted (x : Stop) :
  stop_reachable x →
  (stop_is_occupied x = true ↔ stop_current_buses x ≠ ∅) ∧
  (∀ bus next_bus q,
     stop_current_buses x = {[bus]} →
     stop_bus_queue x = next_bus :: q →
     ∃ x', Stop_bus_departure bus x = (true, x') ∧
           stop_current_buses x' = {[next_bus]} ∧
           stop_bus_queue x' = q ∧
           stop_is_occupied x' = true).
Proof.
  intros Hreach. destruct (stop_inv_reachable x Hreach) as [Hocc Hsz Hq].
  split; [exact Hocc|].
  intros bus next_bus q Hcur Hqueue. unfold Stop_bus_departure.
  rewrite Hcur, Hqueue.
  rewrite bool_decide_eq_true_2 by set_solver.
  rewrite bool_decide_eq_true_2 by set_solver.
  eexists. split; [reflexivity|]. stop_simpl.
  repeat split. set_solver.
Qed.

Lemma C8_occupied_iff_admitted_witness :
  let x := foldl stop_step Stop_init [OpBusArrival 1; OpBusArrival 2] in
  (stop_is_occupied x = true ↔ stop_current_buses x ≠ ∅) ∧
  ∃ x', Stop_bus_departure 1 x = (true, x') ∧
        stop_current_buses x' = {[2]} ∧
        stop_bus_queue x' = [] ∧
        stop_is_occupied x' = true.
Proof.
  intros x.
  assert (Hreach : stop_reachable x).
  { exists Stop_init, [OpBusArrival 1; OpBusArrival 2].
    split; [repeat split|reflexivity]. }
  destruct (C8_occupied_iff_admitted x Hreach) as [Hiff Hdep].
  split; [exact Hiff|].
  apply (Hdep 1 2 []); vm_compute; reflexivity.
Defined.

(** C10.  In every state a stop reaches from its constructor,
    [current_buses] holds at most one bus.  A bus arriving while a bus is
    admitted is appended to the rear of [bus_queue] and [bus_arrival]
    returns [False], leaving [current_buses] as it was; and the only
    operation that then admits a bus is a [bus_departure], which takes that
    bus from the head of the queue. *)
Theorem C10_at_most_one_admitted (x : Stop) :
  stop_reachable x →
  size (stop_current_buses x) ≤ 1 ∧
  (∀ bus,
     stop_current_buses x ≠ ∅ →
     ∃ x', Stop_bus_arrival bus x = (false, x') ∧
           stop_bus_queue x' = stop_bus_queue x ++ [bus] ∧
           stop_current_buses x' = stop_current_buses x) ∧
  (∀ o bus,
     stop_current_buses x ≠ ∅ →
     bus ∉ stop_current_buses x →
     bus ∈ stop_current_buses (stop_step x o) →
     ∃ leaving q,
       o = OpBusDeparture leaving ∧
       stop_current_buses x = {[leaving]} ∧
       stop_bus_queue x = bus :: q ∧
       stop_bus_queue (stop_step x o) = q).
Proof.
  intros Hreach. destruct (stop_inv_reachable x Hreach) as [Hocc Hsz Hq].
  split; [exact Hsz|]. split.
  - intros bus Hne. apply Hocc in Hne. unfold Stop_bus_arrival.
    rewrite Hne. eexists. split; [reflexivity|]. by stop_simpl.
  - intros o bus Hne Hout Hin. pose proof Hne as Hbusy. apply Hocc in Hbusy.
    destruct o as [b|b|]; cbn [stop_step] in *.
    + unfold Stop_bus_arrival in Hin. rewrite Hbusy in Hin.
      stop_simpl. done.
    + unfold Stop_bus_departure in *.
      case_bool_decide as Hb; stop_simpl; [|done].
      pose proof (gset_single _ _ Hsz Hb) as Hgone.
      rewrite Hgone in *.
      rewrite bool_decide_eq_true_2 in * by done.
      destruct (stop_bus_queue x) as [|next q] eqn:Hqueue; stop_simpl.
      * set_solver.
      * exists b, q. assert (bus = next) as -> by set_solver.
        repeat split.
        apply set_eq. intros y. split; [|set_solver].
        intros Hy. destruct (decide (y = b)) as [->|Hyb]; [set_solver|].
        assert (y ∈ stop_current_buses x ∖ {[b]}) by set_solver.
        rewrite Hgone in *. set_solver.
    + rewrite manage_bus_queue_idle in Hin by done. done.
Qed.

Lemma C10_at_most_one_admitted_witness :
  let x := foldl stop_step Stop_init [OpBusArrival 1; OpBusArrival 2] in
  size (stop_current_buses x) ≤ 1 ∧
  (∃ x', Stop_bus_arrival 3 x = (false, x') ∧
         stop_bus_queue x' = stop_bus_queue x ++ [3] ∧
         stop_current_buses x' = stop_current_buses x) ∧
  (∃ leaving q,
     OpBusDeparture 1 = OpBusDeparture leaving ∧
     stop_current_buses x = {[leaving]} ∧
     stop_bus_queue x = 2 :: q ∧
     stop_bus_queue (stop_step x (OpBusDeparture 1)) = q).
Proof.
  intros x.
  assert (Hreach : stop_reachable x).
  { exists Stop_init, [OpBusArrival 1; OpBusArrival 2].
    split; [repeat split|reflexivity]. }
  destruct (C10_at_most_one_admitted x Hreach) as (Hsz & Harr & Hadm).
  split; [exact Hsz|]. split.
  - apply (Harr 3). vm_compute. discriminate.
  - apply (Hadm (OpBusDeparture 1) 2).
    + vm_compute. discriminate.
    + vm_compute. discriminate.
    + vm_compute. reflexivity.
Defined.

(** ** Bus capacity ([Bus.add_passenger], [Bus.remove_passenger]) *)

Lemma Bus_add_passenger_within b p w b' :
  within_capacity (buses w b') →
  within_capacity (buses (snd (Bus_add_passenger b p w)) b').
Proof.
  unfold Bus_add_passenger, Bus_can_accept_passengers, within_capacity.
  intros H. case_bool_decide as Hroom; cbn [snd]; [|done].
  change (buses (upd_passenger ?p ?f ?w)) with (buses w).
  rewrite buses_upd_bus. case_decide as E; [subst b'|done].
  cbn [set_bus_passenger_list bus_passenger_list bus_capacity].
  rewrite length_app. cbn [length]. lia.
Qed.

Lemma Bus_remove_passenger_within b p w b' :
  within_capacity (buses w b') →
  within_capacity (buses (snd (Bus_remove_passenger b p w)) b').
Proof.
  unfold Bus_remove_passenger, within_capacity.
  intros H. destruct (py_in _ _); cbn [snd]; [|done].
  change (buses (upd_passenger ?p ?f ?w)) with (buses w).
  rewrite buses_upd_bus. case_decide as E; [subst b'|done].
  cbn [set_bus_passenger_list bus_passenger_list bus_capacity].
  pose proof (py_remove_length p (bus_passenger_list (buses w b))). lia.
Qed.

Lemma within_capacity_run w0 ops b :
  Forall bus_list_op ops →
  within_capacity (buses w0 b) → within_capacity (buses (run ops w0) b).
Proof.
  intros Hops Hinit. induction ops as [|o ops IH] using rev_ind; [done|].
  apply Forall_app in Hops as [Hops Ho%Forall_inv].
  specialize (IH Hops).
  rewrite run_snoc. destruct o; try done; cbn [step].
  - by apply Bus_add_passenger_within.
  - by apply Bus_remove_passenger_within.
Qed.

(** C3.  Starting from an empty bus, at every instant [k] of every
    sequence of [add_passenger] and [remove_passenger] calls (on any bus,
    with any passenger) the bus holds at most [capacity] passengers; and on
    a full bus [add_passenger] returns [False] and changes nothing. *)
Theorem C3_capacity (w0 : World) (ops : list Op) (b k : nat) :
  Forall bus_list_op ops →
  bus_passenger_list (buses w0 b) = [] →
  let w := run (take k ops) w0 in
  length (bus_passenger_list (buses w b)) ≤ bus_capacity (buses w b) ∧
  (∀ p, Bus_is_full (buses w b) = true → Bus_add_passenger b p w = (false, w)).
Proof.
  intros Hops Hempty w. split.
  - apply within_capacity_run; [by apply Forall_take|].
    unfold within_capacity. rewrite Hempty. cbn [length]. lia.
  - intros p Hfull. unfold Bus_add_passenger, Bus_can_accept_passengers.
    unfold Bus_is_full in Hfull. apply bool_decide_eq_true_1 in Hfull.
    rewrite bool_decide_eq_false_2 by lia. done.
Qed.

Lemma C3_capacity_witness :
  let w :=
    run [OpBusAddPassenger 0 1; OpBusAddPassenger 0 2; OpBusAddPassenger 0 3;
         OpBusRemovePassenger 0 1; OpBusAddPassenger 0 4]
        scenario_A in
  length (bus_passenger_list (buses w 0)) ≤ bus_capacity (buses w 0) ∧
  Bus_add_passenger 0 5 w = (false, w).
Proof.
  intros w.
  destruct (C3_capacity scenario_A
              [OpBusAddPassenger 0 1; OpBusAddPassenger 0 2;
               OpBusAddPassenger 0 3; OpBusRemovePassenger 0 1;
               OpBusAddPassenger 0 4] 0 5) as [Hcap Hfull].
  - repeat constructor.
  - reflexivity.
  - split; [exact Hcap|]. apply Hfull. vm_compute. reflexivity.
Defined.

(** ** Passenger location ([Passenger.board_bus], [Bus.add_passenger],
       [Stop.remove_passenger], [Passenger.alight_bus]) *)

Lemma Passenger_board_bus_location p bus w q :
  location_inv (passengers w q) →
  location_inv (passengers (snd (Passenger_board_bus p bus w)) q).
Proof.
  intros [Hstop Hbus]. unfold Passenger_board_bus.
  destruct (negb (bool_decide _)); [by split|].
  destruct (negb (Bus_can_accept_passengers _ _)); [by split|].
  self_simpl.
  destruct (p_current_stop (passengers w p)) as [c|] eqn:Hc;
    (read_passenger q p; [|by split]).
  - split; by eauto.
  - rewrite Hc in Hstop. by destruct Hstop.
Qed.

Lemma Bus_add_passenger_location b p w q :
  location_inv (passengers w q) →
  location_inv (passengers (snd (Bus_add_passenger b p w)) q).
Proof.
  intros [Hstop Hbus]. unfold Bus_add_passenger.
  destruct (Bus_can_accept_passengers _ _); [|by split].
  read_passenger q p; [|by split].
  split; [done | by eauto].
Qed.

Lemma Stop_remove_passenger_passengers s p w :
  passengers (snd (Stop_remove_passenger s p w)) = passengers w.
Proof. unfold Stop_remove_passenger. by destruct (py_in _ _). Qed.

Lemma Passenger_alight_bus_location p stop w q :
  location_inv (passengers w q) →
  location_inv (passengers (snd (Passenger_alight_bus p stop w)) q).
Proof.
  intros [Hstop Hbus]. rewrite Passenger_alight_bus_world.
  destruct (negb (bool_decide _)); [by split|].
  read_passenger q p; [|by split]. split; by eauto.
Qed.

Lemma location_inv_fresh x : passenger_fresh x → location_inv x.
Proof. intros (Hstop & Hbus & Hst). split; [done|]. by rewrite Hst. Qed.

Lemma location_inv_step o w q :
  boarding_alighting_op o →
  location_inv (passengers w q) → location_inv (passengers (step w o) q).
Proof.
  destruct o; try done; intros _ H; cbn [step].
  - by apply Passenger_board_bus_location.
  - by apply Passenger_alight_bus_location.
  - by apply Bus_add_passenger_location.
  - by rewrite Stop_remove_passenger_passengers.
Qed.

(** C2, as amended.  For a passenger constructed at a stop, in every state
    reached by [board_bus], [Bus.add_passenger], [Stop.remove_passenger]
    and [alight_bus], [current_stop] is set (boarding never clears it), and
    [current_bus] is set as well whenever the status is IN_BUS. *)
Theorem C2_location_inv (w0 : World) (ops : list Op) (p : nat) :
  passenger_fresh (passengers w0 p) →
  Forall boarding_alighting_op ops →
  location_inv (passengers (run ops w0) p).
Proof.
  intros Hfresh%location_inv_fresh Hops.
  induction ops as [|o ops IH] using rev_ind; [done|].
  apply Forall_app in Hops as [Hops Ho%Forall_inv].
  rewrite run_snoc. apply location_inv_step; auto.
Qed.

Lemma C2_location_inv_witness :
  location_inv (passengers (run [OpBoardBus 0 0; OpAlightBus 0 1] scenario_A) 0).
Proof.
  apply C2_location_inv.
  - split; [by eexists | by split].
  - repeat constructor.
Defined.

(** C2, as stated, fails: once passenger 0 of scenario A has boarded bus 0,
    its status is IN_BUS and both [current_stop] and [current_bus] are
    set. *)
Lemma C2_counterexample :
  ¬ exclusive_location_after scenario_A [OpBoardBus 0 0] 0.
Proof.
  intros H.
  destruct H as [[_ Hbus]|[Hstop _]].
  - split; [by eexists | by split].
  - repeat constructor.
  - vm_compute. discriminate.
  - vm_compute in Hbus. discriminate.
  - vm_compute in Hstop. discriminate.
Qed.

(** ** Passenger status ([Passenger.board_bus], [Passenger.alight_bus],
       the adapters) *)

Lemma status_writes_app p evs1 evs2 :
  status_writes p (evs1 ++ evs2) = status_writes p evs1 ++ status_writes p evs2.
Proof.
  induction evs1 as [|e evs1 IH]; [done|].
  destruct e; cbn [app status_writes]; try done.
  case_decide; by rewrite IH.
Qed.

Lemma quiet_refl w : quiet w w.
Proof. split; [done|]. exists []. by rewrite app_nil_r. Qed.

Lemma quiet_trans w1 w2 w3 : quiet w1 w2 → quiet w2 w3 → quiet w1 w3.
Proof.
  intros [Hs1 (evs1 & Hl1 & Hw1)] [Hs2 (evs2 & Hl2 & Hw2)]. split.
  - intros p. by rewrite Hs2, Hs1.
  - exists (evs1 ++ evs2). split.
    + by rewrite Hl2, Hl1, app_assoc.
    + intros p. by rewrite status_writes_app, Hw1, Hw2.
Qed.

Lemma quiet_same w w' :
  passengers w' = passengers w → log w' = log w → quiet w w'.
Proof.
  intros Hp Hl. split; [by rewrite Hp|]. exists []. by rewrite app_nil_r.
Qed.

Lemma quiet_upd_stop s f w : quiet w (upd_stop s f w).
Proof. by apply quiet_same. Qed.

Lemma quiet_upd_bus b f w : quiet w (upd_bus b f w).
Proof. by apply quiet_same. Qed.

Lemma quiet_upd_passenger p f w :
  (∀ x, p_status (f x) = p_status x) → quiet w (upd_passenger p f w).
Proof.
  intros Hf. split.
  - intros q. rewrite passengers_upd_passenger. by case_decide; subst.
  - exists []. by rewrite app_nil_r.
Qed.

Lemma quiet_emit e w :
  (∀ p s, e ≠ EvStatus p s) → quiet w (emit e w).
Proof.
  intros He. split; [done|]. exists [e]. split; [done|].
  intros p. destruct e; try done. by destruct (He p0 s).
Qed.

Lemma quiet_Bus_add_passenger b p w : quiet w (snd (Bus_add_passenger b p w)).
Proof.
  unfold Bus_add_passenger. destruct (Bus_can_accept_passengers _ _);
    [|apply quiet_refl].
  eapply quiet_trans; [apply quiet_upd_bus | by apply quiet_upd_passenger].
Qed.

Lemma quiet_Bus_remove_passenger b p w :
  quiet w (snd (Bus_remove_passenger b p w)).
Proof.
  unfold Bus_remove_passenger. destruct (py_in _ _); [|apply quiet_refl].
  eapply quiet_trans; [apply quiet_upd_bus | by apply quiet_upd_passenger].
Qed.

Lemma quiet_Stop_add_passenger s p w :
  quiet w (snd (Stop_add_passenger s p w)).
Proof.
  unfold Stop_add_passenger. destruct (Stop_can_accept_passengers _ _);
    [|apply quiet_refl].
  eapply quiet_trans; [apply quiet_upd_stop | by apply quiet_upd_passenger].
Qed.

Lemma quiet_Stop_remove_passenger s p w :
  quiet w (snd (Stop_remove_passenger s p w)).
Proof.
  unfold Stop_remove_passenger.
  destruct (py_in _ _); [apply quiet_upd_stop | apply quiet_refl].
Qed.

Lemma quiet_call_bus_arrival s bus w : quiet w (snd (call_bus_arrival s bus w)).
Proof.
  unfold call_bus_arrival. destruct (Stop_bus_arrival _ _) as [r x].
  eapply quiet_trans; [|apply quiet_upd_stop]. by apply quiet_emit.
Qed.

Lemma quiet_call_bus_departure s bus w :
  quiet w (snd (call_bus_departure s bus w)).
Proof.
  unfold call_bus_departure. destruct (Stop_bus_departure _ _) as [r x].
  eapply quiet_trans; [|apply quiet_upd_stop]. by apply quiet_emit.
Qed.

Lemma quiet_assign_current_stop b stop w :
  quiet w (assign_current_stop b stop w).
Proof.
  unfold assign_current_stop.
  eapply quiet_trans; [apply quiet_upd_bus | by apply quiet_emit].
Qed.

Lemma quiet_handle_alighting b w : quiet w (BusThread_handle_alighting b w).
Proof.
  unfold BusThread_handle_alighting.
  generalize (filter (λ p, BusThread_should_passenger_alight b p w = true)
                     (bus_passenger_list (buses w b))).
  intros l. revert w. induction l as [|p l IH]; intros w; cbn [foldl].
  - apply quiet_refl.
  - eapply quiet_trans; [apply quiet_Bus_remove_passenger | apply IH].
Qed.

Lemma quiet_boarding_loop b c ps w : quiet w (snd (boarding_loop b c ps w)).
Proof.
  revert w. induction ps as [|p ps IH]; intros w; cbn [boarding_loop].
  - apply quiet_refl.
  - destruct (Bus_can_accept_passengers _ _); [|apply IH].
    destruct (BusThread_can_accept_passenger b p w) as [[|]|];
      [|apply IH|apply quiet_refl].
    pose proof (quiet_Bus_add_passenger b p w) as Hadd.
    destruct (Bus_add_passenger b p w) as [added w1]. cbn [snd] in Hadd.
    eapply quiet_trans; [|apply IH].
    destruct added; [|done].
    eapply quiet_trans; [exact Hadd | apply quiet_Stop_remove_passenger].
Qed.

Lemma quiet_handle_passenger_exchange b w :
  quiet w (snd (BusThread_handle_passenger_exchange b w)).
Proof.
  unfold BusThread_handle_passenger_exchange, BusThread_handle_boarding.
  destruct (bus_current_stop (buses w b)); [|apply quiet_refl].
  eapply quiet_trans; [apply quiet_handle_alighting|].
  destruct (Bus_is_full _); [apply quiet_refl|].
  destruct (bus_current_stop _); [apply quiet_boarding_loop|apply quiet_refl].
Qed.

Lemma quiet_move_to_next_stop b w :
  quiet w (snd (BusThread_move_to_next_stop b w)).
Proof.
  unfold BusThread_move_to_next_stop.
  destruct (bus_current_route _) as [r|]; [|apply quiet_refl].
  destruct (bus_current_stop _) as [c|]; [|apply quiet_refl].
  destruct (route_stop_list _) as [|first rest] eqn:Hroute; [apply quiet_refl|].
  destruct (py_index _ _) as [i|]; cbn [snd];
    [|apply quiet_assign_current_stop].
  eapply quiet_trans; [apply quiet_call_bus_departure|].
  eapply quiet_trans; [apply quiet_assign_current_stop|].
  apply quiet_call_bus_arrival.
Qed.

Lemma quiet_cycle b w : quiet w (BusThread_cycle b w).
Proof.
  unfold BusThread_cycle.
  destruct (bus_current_route _); [|apply quiet_refl].
  destruct (bus_current_stop _); [|apply quiet_refl].
  pose proof (quiet_handle_passenger_exchange b w) as Hex.
  destruct (BusThread_handle_passenger_exchange b w) as [[|] w1];
    cbn [snd] in Hex; [|done].
  eapply quiet_trans; [exact Hex | apply quiet_move_to_next_stop].
Qed.

(** The handler looks the passenger up in a seed it has just constructed,
    whose [passengers] dictionary is empty: it returns before it touches
    any entity. *)
Lemma alighting_confirmation_noop stop m w :
  MessageStopAdapter_handle_passenger_alighting_confirmation stop m w = w.
Proof.
  unfold MessageStopAdapter_handle_passenger_alighting_confirmation.
  destruct (_ || _); [done|].
  destruct (negb _); [done|].
  destruct (data m !! "passenger_id") as [[n|s]|]; cbn [mbind option_bind];
    [|done|done].
  unfold STSSeed_passengers. by rewrite lookup_empty.
Qed.

Lemma quiet_transition_spec w w' p : quiet w w' → transition_spec w w' p.
Proof.
  intros [Hs (evs & Hl & Hw)]. exists evs.
  rewrite Hw. cbn [List.last]. repeat split; [done | done | by left].
Qed.

Lemma Passenger_board_bus_spec p bus w q :
  transition_spec w (snd (Passenger_board_bus p bus w)) q.
Proof.
  unfold Passenger_board_bus.
  case_bool_decide as Hst; cbn [negb];
    [|apply quiet_transition_spec, quiet_refl].
  destruct (negb _); [apply quiet_transition_spec, quiet_refl|].
  exists [EvStatus p STATUS_BOARDING; EvStatus p STATUS_IN_BUS].
  split; [|split].
  - self_simpl. destruct (p_current_stop (passengers w p)); self_simpl;
      by rewrite <-app_assoc.
  - self_simpl.
    destruct (p_current_stop (passengers w p));
      read_passenger q p; cbn [status_writes]; rewrite ?decide_True by done;
      rewrite ?decide_False by done; done.
  - cbn [status_writes]. destruct (decide (p = q)) as [->|]; [|by left].
    right; left. done.
Qed.

Lemma Passenger_alight_bus_spec p stop w q :
  transition_spec w (snd (Passenger_alight_bus p stop w)) q.
Proof.
  rewrite Passenger_alight_bus_world.
  case_bool_decide as Hst; cbn [negb];
    [|apply quiet_transition_spec, quiet_refl].
  exists [EvStatus p STATUS_ALIGHTING; EvStatus p STATUS_WAITING].
  split; [|split].
  - self_simpl. by rewrite <-!app_assoc.
  - read_passenger q p; cbn [status_writes]; rewrite ?decide_True by done;
      rewrite ?decide_False by done; done.
  - cbn [status_writes]. destruct (decide (p = q)) as [->|]; [|by left].
    right; right. done.
Qed.

Lemma step_transition_spec w o p : transition_spec w (step w o) p.
Proof.
  destruct o; cbn [step].
  - apply Passenger_board_bus_spec.
  - apply Passenger_alight_bus_spec.
  - apply quiet_transition_spec, quiet_Bus_add_passenger.
  - apply quiet_transition_spec, quiet_Bus_remove_passenger.
  - apply quiet_transition_spec, quiet_Stop_add_passenger.
  - apply quiet_transition_spec, quiet_Stop_remove_passenger.
  - apply quiet_transition_spec, quiet_cycle.
  - rewrite alighting_confirmation_noop. apply quiet_transition_spec, quiet_refl.
Qed.

(** C9.  Every operation of the system either leaves a passenger's status
    alone or assigns, from WAITING, BOARDING then IN_BUS ([board_bus]), or,
    from IN_BUS, ALIGHTING then WAITING ([alight_bus]); the adapters'
    handlers assign nothing.  So every status change follows the chain
    WAITING→BOARDING→IN_BUS→ALIGHTING→{WAITING|ARRIVED}, and ARRIVED is
    terminal.  No operation assigns ARRIVED: the test [alight_bus] makes
    for the destination is never true. *)
Theorem C9_status_transitions (w : World) (o : Op) (p : nat) :
  let s := p_status (passengers w p) in
  let ws := status_writes p (new_events w o) in
  log (step w o) = log w ++ new_events w o ∧
  p_status (passengers (step w o) p) = List.last ws s ∧
  status_shape s ws ∧
  status_follows_chain w o p = true ∧
  (STATUS_ARRIVED ∉ ws) ∧
  (s = STATUS_ARRIVED →
   ws = [] ∧ p_status (passengers (step w o) p) = STATUS_ARRIVED).
Proof.
  intros s ws. destruct (step_transition_spec w o p) as (evs & Hl & Hs & Hsh).
  assert (Hnew : new_events w o = evs).
  { unfold new_events. rewrite Hl. by rewrite drop_app_length. }
  unfold status_follows_chain. subst s ws. rewrite Hnew.
  split; [done|]. split; [done|]. split; [done|]. split; [|split].
  - destruct Hsh as [->|[[-> ->]|[-> ->]]]; done.
  - destruct Hsh as [->|[[_ ->]|[_ ->]]]; set_solver.
  - intros Harr. rewrite Harr in *.
    destruct Hsh as [Hw|[[? ?]|[? ?]]]; try done.
    rewrite Hw in *. done.
Qed.

(** The chain on the code: passenger 0 of scenario A boards bus 0, the bus
    moves to B, and [alight_bus] at B, the passenger's destination, assigns
    ALIGHTING and then WAITING. *)
Lemma C9_status_transitions_witness :
  let w := run [OpBoardBus 0 0; OpBusCycle 0] scenario_A in
  status_follows_chain w (OpAlightBus 0 1) 0 = true ∧
  p_status (passengers (step w (OpAlightBus 0 1)) 0) = STATUS_WAITING.
Proof.
  intros w.
  destruct (C9_status_transitions w (OpAlightBus 0 1) 0)
    as (_ & Hlast & _ & Hchain & _).
  split; [exact Hchain|]. rewrite Hlast. reflexivity.
Defined.

(** ** Bus agent ([BusThread._handle_passenger_exchange],
       [BusThread._move_to_next_stop]) *)

(** C1.  Scenario A on the code.  The boarding test takes the
    [hasattr(destination, 'stop_list')] branch for the stop B as well and
    iterates over B's empty [stop_list], so the passenger is refused: after
    the exchange at A, after the whole first cycle (bus at B) and after the
    second cycle the passenger is still WAITING in A's waiting list and the
    bus is empty. *)
Theorem C1_scenario_A_never_boards :
  let w_exchange := snd (BusThread_handle_passenger_exchange 0 scenario_A) in
  let w1 := BusThread_cycle 0 scenario_A in
  let w2 := BusThread_cycle 0 w1 in
  BusThread_can_accept_passenger 0 0 scenario_A = Some false ∧
  p_status (passengers w_exchange 0) = STATUS_WAITING ∧
  bus_passenger_list (buses w_exchange 0) = [] ∧
  bus_current_stop (buses w1 0) = Some 1 ∧
  p_status (passengers w1 0) = STATUS_WAITING ∧
  stop_waiting_passengers (stops w1 0) = [0] ∧
  bus_passenger_list (buses w1 0) = [] ∧
  p_status (passengers w2 0) = STATUS_WAITING ∧
  stop_waiting_passengers (stops w2 0) = [0].
Proof. vm_compute. repeat split. Qed.

(** The same scenario with a station destination whose only stop is B: now
    the passenger is taken on board and set down at B, but the bus agent
    goes through [Bus.add_passenger] and [Bus.remove_passenger], which never
    assign [passenger.status]: the status is WAITING throughout and
    [current_stop] remains A. *)
Lemma scenario_station_status_untouched :
  let w1 := BusThread_cycle 0 (scenario (DestStation 0)) in
  let w2 := snd (BusThread_handle_passenger_exchange 0 w1) in
  bus_current_stop (buses w1 0) = Some 1 ∧
  bus_passenger_list (buses w1 0) = [0] ∧
  stop_waiting_passengers (stops w1 0) = [] ∧
  p_status (passengers w1 0) = STATUS_WAITING ∧
  bus_passenger_list (buses w2 0) = [] ∧
  p_status (passengers w2 0) = STATUS_WAITING ∧
  p_current_stop (passengers w2 0) = Some 0.
Proof. vm_compute. repeat split. Qed.

Lemma py_index_lookup c l i : py_index c l = Some i → l !! i = Some c.
Proof.
  revert i. induction l as [|y l IH]; intros i; cbn [py_index]; [done|].
  case_decide as E.
  - intros [= <-]. by subst.
  - destruct (py_index c l) as [j|]; [|done].
    intros [= <-]. cbn. by apply IH.
Qed.

Lemma call_bus_departure_frame s bus w :
  let w' := snd (call_bus_departure s bus w) in
  log w' = log w ++ [EvBusDeparture s bus] ∧ buses w' = buses w ∧
  routes w' = routes w.
Proof.
  unfold call_bus_departure. by destruct (Stop_bus_departure _ _).
Qed.

Lemma call_bus_arrival_frame s bus w :
  let w' := snd (call_bus_arrival s bus w) in
  log w' = log w ++ [EvBusArrival s bus] ∧ buses w' = buses w ∧
  routes w' = routes w.
Proof.
  unfold call_bus_arrival. by destruct (Stop_bus_arrival _ _).
Qed.

(** C6.  When the bus has a route and its current stop occurs in the
    route's stop list at index [i], the advance step succeeds and moves the
    bus to the stop at [i + 1], or to the stop at index 0 when [i] is the
    last index; the old stop's [bus_departure] is called before
    [bus.current_stop] is assigned and the new stop's [bus_arrival]
    after. *)
Theorem C6_advance (w : World) (b r c i : nat) :
  bus_current_route (buses w b) = Some r →
  bus_current_stop (buses w b) = Some c →
  py_index c (route_stop_list (routes w r)) = Some i →
  ∃ next_stop w',
    route_successor (route_stop_list (routes w r)) i = Some next_stop ∧
    BusThread_move_to_next_stop b w = (true, w') ∧
    bus_current_stop (buses w' b) = Some next_stop ∧
    log w' = log w ++ [EvBusDeparture c b; EvCurrentStop b next_stop;
                       EvBusArrival next_stop b].
Proof.
  intros Hr Hc Hi. unfold BusThread_move_to_next_stop, route_successor.
  rewrite Hr, Hc. pose proof (py_index_lookup _ _ _ Hi) as Hlook.
  destruct (route_stop_list (routes w r)) as [|first rest] eqn:Hroute;
    [done|].
  rewrite Hi.
  set (next_stop :=
         if bool_decide (i < length (first :: rest) - 1)
         then default first ((first :: rest) !! (i + 1)) else first).
  exists next_stop. eexists. split; [|split; [reflexivity|]].
  - subst next_stop. cbn [length].
    rewrite Nat.sub_succ, Nat.sub_0_r.
    destruct (decide (i < length rest)) as [Hlt|Hge].
    + rewrite !bool_decide_eq_true_2 by lia.
      destruct ((first :: rest) !! (i + 1)) as [n|] eqn:E; [done|].
      apply lookup_ge_None in E. cbn [length] in E. lia.
    + rewrite !bool_decide_eq_false_2 by lia. done.
  - destruct (call_bus_departure_frame c b w) as (Hl1 & Hb1 & _).
    set (w1 := snd (call_bus_departure c b w)) in *.
    destruct (call_bus_arrival_frame next_stop b
                (assign_current_stop b next_stop w1)) as (Hl2 & Hb2 & _).
    cbn [snd]. split.
    + rewrite Hb2. unfold assign_current_stop. world_simpl.
      by rewrite fn_lookup_insert.
    + rewrite Hl2. unfold assign_current_stop. world_simpl.
      rewrite Hl1. by rewrite <-!app_assoc.
Qed.

Lemma C6_advance_witness :
  ∃ next_stop w',
    route_successor [0; 1] 1 = Some next_stop ∧
    BusThread_move_to_next_stop 0 (BusThread_cycle 0 scenario_A) = (true, w') ∧
    bus_current_stop (buses w' 0) = Some next_stop ∧
    log w' = log (BusThread_cycle 0 scenario_A)
             ++ [EvBusDeparture 1 0; EvCurrentStop 0 next_stop;
                 EvBusArrival next_stop 0].
Proof.
  apply (C6_advance (BusThread_cycle 0 scenario_A) 0 0 1 1); reflexivity.
Defined.

(** *** Boarding *)

Lemma boarding_frame_refl b w : boarding_frame b w w.
Proof. by split. Qed.

Lemma boarding_frame_step b c p w0 w :
  boarding_frame b w0 w →
  boarding_frame b w0
    (snd (Stop_remove_passenger c p (snd (Bus_add_passenger b p w)))) ∧
  boarding_frame b w0 (snd (Bus_add_passenger b p w)).
Proof.
  intros [H1 H2 H3 H4 H5 H6].
  assert (Hadd : boarding_frame b w0 (snd (Bus_add_passenger b p w))).
  { unfold Bus_add_passenger.
    destruct (Bus_can_accept_passengers _ _); cbn [snd]; [|by split].
    split; world_simpl; try done.
    - by rewrite fn_lookup_insert.
    - by rewrite fn_lookup_insert.
    - by rewrite fn_lookup_insert.
    - intros q. rewrite <-H6.
      destruct (decide (p = q)) as [->|?];
        [by rewrite fn_lookup_insert | by rewrite fn_lookup_insert_ne]. }
  split; [|done].
  destruct Hadd as [G1 G2 G3 G4 G5 G6].
  unfold Stop_remove_passenger. destruct (py_in _ _); cbn [snd]; by split.
Qed.

Lemma can_accept_passenger_frame b p w0 w :
  boarding_frame b w0 w →
  BusThread_can_accept_passenger b p w = BusThread_can_accept_passenger b p w0.
Proof.
  intros [H1 H2 H3 H4 H5 H6]. unfold BusThread_can_accept_passenger.
  rewrite H1, H3, H4, H6. unfold Origin_stop_list. by rewrite H2.
Qed.

Lemma Bus_add_passenger_list b p w :
  Bus_can_accept_passengers (buses w b) 1 = true →
  ∃ w1, Bus_add_passenger b p w = (true, w1) ∧
        bus_passenger_list (buses w1 b) = bus_passenger_list (buses w b) ++ [p].
Proof.
  intros Hroom. unfold Bus_add_passenger. rewrite Hroom.
  eexists. split; [reflexivity|]. world_simpl. by rewrite fn_lookup_insert.
Qed.

Lemma Stop_remove_passenger_buses c p w :
  buses (snd (Stop_remove_passenger c p w)) = buses w.
Proof. unfold Stop_remove_passenger. by destruct (py_in _ _). Qed.

Lemma boarding_loop_spec b c ps w0 w :
  boarding_frame b w0 w →
  ∃ boarded,
    bus_passenger_list (buses (snd (boarding_loop b c ps w)) b)
    = bus_passenger_list (buses w b) ++ boarded ∧
    boarded `sublist_of` ps ∧
    length boarded
    ≤ bus_capacity (buses w0 b) - length (bus_passenger_list (buses w b)) ∧
    ∀ p, p ∈ boarded → BusThread_can_accept_passenger b p w0 = Some true.
Proof.
  revert w. induction ps as [|p ps IH]; intros w Hframe; cbn [boarding_loop].
  { exists []. rewrite app_nil_r. repeat split; [done | cbn; lia |].
    intros p Hp. by apply elem_of_nil in Hp. }
  destruct (Bus_can_accept_passengers (buses w b) 1) eqn:Hroom.
  2:{ destruct (IH w Hframe) as (boarded & ? & ? & ? & ?).
      exists boarded. repeat split; [done | by apply sublist_cons | done | done]. }
  rewrite (can_accept_passenger_frame b p w0 w Hframe).
  destruct (BusThread_can_accept_passenger b p w0) as [[|]|] eqn:Hacc.
  - destruct (Bus_add_passenger_list b p w Hroom) as (w1 & Hadd & Hlist).
    pose proof (boarding_frame_step b c p w0 w Hframe) as [Hframe2 _].
    rewrite Hadd in *. cbn [snd] in Hframe2.
    destruct (IH _ Hframe2) as (boarded & Hb & Hsub & Hlen & Hall).
    rewrite Stop_remove_passenger_buses, Hlist in Hb, Hlen.
    exists (p :: boarded). repeat split.
    + rewrite Hb. by rewrite <-app_assoc.
    + by apply sublist_skip.
    + unfold Bus_can_accept_passengers in Hroom.
      apply bool_decide_eq_true_1 in Hroom.
      rewrite (frame_capacity _ _ _ Hframe) in Hroom.
      rewrite length_app in Hlen. cbn [length] in *. lia.
    + intros q [->|Hq]%elem_of_cons; [done | by apply Hall].
  - destruct (IH w Hframe) as (boarded & ? & ? & ? & ?).
    exists boarded. repeat split; [done | by apply sublist_cons | done | done].
  - exists []. cbn [snd]. rewrite app_nil_r.
    repeat split; [apply sublist_nil_l | cbn; lia |].
    intros q Hq. by apply elem_of_nil in Hq.
Qed.

Lemma can_accept_passenger_forward b p w :
  BusThread_can_accept_passenger b p w = Some true →
  ∃ fwd s,
    forward_stops b w = Some fwd ∧
    s ∈ destination_stops (p_destination (passengers w p)) w ∧ s ∈ fwd.
Proof.
  unfold BusThread_can_accept_passenger, forward_stops.
  destruct (bus_current_route (buses w b)) as [r|]; [|done].
  destruct (bus_current_stop (buses w b)) as [c|]; [|done].
  cbn [mbind option_bind].
  destruct (py_index c (route_stop_list (routes w r))) as [i|]; [|done].
  cbn [mbind option_bind].
  destruct (p_destination (passengers w p)) as [s|st|];
    cbn [Origin_stop_list destination_stops dest_in existsb]; [done| |done].
  intros [= Hex]. apply existsb_exists in Hex as (s & Hs & Hin).
  exists (drop i (route_stop_list (routes w r))), s.
  split; [done|]. split.
  - by apply list_elem_of_In.
  - unfold py_in in Hin. by apply bool_decide_eq_true_1 in Hin.
Qed.

Lemma filter_none {A} (P : A → Prop) `{∀ x, Decision (P x)} (l : list A) :
  (∀ x, ¬ P x) → filter P l = [].
Proof.
  intros Hno. induction l as [|x l IH]; [done|].
  by rewrite filter_cons, decide_False.
Qed.

Lemma boarding_loop_exact b c ps w0 w :
  boarding_frame b w0 w →
  (∀ p, BusThread_can_accept_passenger b p w0 ≠ None) →
  bus_passenger_list (buses (snd (boarding_loop b c ps w)) b)
  = bus_passenger_list (buses w b)
    ++ take (bus_capacity (buses w0 b) - length (bus_passenger_list (buses w b)))
            (filter (λ p, BusThread_can_accept_passenger b p w0 = Some true) ps).
Proof.
  intros Hframe Hok. revert w Hframe.
  induction ps as [|p ps IH]; intros w Hframe; cbn [boarding_loop].
  { by rewrite filter_nil, take_nil, app_nil_r. }
  rewrite filter_cons.
  destruct (Bus_can_accept_passengers (buses w b) 1) eqn:Hroom.
  2:{ rewrite (IH w Hframe). unfold Bus_can_accept_passengers in Hroom.
      apply bool_decide_eq_false_1 in Hroom.
      rewrite (frame_capacity _ _ _ Hframe) in Hroom.
      replace (bus_capacity (buses w0 b) - length (bus_passenger_list (buses w b)))
        with 0 by lia.
      by rewrite !take_0. }
  rewrite (can_accept_passenger_frame b p w0 w Hframe).
  destruct (BusThread_can_accept_passenger b p w0) as [[|]|] eqn:Hacc.
  - rewrite decide_True by done.
    destruct (Bus_add_passenger_list b p w Hroom) as (w1 & Hadd & Hlist).
    pose proof (boarding_frame_step b c p w0 w Hframe) as [Hframe2 _].
    rewrite Hadd in *. cbn [snd] in Hframe2.
    rewrite (IH _ Hframe2), Stop_remove_passenger_buses, Hlist.
    unfold Bus_can_accept_passengers in Hroom.
    apply bool_decide_eq_true_1 in Hroom.
    rewrite (frame_capacity _ _ _ Hframe) in Hroom.
    rewrite length_app. cbn [length].
    replace (bus_capacity (buses w0 b) - length (bus_passenger_list (buses w b)))
      with (S (bus_capacity (buses w0 b)
               - (length (bus_passenger_list (buses w b)) + 1))) by lia.
    cbn [take]. by rewrite <-app_assoc.
  - rewrite decide_False by done. by apply IH.
  - by destruct (Hok p).
Qed.

(** C7.  In a boarding step of the bus agent the waiting passengers are
    considered in the order of the current stop's waiting list, and a seat
    goes to each one the boarding test accepts until the seats run out: the
    passengers appended to the bus are exactly the first accepted
    passengers of the waiting list, in its order, as many as the bus has
    free seats.  So they form a subsequence of the waiting list, they are
    at most as many as the remaining capacity, and each of them has a
    destination stop -- a stop of the destination station -- among the
    remaining forward stops of the bus's current route. *)
Theorem C7_boarding (w : World) (b : nat) :
  let free :=
    bus_capacity (buses w b) - length (bus_passenger_list (buses w b)) in
  let boarded :=
    take free
         (filter (λ p, BusThread_can_accept_passenger b p w = Some true)
                 (waiting_list b w)) in
  bus_passenger_list (buses (snd (BusThread_handle_boarding b w)) b)
  = bus_passenger_list (buses w b) ++ boarded ∧
  boarded `sublist_of` waiting_list b w ∧
  length boarded ≤ free ∧
  ∀ p, p ∈ boarded →
    ∃ fwd s,
      forward_stops b w = Some fwd ∧
      s ∈ destination_stops (p_destination (passengers w p)) w ∧ s ∈ fwd.
Proof.
  intros free boarded.
  assert (Hrest : boarded `sublist_of` waiting_list b w ∧
                  length boarded ≤ free ∧
                  ∀ p, p ∈ boarded →
                    ∃ fwd s,
                      forward_stops b w = Some fwd ∧
                      s ∈ destination_stops (p_destination (passengers w p)) w ∧
                      s ∈ fwd).
  { subst boarded. split; [|split].
    - etrans; [apply sublist_take|apply sublist_filter].
    - rewrite length_take. lia.
    - intros p Hp. apply can_accept_passenger_forward.
      apply elem_of_take in Hp as (i & Hp & _).
      apply list_elem_of_lookup_2, list_elem_of_filter in Hp. by destruct Hp. }
  split; [|exact Hrest]. clear Hrest. subst free boarded.
  unfold BusThread_handle_boarding, waiting_list, Bus_is_full.
  case_bool_decide as Hfull.
  { replace (bus_capacity (buses w b) - length (bus_passenger_list (buses w b)))
      with 0 by lia.
    by rewrite take_0, app_nil_r. }
  destruct (bus_current_stop (buses w b)) as [c|] eqn:Hc;
    [|by rewrite filter_nil, take_nil, app_nil_r].
  assert (Hcases : (∀ p, BusThread_can_accept_passenger b p w ≠ None) ∨
                   (∀ p, BusThread_can_accept_passenger b p w = None)).
  { unfold BusThread_can_accept_passenger. rewrite Hc.
    destruct (bus_current_route (buses w b)) as [r|]; [|by left].
    destruct (py_index c (route_stop_list (routes w r))); [|by right].
    left. intros p. by destruct (Origin_stop_list _ _). }
  destruct Hcases as [Hok|Hnone].
  - apply (boarding_loop_exact b c _ w w (boarding_frame_refl b w) Hok).
  - rewrite (filter_none _ (stop_waiting_passengers (stops w c)));
      [|intros p; by rewrite Hnone].
    rewrite take_nil, app_nil_r.
    destruct (stop_waiting_passengers (stops w c)) as [|p ps]; [done|].
    cbn [boarding_loop]. unfold Bus_can_accept_passengers.
    rewrite bool_decide_eq_true_2 by lia. by rewrite Hnone.
Qed.

(** Arrival order decides: passengers 0 and 5 wait, in this order, at A
    for a bus with a single free seat, and both are accepted; passenger 0
    boards. *)
Lemma C7_boarding_witness :
  let w := upd_bus 0 (set_bus_passenger_list [9])
             (snd (Stop_add_passenger 0 5 (scenario (DestStation 0)))) in
  waiting_list 0 w = [0; 5] ∧
  bus_passenger_list (buses (snd (BusThread_handle_boarding 0 w)) 0) = [9; 0].
Proof.
  intros w. split; [reflexivity|].
  destruct (C7_boarding w 0) as [H _]. rewrite H. reflexivity.
Defined.

(** A passenger whose destination is a stop is never accepted: the test
    iterates over the stop's own, empty, [stop_list] and the [elif] that
    would look the stop up on the route is not reached. *)
Lemma stop_destination_refused (b p s : nat) (w : World) :
  p_destination (passengers w p) = DestStop s →
  BusThread_can_accept_passenger b p w ≠ Some true.
Proof.
  intros Hd. unfold BusThread_can_accept_passenger.
  destruct (bus_current_route _); [|done].
  destruct (bus_current_stop _); [|done].
  destruct (py_index _ _); [|done].
  rewrite Hd. cbn. done.
Qed.

(** ** Message broker ([MessageBroker.publish],
       [MessageBroker._process_messages]) *)

Lemma publish_all_spec ms b :
  let b' := foldl (λ b m', MessageBroker_publish m' b) b ms in
  subscribers b' = subscribers b ∧
  message_queue b' = message_queue b ++ ms ∧
  stop_event b' = stop_event b ∧
  published b' = published b ++ ms ∧
  dequeued b' = dequeued b ∧
  delivered b' = delivered b.
Proof.
  revert b. induction ms as [|m ms IH]; intros b; cbn [foldl].
  - by rewrite !app_nil_r.
  - destruct (IH (MessageBroker_publish m b)) as (-> & -> & -> & -> & -> & ->).
    cbn. by rewrite <-!app_assoc.
Qed.

Lemma deliver_all_spec (on_message : Handlers) m l b :
  let b' := foldl (deliver on_message m) b l in
  ∃ ms,
    subscribers b' = subscribers b ∧
    message_queue b' = message_queue b ++ ms ∧
    stop_event b' = stop_event b ∧
    published b' = published b ++ ms ∧
    dequeued b' = dequeued b ∧
    delivered b' = delivered b ++ ((λ s, (s, m)) <$> l).
Proof.
  revert b. induction l as [|s l IH]; intros b; cbn [foldl].
  - exists []. by rewrite !app_nil_r.
  - destruct (IH (deliver on_message m b s))
      as (ms & -> & -> & -> & -> & -> & ->).
    unfold deliver.
    destruct (publish_all_spec (on_message s m)
                (mkBroker (subscribers b) (message_queue b) (stop_event b)
                          (published b) (dequeued b)
                          (delivered b ++ [(s, m)])))
      as (-> & -> & -> & -> & -> & ->).
    exists (on_message s m ++ ms). cbn. by rewrite <-!app_assoc.
Qed.

Lemma inbox_app s b l :
  (filter (λ d : nat * Message, d.1 = s) (delivered b ++ l)).*2
  = inbox s b ++ (filter (λ d : nat * Message, d.1 = s) l).*2.
Proof. unfold inbox. by rewrite filter_app, fmap_app. Qed.

Lemma fanout_absent s m l :
  s ∉ l →
  filter (λ d : nat * Message, d.1 = s) ((λ s', (s', m)) <$> l) = [].
Proof.
  induction l as [|s' l IH]; [done|].
  intros [Hne Hnotin]%not_elem_of_cons.
  cbn [fmap list_fmap]. rewrite filter_cons. cbn [fst].
  rewrite decide_False by done. by apply IH.
Qed.

Lemma fanout_once s m l :
  NoDup l →
  (filter (λ d : nat * Message, d.1 = s) ((λ s', (s', m)) <$> l)).*2
  `sublist_of` [m].
Proof.
  induction 1 as [|s' l Hnotin Hnd IH]; [apply sublist_nil_l|].
  cbn [fmap list_fmap]. rewrite filter_cons. cbn [fst].
  case_decide as E; [|done].
  subst s'. pose proof (fanout_absent s m l Hnotin) as Hnone.
  cbn [fmap list_fmap] in Hnone |- *. rewrite Hnone. done.
Qed.

Lemma visit_NoDup (iteration : SetIteration) (X : gset nat) :
  NoDup (visit iteration X).
Proof. rewrite visit_members. apply NoDup_elements. Qed.

Lemma visit_elem_of (iteration : SetIteration) (X : gset nat) (s : nat) :
  s ∈ visit iteration X ↔ s ∈ X.
Proof. by rewrite visit_members, elem_of_elements. Qed.

Lemma broker_inv_init : broker_inv MessageBroker_init.
Proof. split; [done | done | intros s; apply sublist_nil_l]. Qed.

Lemma broker_inv_step b o : broker_inv b → broker_inv (broker_step b o).
Proof.
  intros Hinv. pose proof Hinv as [Hq Hpre Hin].
  destruct o as [s ts|s ts|m|iteration on_message|]; cbn [broker_step].
  - by split.
  - by split.
  - split; cbn.
    + intros Hrun. by rewrite Hq, app_assoc.
    + by apply prefix_app_r.
    + done.
  - unfold MessageBroker_process_messages.
    destruct (stop_event b) eqn:Hrun; [exact Hinv|].
    destruct (message_queue b) as [|m q] eqn:Hqueue; [exact Hinv|].
    destruct (deliver_all_spec on_message m
                (visit iteration (subscribers b (msg_type m)))
                (mkBroker (subscribers b) q false (published b)
                          (dequeued b ++ [m]) (delivered b)))
      as (ms & Hsub & Hmq & Hst & Hpub & Hdq & Hdel).
    cbn [subscribers message_queue stop_event published dequeued delivered]
      in *.
    split.
    + intros _. rewrite Hpub, Hmq, Hdq, Hq by done. by rewrite <-!app_assoc.
    + rewrite Hpub, Hdq, Hq by done.
      apply prefix_app_r, prefix_app, prefix_cons, prefix_nil.
    + intros s. unfold inbox. rewrite Hdel, Hdq, inbox_app.
      apply sublist_app; [apply Hin|]. apply fanout_once, visit_NoDup.
  - split; cbn; [done | done | done].
Qed.

Lemma broker_inv_run h : broker_inv (broker_run h).
Proof.
  unfold broker_run. induction h as [|o h IH] using rev_ind.
  - apply broker_inv_init.
  - rewrite foldl_app. by apply broker_inv_step.
Qed.

Lemma sublist_order {A} (l1 l2 : list A) :
  l1 `sublist_of` l2 →
  ∀ i j x y, i < j → l1 !! i = Some x → l1 !! j = Some y →
  ∃ i' j', i' < j' ∧ l2 !! i' = Some x ∧ l2 !! j' = Some y.
Proof.
  induction 1 as [|z l1 l2 Hsub IH|z l1 l2 Hsub IH]; intros i j x y Hlt Hi Hj.
  - done.
  - destruct j as [|j]; [lia|]. cbn in Hj. destruct i as [|i].
    + cbn in Hi. injection Hi as ->.
      assert (Hy : y ∈ l2).
      { eapply elem_of_sublist; [|exact Hsub].
        apply list_elem_of_lookup. eauto. }
      apply list_elem_of_lookup in Hy as [j' Hj'].
      exists 0, (S j'). split; [lia | by split].
    + cbn in Hi. destruct (IH i j x y) as (i' & j' & ? & ? & ?);
        [lia | done | done |].
      exists (S i'), (S j'). split; [lia | by split].
  - destruct (IH i j x y Hlt Hi Hj) as (i' & j' & ? & ? & ?).
    exists (S i'), (S j'). split; [lia | by split].
Qed.

(** C5.  After any history of broker calls: the messages the consumer loop
    has taken are a prefix of the messages published, in publish order,
    whoever published them (and while the broker runs, what is left of the
    publish sequence is exactly the queue); the messages a subscriber has
    observed are a subsequence of the publish sequence; and when all
    published messages are distinct and [m1] was published before [m2], a
    subscriber that observes both observes [m1] first. *)
Theorem C5_fifo (h : list BrokerOp) :
  let b := broker_run h in
  dequeued b `prefix_of` published b ∧
  (stop_event b = false → published b = dequeued b ++ message_queue b) ∧
  (∀ s, inbox s b `sublist_of` published b) ∧
  (NoDup (published b) →
   ∀ s m1 m2 i j i' j',
     published b !! i = Some m1 → published b !! j = Some m2 → i < j →
     inbox s b !! i' = Some m1 → inbox s b !! j' = Some m2 → i' < j').
Proof.
  intros b. destruct (broker_inv_run h) as [Hq Hpre Hin].
  fold b in Hq, Hpre, Hin.
  assert (Hsub : ∀ s, inbox s b `sublist_of` published b).
  { intros s. etrans; [apply Hin|]. destruct Hpre as [k ->]. by apply sublist_inserts_r. }
  split; [done|]. split; [done|]. split; [done|].
  intros Hnd s m1 m2 i j i' j' Hi Hj Hlt Hi' Hj'.
  destruct (decide (i' < j')) as [|Hge]; [done|]. exfalso.
  assert (Hne : m1 ≠ m2).
  { intros ->. pose proof (NoDup_lookup _ _ _ _ Hnd Hi Hj). lia. }
  assert (j' < i') as Hlt'.
  { destruct (decide (i' = j')) as [->|]; [congruence | lia]. }
  destruct (sublist_order _ _ (Hsub s) j' i' m2 m1 Hlt' Hj' Hi')
    as (a & c & Hac & Ha & Hc).
  pose proof (NoDup_lookup _ _ _ _ Hnd Ha Hj).
  pose proof (NoDup_lookup _ _ _ _ Hnd Hc Hi). lia.
Qed.

(** Scenario C in small: two publishers alternate, one subscriber. *)
Lemma C5_fifo_witness :
  let h := [Subscribe 7 [BUS_ARRIVAL]; Publish (msg "bus-1" 1);
            Publish (msg "bus-2" 2); Process ascending_iteration silent;
            Publish (msg "bus-1" 3); Process descending_iteration silent;
            Process ascending_iteration silent] in
  let b := broker_run h in
  dequeued b `prefix_of` published b ∧
  published b = dequeued b ++ message_queue b ∧
  inbox 7 b `sublist_of` published b ∧
  0 < 2.
Proof.
  intros h b.
  destruct (C5_fifo h) as (Hpre & Hq & Hsub & Hord). fold b in Hpre, Hq, Hsub, Hord.
  split; [exact Hpre|]. split; [apply Hq; reflexivity|].
  split; [apply Hsub|].
  apply (Hord ltac:(vm_compute; repeat constructor;
                    rewrite ?list_elem_of_In; cbn; intuition discriminate)
              7 (msg "bus-1" 1) (msg "bus-1" 3) 0 2 0 2);
    first [reflexivity | lia].
Defined.

(** [subscribe] and [unsubscribe] on the subscriber sets. *)
Lemma subscribe_fold_spec (s : nat) (ts : list MessageType)
    (subs : MessageType → gset nat) (t : MessageType) :
  foldl (λ subs t, <[t := {[s]} ∪ subs t]> subs) subs ts t
  = if bool_decide (t ∈ ts) then {[s]} ∪ subs t else subs t.
Proof.
  revert subs. induction ts as [|t' ts IH]; intros subs; cbn [foldl].
  - by rewrite bool_decide_eq_false_2 by apply not_elem_of_nil.
  - rewrite IH. destruct (decide (t' = t)) as [->|Hne].
    + rewrite fn_lookup_insert.
      rewrite (bool_decide_eq_true_2 (t ∈ t :: ts)) by apply list_elem_of_here.
      case_bool_decide; set_solver.
    + rewrite fn_lookup_insert_ne by done.
      case_bool_decide as E1; case_bool_decide as E2; try done.
      * destruct E2. by apply list_elem_of_further.
      * apply elem_of_cons in E2 as [->|?]; done.
Qed.

Lemma unsubscribe_fold_spec (s : nat) (ts : list MessageType)
    (subs : MessageType → gset nat) (t : MessageType) :
  foldl (λ subs t, <[t := subs t ∖ {[s]}]> subs) subs ts t
  = if bool_decide (t ∈ ts) then subs t ∖ {[s]} else subs t.
Proof.
  revert subs. induction ts as [|t' ts IH]; intros subs; cbn [foldl].
  - by rewrite bool_decide_eq_false_2 by apply not_elem_of_nil.
  - rewrite IH. destruct (decide (t' = t)) as [->|Hne].
    + rewrite fn_lookup_insert.
      rewrite (bool_decide_eq_true_2 (t ∈ t :: ts)) by apply list_elem_of_here.
      case_bool_decide; set_solver.
    + rewrite fn_lookup_insert_ne by done.
      case_bool_decide as E1; case_bool_decide as E2; try done.
      * destruct E2. by apply list_elem_of_further.
      * apply elem_of_cons in E2 as [->|?]; done.
Qed.

Lemma process_subscribers iteration on_message b :
  subscribers (MessageBroker_process_messages iteration on_message b)
  = subscribers b.
Proof.
  unfold MessageBroker_process_messages.
  destruct (stop_event b); [done|].
  destruct (message_queue b) as [|m q]; [done|].
  by destruct (deliver_all_spec on_message m
                 (visit iteration (subscribers b (msg_type m)))
                 (mkBroker (subscribers b) q false (published b)
                           (dequeued b ++ [m]) (delivered b)))
    as (ms & -> & _).
Qed.

(** The subscription order lists the current subscribers, once each. *)
Lemma subscription_order_spec (t : MessageType) (h : list BrokerOp) :
  NoDup (subscription_order t h) ∧
  ∀ s, s ∈ subscription_order t h ↔ s ∈ subscribers (broker_run h) t.
Proof.
  unfold subscription_order, broker_run.
  induction h as [|o h [IHnd IHin]] using rev_ind.
  { split; [apply NoDup_nil_2|]. intros s. cbn. set_solver. }
  rewrite !foldl_snoc.
  destruct o as [s' ts|s' ts|m|iteration on_message|]; cbn [broker_step].
  - cbn [MessageBroker_subscribe subscribers]. rewrite subscribe_fold_spec.
    unfold py_in. destruct (decide (t ∈ ts)) as [Ht|Ht].
    + rewrite !(bool_decide_eq_true_2 (t ∈ ts)) by done. cbn [andb].
      case_bool_decide as Hs'; cbn [negb].
      * split; [done|]. intros s. rewrite IHin. set_solver.
      * split.
        -- apply NoDup_app. split; [done|]. split; [|apply NoDup_singleton].
           intros x Hx ->%list_elem_of_singleton. done.
        -- intros s. rewrite elem_of_app, list_elem_of_singleton, IHin.
           set_solver.
    + rewrite !(bool_decide_eq_false_2 (t ∈ ts)) by done. by cbn [andb].
  - cbn [MessageBroker_unsubscribe subscribers].
    rewrite unsubscribe_fold_spec.
    destruct (decide (t ∈ default all_message_types ts)) as [Ht|Ht].
    + rewrite !bool_decide_eq_true_2 by done. split.
      * by apply NoDup_filter.
      * intros s. rewrite list_elem_of_filter, IHin. set_solver.
    + by rewrite !bool_decide_eq_false_2 by done.
  - done.
  - by rewrite process_subscribers.
  - done.
Qed.

(** C4, as amended.  When the consumer loop dequeues a message, it
    delivers it, within that iteration, to every subscriber currently
    registered for the message's kind, exactly once each, in the order in
    which the kind's subscriber set is iterated.  The subscribers reached
    are those of the subscription order; the order in which they are
    reached is an enumeration of the set that the program does not fix. *)
Theorem C4_delivery (iteration : SetIteration) (on_message : Handlers)
    (h : list BrokerOp) (m : Message) (q : list Message) :
  let b := broker_run h in
  stop_event b = false →
  message_queue b = m :: q →
  let b' := MessageBroker_process_messages iteration on_message b in
  let reached := visit iteration (subscribers b (msg_type m)) in
  dequeued b' = dequeued b ++ [m] ∧
  delivered b' = delivered b ++ ((λ s, (s, m)) <$> reached) ∧
  NoDup reached ∧
  (∀ s, s ∈ reached ↔ s ∈ subscribers b (msg_type m)) ∧
  reached ≡ₚ subscription_order (msg_type m) h.
Proof.
  intros b Hrun Hq b' reached. subst b' reached.
  unfold MessageBroker_process_messages. rewrite Hrun, Hq.
  destruct (deliver_all_spec on_message m
              (visit iteration (subscribers b (msg_type m)))
              (mkBroker (subscribers b) q false (published b)
                        (dequeued b ++ [m]) (delivered b)))
    as (ms & _ & _ & _ & _ & -> & ->).
  destruct (subscription_order_spec (msg_type m) h) as [Hnd Hin].
  split; [done|]. split; [done|]. split; [apply visit_NoDup|].
  split; [intros s; apply visit_elem_of|].
  apply NoDup_Permutation; [apply visit_NoDup|done|].
  intros s. by rewrite visit_elem_of, Hin.
Qed.

Lemma C4_delivery_witness :
  let h := [Subscribe 1 [BUS_ARRIVAL]; Subscribe 2 [BUS_ARRIVAL];
            Publish (msg "bus-1" 1)] in
  delivered (MessageBroker_process_messages ascending_iteration silent
               (broker_run h))
  = [(1, msg "bus-1" 1); (2, msg "bus-1" 1)] ∧
  delivered (MessageBroker_process_messages descending_iteration silent
               (broker_run h))
  = [(2, msg "bus-1" 1); (1, msg "bus-1" 1)].
Proof.
  intros h. split.
  - destruct (C4_delivery ascending_iteration silent h (msg "bus-1" 1) [])
      as (_ & Hdel & _); [reflexivity | reflexivity |].
    rewrite Hdel. vm_compute. reflexivity.
  - destruct (C4_delivery descending_iteration silent h (msg "bus-1" 1) [])
      as (_ & Hdel & _); [reflexivity | reflexivity |].
    rewrite Hdel. vm_compute. reflexivity.
Defined.

(** A Python [set] keeps no trace of the order of its [add] calls: the
    same subscribers registered the other way round give the same set. *)
Lemma subscriber_set_forgets_order (s1 s2 : nat) (t : MessageType)
    (b : Broker) :
  subscribers (MessageBroker_subscribe s2 [t] (MessageBroker_subscribe s1 [t] b)) t
  = subscribers (MessageBroker_subscribe s1 [t] (MessageBroker_subscribe s2 [t] b)) t.
Proof.
  cbn. rewrite !fn_lookup_insert. set_solver.
Qed.

(** C4, as stated, fails: subscriber 1 subscribes before subscriber 2, and
    in a run whose iteration of the set visits 2 first the message is
    delivered to 2 before 1. *)
Lemma C4_counterexample :
  ∃ iteration : SetIteration,
    next_deliveries iteration silent
      (broker_run [Subscribe 1 [BUS_ARRIVAL]; Subscribe 2 [BUS_ARRIVAL];
                   Publish (msg "bus-1" 1)])
    = [(2, msg "bus-1" 1); (1, msg "bus-1" 1)] ∧
    ¬ delivers_in_subscription_order iteration silent
        [Subscribe 1 [BUS_ARRIVAL]; Subscribe 2 [BUS_ARRIVAL];
         Publish (msg "bus-1" 1)]
        (msg "bus-1" 1).
Proof.
  exists descending_iteration. split; [vm_compute; reflexivity|].
  unfold delivers_in_subscription_order. vm_compute. discriminate.
Qed.

(* ===================================================================== *)
(** * Further properties *)
(* ===================================================================== *)

(** ** Message broker *)

(** At-most-once delivery: when no message is published twice, no
    subscriber observes a message twice, whatever the history of calls. *)
Theorem broker_at_most_once (h : list BrokerOp) (s : nat) :
  NoDup (published (broker_run h)) → NoDup (inbox s (broker_run h)).
Proof.
  intros Hnd. destruct (broker_inv_run h) as [_ [k Hpre] Hin].
  eapply sublist_NoDup; [|apply Hin].
  rewrite Hpre in Hnd. by apply NoDup_app in Hnd as [? _].
Qed.

Lemma broker_at_most_once_witness :
  NoDup (inbox 7 (broker_run
                    [Subscribe 7 [BUS_ARRIVAL]; Publish (msg "bus-1" 1);
                     Process ascending_iteration silent;
                     Publish (msg "bus-2" 2);
                     Process descending_iteration silent])).
Proof.
  apply broker_at_most_once. vm_compute.
  repeat constructor; rewrite ?list_elem_of_In; cbn; intuition discriminate.
Defined.

Lemma all_message_types_complete t : t ∈ all_message_types.
Proof. destruct t; unfold all_message_types; set_solver. Qed.

(** [subscribe] is idempotent, and commutes with itself: registering the
    same subscriber again for the same kinds changes no subscriber set. *)
Theorem subscribe_idempotent (s : nat) (ts : list MessageType) (b : Broker)
    (t : MessageType) :
  subscribers (MessageBroker_subscribe s ts (MessageBroker_subscribe s ts b)) t
  = subscribers (MessageBroker_subscribe s ts b) t.
Proof.
  cbn [MessageBroker_subscribe subscribers].
  rewrite !subscribe_fold_spec.
  destruct (bool_decide (t ∈ ts)); [|done].
  apply set_eq. intros x. set_unfold. intuition auto.
Qed.

(** What a subscriber is registered for after [subscribe] then
    [unsubscribe] of the same kinds: exactly what it was registered for
    outside those kinds; the other subscribers are not affected. *)
Theorem unsubscribe_after_subscribe (s : nat) (ts : list MessageType)
    (b : Broker) (t : MessageType) (s' : nat) :
  s' ∈ subscribers
         (MessageBroker_unsubscribe s (Some ts) (MessageBroker_subscribe s ts b))
         t
  ↔ s' ∈ subscribers b t ∧ (s' = s → t ∉ ts).
Proof.
  cbn [MessageBroker_unsubscribe MessageBroker_subscribe subscribers default].
  rewrite unsubscribe_fold_spec, subscribe_fold_spec.
  destruct (decide (t ∈ ts)) as [Ht|Ht].
  - rewrite !bool_decide_eq_true_2 by done. set_unfold. split.
    + intros [[->|?] Hne]; [done|]. split; [done|]. by intros ->.
    + intros [? Hne]. split; [by right|]. intros ->. by apply Hne.
  - rewrite !bool_decide_eq_false_2 by done. intuition auto.
Qed.

Lemma fanout_present s m l :
  NoDup l → s ∈ l →
  filter (λ d : nat * Message, d.1 = s) ((λ s', (s', m)) <$> l) = [(s, m)].
Proof.
  induction 1 as [|s' l Hnotin Hnd IH]; intros Hin.
  - by apply elem_of_nil in Hin.
  - cbn [fmap list_fmap]. rewrite filter_cons. cbn [fst].
    destruct (decide (s' = s)) as [->|Hne].
    + pose proof (fanout_absent s m l Hnotin) as Hnone.
      cbn [fmap list_fmap] in Hnone. by rewrite Hnone.
    + apply elem_of_cons in Hin as [->|Hin]; [done|]. by apply IH.
Qed.

Lemma process_inbox iteration on_message b s :
  inbox s (MessageBroker_process_messages iteration on_message b)
  = inbox s b ++
    (if stop_event b then []
     else wanted_by s b (take 1 (message_queue b))).
Proof.
  unfold MessageBroker_process_messages, wanted_by.
  destruct (stop_event b) eqn:Hrun; [by rewrite app_nil_r|].
  destruct (message_queue b) as [|m q] eqn:Hq; [by rewrite app_nil_r|].
  destruct (deliver_all_spec on_message m
              (visit iteration (subscribers b (msg_type m)))
              (mkBroker (subscribers b) q false (published b)
                        (dequeued b ++ [m]) (delivered b)))
    as (ms & _ & _ & _ & _ & _ & Hdel).
  unfold inbox at 1. rewrite Hdel. cbn [delivered]. rewrite inbox_app.
  f_equal. cbn [take firstn]. rewrite take_0, filter_cons, filter_nil.
  destruct (decide (s ∈ subscribers b (msg_type m))) as [Hin|Hout].
  - rewrite fanout_present;
      [done | apply visit_NoDup | by apply visit_elem_of].
  - rewrite fanout_absent; [done | by rewrite visit_elem_of].
Qed.

Lemma process_frame iteration on_message b :
  subscribers (MessageBroker_process_messages iteration on_message b)
  = subscribers b ∧
  stop_event (MessageBroker_process_messages iteration on_message b)
  = stop_event b.
Proof.
  unfold MessageBroker_process_messages.
  destruct (stop_event b) eqn:Hrun; [done|].
  destruct (message_queue b) as [|m q]; [done|].
  destruct (deliver_all_spec on_message m
              (visit iteration (subscribers b (msg_type m)))
              (mkBroker (subscribers b) q false (published b)
                        (dequeued b ++ [m]) (delivered b)))
    as (ms & -> & _ & -> & _ & _ & _).
  done.
Qed.

Lemma unsubscribed_step s b o :
  not_subscribe s o → unsubscribed s b →
  unsubscribed s (broker_step b o) ∧ inbox s (broker_step b o) = inbox s b.
Proof.
  intros Ho Hun.
  destruct o as [s' ts|s' ts|m|iteration on_message|]; cbn [broker_step].
  - split; [|done]. intros t.
    cbn [MessageBroker_subscribe subscribers]. rewrite subscribe_fold_spec.
    specialize (Hun t). cbn in Ho. case_bool_decide; set_unfold; intuition.
  - split; [|done]. intros t.
    cbn [MessageBroker_unsubscribe subscribers].
    rewrite unsubscribe_fold_spec.
    specialize (Hun t). case_bool_decide; set_unfold; intuition.
  - by split.
  - destruct (process_frame iteration on_message b) as [Hsub _]. split.
    + intros t. rewrite Hsub. apply Hun.
    + rewrite process_inbox. destruct (stop_event b); [by rewrite app_nil_r|].
      unfold wanted_by. destruct (message_queue b) as [|m q];
        [by rewrite app_nil_r|].
      cbn [take firstn]. rewrite take_0, filter_cons, filter_nil.
      rewrite decide_False by apply Hun. by rewrite app_nil_r.
  - by split.
Qed.

(** After [unsubscribe(s)] from all kinds, [s] observes nothing more,
    whatever is published and processed afterwards, until it subscribes
    again. *)
Theorem unsubscribed_receives_nothing (b : Broker) (s : nat)
    (h : list BrokerOp) :
  Forall (not_subscribe s) h →
  inbox s (foldl broker_step (MessageBroker_unsubscribe s None b) h)
  = inbox s b.
Proof.
  intros Hh.
  assert (Hun : unsubscribed s (MessageBroker_unsubscribe s None b)).
  { intros t. cbn [MessageBroker_unsubscribe subscribers default].
    rewrite unsubscribe_fold_spec.
    rewrite bool_decide_eq_true_2 by apply all_message_types_complete.
    set_unfold. intuition. }
  change (inbox s b) with (inbox s (MessageBroker_unsubscribe s None b)).
  revert Hun. generalize (MessageBroker_unsubscribe s None b). clear b.
  induction Hh as [|o h Ho Hh IH]; intros b Hun; cbn [foldl]; [done|].
  destruct (unsubscribed_step s b o Ho Hun) as [Hun' Hin].
  rewrite IH by done. done.
Qed.

Lemma unsubscribed_receives_nothing_witness :
  inbox 7 (foldl broker_step
             (MessageBroker_unsubscribe 7 None
                (broker_run [Subscribe 7 [BUS_ARRIVAL];
                             Publish (msg "bus-1" 1);
                             Process ascending_iteration silent]))
             [Subscribe 8 [BUS_ARRIVAL]; Publish (msg "bus-2" 2);
              Process descending_iteration silent])
  = [msg "bus-1" 1].
Proof.
  rewrite unsubscribed_receives_nothing; [reflexivity|].
  repeat constructor. cbn. lia.
Defined.

Lemma stopped_step b o :
  stop_event b = true →
  stop_event (broker_step b o) = true ∧
  delivered (broker_step b o) = delivered b ∧
  dequeued (broker_step b o) = dequeued b.
Proof.
  intros Hstop. destruct o; cbn [broker_step]; try done.
  unfold MessageBroker_process_messages. by rewrite Hstop.
Qed.

(** After [shutdown], nothing is dequeued or delivered any more, whatever
    is called afterwards: the messages that were queued are lost, and
    those published later are never delivered. *)
Theorem shutdown_is_final (b : Broker) (h : list BrokerOp) :
  let b' := foldl broker_step (MessageBroker_shutdown b) h in
  stop_event b' = true ∧ delivered b' = delivered b ∧ dequeued b' = dequeued b.
Proof.
  cbn zeta.
  change (delivered b) with (delivered (MessageBroker_shutdown b)).
  change (dequeued b) with (dequeued (MessageBroker_shutdown b)).
  assert (Hstop : stop_event (MessageBroker_shutdown b) = true) by done.
  revert Hstop. generalize (MessageBroker_shutdown b). clear b.
  induction h as [|o h IH]; intros b Hstop; cbn [foldl]; [done|].
  destruct (stopped_step b o Hstop) as (Hs & Hd & Hq).
  destruct (IH _ Hs) as (-> & -> & ->). done.
Qed.

Lemma deliver_all_silent m l b :
  foldl (deliver silent m) b l
  = mkBroker (subscribers b) (message_queue b) (stop_event b) (published b)
             (dequeued b) (delivered b ++ ((λ s, (s, m)) <$> l)).
Proof.
  revert b. induction l as [|s l IH]; intros b; cbn [foldl].
  - destruct b. cbn. by rewrite app_nil_r.
  - rewrite IH. cbn. by rewrite <-app_assoc.
Qed.

Lemma drain_succ iteration n b :
  drain iteration (S n) b
  = drain iteration n (MessageBroker_process_messages iteration silent b).
Proof. unfold drain. by rewrite Nat.iter_succ_r. Qed.

Lemma drain_spec iteration n b :
  stop_event b = false → length (message_queue b) = n →
  message_queue (drain iteration n b) = [] ∧
  dequeued (drain iteration n b) = dequeued b ++ message_queue b ∧
  published (drain iteration n b) = published b ∧
  ∀ s, inbox s (drain iteration n b)
       = inbox s b ++ wanted_by s b (message_queue b).
Proof.
  revert b. induction n as [|n IH]; intros b Hrun Hlen.
  - destruct (message_queue b) eqn:Hq; [|done]. unfold drain, wanted_by.
    cbn [Nat.iter].
    split; [done|]. split; [by rewrite app_nil_r|]. split; [done|].
    intros s. by rewrite filter_nil, app_nil_r.
  - destruct (message_queue b) as [|m q] eqn:Hq; [done|].
    rewrite drain_succ.
    set (b1 := MessageBroker_process_messages iteration silent b).
    assert (Hb1 : b1 = mkBroker (subscribers b) q false (published b)
                                (dequeued b ++ [m])
                                (delivered b ++
                                 ((λ s, (s, m)) <$>
                                  visit iteration
                                    (subscribers b (msg_type m))))).
    { subst b1. unfold MessageBroker_process_messages.
      rewrite Hrun, Hq. by rewrite deliver_all_silent. }
    destruct (IH b1) as (Hq1 & Hdq1 & Hpub1 & Hin1).
    { by rewrite Hb1. }
    { rewrite Hb1. cbn. cbn in Hlen. lia. }
    split; [done|]. split; [|split].
    + rewrite Hdq1, Hb1. cbn. by rewrite <-app_assoc.
    + by rewrite Hpub1, Hb1.
    + intros s. rewrite Hin1. subst b1. rewrite process_inbox, Hrun, Hq.
      rewrite <-app_assoc. f_equal.
      destruct (process_frame iteration silent b) as [Hsub _].
      unfold wanted_by. rewrite Hsub. cbn [take firstn]. rewrite take_0.
      rewrite Hb1. cbn [message_queue].
      by rewrite (filter_cons _ m q), filter_cons, filter_nil;
        case_decide.
Qed.

(** Draining: when the broker runs and the handlers publish nothing, as
    many iterations of the consumer loop as there are queued messages empty
    the queue, take the messages in queue order, and hand every subscriber
    exactly the queued messages of the kinds it is registered for, once
    each and in queue order. *)
Theorem drain_delivers_queue (iteration : SetIteration) (b : Broker) :
  stop_event b = false →
  let b' := drain iteration (length (message_queue b)) b in
  message_queue b' = [] ∧
  dequeued b' = dequeued b ++ message_queue b ∧
  ∀ s, inbox s b' = inbox s b ++ wanted_by s b (message_queue b).
Proof.
  intros Hrun b'.
  destruct (drain_spec iteration _ b Hrun eq_refl) as (? & ? & _ & ?).
  done.
Qed.

Lemma drain_delivers_queue_witness :
  let b := broker_run [Subscribe 7 [BUS_ARRIVAL]; Subscribe 8 [BUS_DEPARTURE];
                       Publish (msg "bus-1" 1); Publish (msg "bus-2" 2)] in
  message_queue (drain descending_iteration 2 b) = [] ∧
  inbox 7 (drain descending_iteration 2 b)
  = [msg "bus-1" 1; msg "bus-2" 2] ∧
  inbox 8 (drain descending_iteration 2 b) = [].
Proof.
  intros b.
  pose proof (drain_delivers_queue descending_iteration b eq_refl) as H.
  change (length (message_queue b)) with 2 in H.
  destruct H as (Hq & _ & Hin).
  split; [exact Hq|]. split.
  - rewrite (Hin 7). vm_compute. reflexivity.
  - rewrite (Hin 8). vm_compute. reflexivity.
Defined.

(** ** Stops *)

Lemma stops_emit e w : stops (emit e w) = stops w.
Proof. done. Qed.

Lemma stops_upd_stop_eq s f w s' :
  stops (upd_stop s f w) s'
  = if decide (s = s') then f (stops w s) else stops w s'.
Proof.
  unfold upd_stop; cbn [stops]. case_decide as E.
  - subst. apply fn_lookup_insert.
  - by apply fn_lookup_insert_ne.
Qed.

Lemma lists_ok_admission occ q cur x :
  lists_ok (set_stop_admission occ q cur x) ↔ lists_ok x.
Proof. done. Qed.

Lemma Stop_bus_arrival_lists bus x :
  lists_ok x → lists_ok (snd (Stop_bus_arrival bus x)).
Proof. unfold Stop_bus_arrival. by destruct (stop_is_occupied x). Qed.

Lemma Stop_bus_departure_lists bus x :
  lists_ok x → lists_ok (snd (Stop_bus_departure bus x)).
Proof.
  unfold Stop_bus_departure. case_bool_decide; [|done].
  case_bool_decide; [|done]. by destruct (stop_bus_queue x).
Qed.

Lemma call_bus_arrival_lists s bus w s' :
  lists_ok (stops w s') → lists_ok (stops (snd (call_bus_arrival s bus w)) s').
Proof.
  intros H. unfold call_bus_arrival.
  pose proof (Stop_bus_arrival_lists bus (stops (emit (EvBusArrival s bus) w) s))
    as Hx.
  destruct (Stop_bus_arrival _ _) as [r x]. cbn [snd] in *.
  rewrite stops_upd_stop_eq. case_decide; subst; [by apply Hx | done].
Qed.

Lemma call_bus_departure_lists s bus w s' :
  lists_ok (stops w s') →
  lists_ok (stops (snd (call_bus_departure s bus w)) s').
Proof.
  intros H. unfold call_bus_departure.
  pose proof (Stop_bus_departure_lists bus
                (stops (emit (EvBusDeparture s bus) w) s)) as Hx.
  destruct (Stop_bus_departure _ _) as [r x]. cbn [snd] in *.
  rewrite stops_upd_stop_eq. case_decide; subst; [by apply Hx | done].
Qed.

Lemma py_remove_in_length x l :
  x ∈ l → S (length (py_remove x l)) = length l.
Proof.
  induction l as [|y l IH]; [by intros ?%elem_of_nil|].
  cbn [py_remove]. case_decide; [done|].
  intros [->|Hin]%elem_of_cons; [done|]. cbn [length]. by rewrite IH.
Qed.

Lemma Stop_add_passenger_lists s p w s' :
  lists_ok (stops w s') → lists_ok (stops (snd (Stop_add_passenger s p w)) s').
Proof.
  intros [Heq Hcap]. unfold Stop_add_passenger, Stop_can_accept_passengers.
  case_bool_decide as Hroom; cbn [snd]; [|done].
  change (stops (upd_passenger ?p ?f ?w)) with (stops w).
  rewrite stops_upd_stop_eq. case_decide; [subst s'|done].
  split; cbn.
  - by rewrite Heq.
  - rewrite length_app. cbn. lia.
Qed.

Lemma Stop_remove_passenger_lists s p w s' :
  lists_ok (stops w s') →
  lists_ok (stops (snd (Stop_remove_passenger s p w)) s').
Proof.
  intros [Heq Hcap]. unfold Stop_remove_passenger.
  destruct (py_in p (stop_passenger_list (stops w s))) eqn:Hin; cbn [snd];
    [|done].
  rewrite stops_upd_stop_eq. case_decide; [subst s'|done].
  split; cbn.
  - rewrite Heq, Hin. done.
  - pose proof (py_remove_length p (stop_passenger_list (stops w s))). lia.
Qed.

Lemma Bus_add_passenger_stops b p w :
  stops (snd (Bus_add_passenger b p w)) = stops w.
Proof. unfold Bus_add_passenger. by destruct (Bus_can_accept_passengers _ _). Qed.

Lemma Bus_remove_passenger_stops b p w :
  stops (snd (Bus_remove_passenger b p w)) = stops w.
Proof. unfold Bus_remove_passenger. by destruct (py_in _ _). Qed.

Lemma handle_alighting_stops b w :
  stops (BusThread_handle_alighting b w) = stops w.
Proof.
  unfold BusThread_handle_alighting.
  generalize (filter (λ p, BusThread_should_passenger_alight b p w = true)
                     (bus_passenger_list (buses w b))).
  intros l. revert w. induction l as [|p l IH]; intros w; cbn [foldl]; [done|].
  by rewrite IH, Bus_remove_passenger_stops.
Qed.

Lemma boarding_loop_lists b c ps w s :
  lists_ok (stops w s) → lists_ok (stops (snd (boarding_loop b c ps w)) s).
Proof.
  revert w. induction ps as [|p ps IH]; intros w H; cbn [boarding_loop];
    [done|].
  destruct (Bus_can_accept_passengers _ _); [|by apply IH].
  destruct (BusThread_can_accept_passenger b p w) as [[|]|];
    [|by apply IH|done].
  pose proof (Bus_add_passenger_stops b p w) as Hadd.
  destruct (Bus_add_passenger b p w) as [added w1]. cbn [snd] in Hadd.
  apply IH. destruct added.
  - apply Stop_remove_passenger_lists. by rewrite Hadd.
  - by rewrite Hadd.
Qed.

Lemma move_lists b w s :
  lists_ok (stops w s) →
  lists_ok (stops (snd (BusThread_move_to_next_stop b w)) s).
Proof.
  intros H. unfold BusThread_move_to_next_stop.
  destruct (bus_current_route (buses w b)); [|exact H].
  destruct (bus_current_stop (buses w b)); [|exact H].
  destruct (route_stop_list _) as [|first rest]; [exact H|].
  destruct (py_index _ _); cbn [snd]; [|exact H].
  apply call_bus_arrival_lists.
  unfold assign_current_stop. cbn [stops emit upd_bus].
  by apply call_bus_departure_lists.
Qed.

Lemma exchange_lists b w s :
  lists_ok (stops w s) →
  lists_ok (stops (snd (BusThread_handle_passenger_exchange b w)) s).
Proof.
  intros H. unfold BusThread_handle_passenger_exchange.
  destruct (bus_current_stop (buses w b)); [|exact H].
  assert (Hal : lists_ok (stops (BusThread_handle_alighting b w) s))
    by by rewrite handle_alighting_stops.
  revert Hal. generalize (BusThread_handle_alighting b w). intros w1 Hal.
  unfold BusThread_handle_boarding.
  destruct (Bus_is_full (buses w1 b)); [exact Hal|].
  destruct (bus_current_stop (buses w1 b)) as [c|]; [|exact Hal].
  by apply boarding_loop_lists.
Qed.

Lemma cycle_lists b w s :
  lists_ok (stops w s) → lists_ok (stops (BusThread_cycle b w) s).
Proof.
  intros H. unfold BusThread_cycle.
  destruct (bus_current_route (buses w b)); [|exact H].
  destruct (bus_current_stop (buses w b)); [|exact H].
  pose proof (exchange_lists b w s H) as Hex.
  destruct (BusThread_handle_passenger_exchange b w) as [[|] w1];
    cbn [snd] in Hex; [|exact Hex].
  by apply move_lists.
Qed.

Lemma step_lists w o s : lists_ok (stops w s) → lists_ok (stops (step w o) s).
Proof.
  intros H. destruct o; cbn [step].
  - unfold Passenger_board_bus.
    destruct (negb _); [done|]. destruct (negb _); [done|].
    cbn [snd]. by destruct (p_current_stop _).
  - rewrite Passenger_alight_bus_world. by destruct (negb _).
  - by rewrite Bus_add_passenger_stops.
  - by rewrite Bus_remove_passenger_stops.
  - by apply Stop_add_passenger_lists.
  - by apply Stop_remove_passenger_lists.
  - by apply cycle_lists.
  - by rewrite alighting_confirmation_noop.
Qed.

(** The two passenger lists of a stop stay equal, and within the stop's
    capacity, under every operation of the system: passengers enter both
    lists together ([Stop.add_passenger]) and leave both together
    ([Stop.remove_passenger], also when the bus agent boards them). *)
Theorem stop_lists_agree (w0 : World) (ops : list Op) (s : nat) :
  stop_waiting_passengers (stops w0 s) = stop_passenger_list (stops w0 s) →
  length (stop_passenger_list (stops w0 s)) ≤ stop_capacity (stops w0 s) →
  let x := stops (run ops w0) s in
  stop_waiting_passengers x = stop_passenger_list x ∧
  length (stop_passenger_list x) ≤ stop_capacity x.
Proof.
  intros Heq Hcap. cbn zeta.
  assert (H0 : lists_ok (stops w0 s)) by done.
  clear Heq Hcap. induction ops as [|o ops IH] using rev_ind; [done|].
  rewrite run_snoc. by apply step_lists.
Qed.

Lemma stop_lists_agree_witness :
  let x := stops (run [OpStopAddPassenger 0 5; OpBusCycle 0;
                       OpStopRemovePassenger 0 0]
                      (scenario (DestStation 0))) 0 in
  stop_waiting_passengers x = stop_passenger_list x ∧
  length (stop_passenger_list x) ≤ stop_capacity x.
Proof.
  apply (stop_lists_agree (scenario (DestStation 0))); [reflexivity|].
  vm_compute. lia.
Defined.

(** The bus queue of a stop is a FIFO under every call: it is left alone,
    or a bus arriving joins it at the rear, or its head leaves it and is
    admitted. *)
Theorem bus_queue_fifo (x : Stop) (o : StopOp) :
  stop_bus_queue (stop_step x o) = stop_bus_queue x ∨
  (∃ bus, o = OpBusArrival bus ∧
          stop_bus_queue (stop_step x o) = stop_bus_queue x ++ [bus]) ∨
  (∃ bus, stop_bus_queue x = bus :: stop_bus_queue (stop_step x o) ∧
          bus ∈ stop_current_buses (stop_step x o)).
Proof.
  destruct o as [bus|bus|]; cbn [stop_step].
  - unfold Stop_bus_arrival. destruct (stop_is_occupied x); cbn.
    + right; left. by exists bus.
    + by left.
  - unfold Stop_bus_departure. case_bool_decide; [|by left].
    case_bool_decide; [|by left].
    destruct (stop_bus_queue x) as [|next q]; [by left|].
    right; right. exists next. cbn. split; [done|]. set_solver.
  - unfold StopThread_manage_bus_queue.
    destruct (stop_bus_queue x) as [|next q] eqn:Hq; [by left|].
    destruct (stop_is_occupied x) eqn:Hocc; cbn [negb]; [by left|].
    unfold Stop_bus_arrival. cbn. right; right. exists next.
    split; [done|]. set_solver.
Qed.

(** In every state a stop reaches from its constructor, the stop agent's
    queue drain finds nothing to do: admission only ever happens inside
    [bus_arrival] and [bus_departure]. *)
Theorem stop_agent_idle (x : Stop) :
  stop_reachable x → StopThread_manage_bus_queue x = x.
Proof. intros H. by apply manage_bus_queue_idle, stop_inv_reachable. Qed.

Lemma stop_agent_idle_witness :
  let x := foldl stop_step Stop_init
             [OpBusArrival 1; OpBusArrival 2; OpBusDeparture 1] in
  StopThread_manage_bus_queue x = x.
Proof.
  intros x. apply stop_agent_idle.
  exists Stop_init, [OpBusArrival 1; OpBusArrival 2; OpBusDeparture 1].
  split; [repeat split|reflexivity].
Defined.

(** ** Buses and passengers *)

Lemma py_index_lt c l i : py_index c l = Some i → i < length l.
Proof. intros H%py_index_lookup. by eapply lookup_lt_Some. Qed.

Lemma advance_route_step w b r c i :
  bus_current_route (buses w b) = Some r →
  bus_current_stop (buses w b) = Some c →
  py_index c (route_stop_list (routes w r)) = Some i →
  ∃ next_stop w',
    route_successor (route_stop_list (routes w r)) i = Some next_stop ∧
    BusThread_move_to_next_stop b w = (true, w') ∧
    bus_current_stop (buses w' b) = Some next_stop.
Proof.
  intros Hr Hc Hi. unfold BusThread_move_to_next_stop, route_successor.
  rewrite Hr, Hc. pose proof (py_index_lt _ _ _ Hi) as Hlt.
  destruct (route_stop_list (routes w r)) as [|first rest] eqn:Hroute;
    [cbn in Hlt; lia|].
  rewrite Hi.
  set (next_stop :=
         if bool_decide (i < length (first :: rest) - 1)
         then default first ((first :: rest) !! (i + 1)) else first).
  exists next_stop. eexists. split; [|split; [reflexivity|]].
  - subst next_stop. cbn [length].
    rewrite Nat.sub_succ, Nat.sub_0_r.
    destruct (decide (i < length rest)) as [Hl|Hge].
    + rewrite !bool_decide_eq_true_2 by lia.
      destruct ((first :: rest) !! (i + 1)) as [n|] eqn:E; [done|].
      apply lookup_ge_None in E. cbn [length] in E. lia.
    + rewrite !bool_decide_eq_false_2 by lia. done.
  - destruct (call_bus_departure_frame c b w) as (_ & Hb1 & _).
    destruct (call_bus_arrival_frame next_stop b
                (assign_current_stop b next_stop
                   (snd (call_bus_departure c b w)))) as (_ & Hb2 & _).
    cbn [snd]. rewrite Hb2. unfold assign_current_stop. world_simpl.
    by rewrite fn_lookup_insert.
Qed.

(** [Bus.move_to_next_stop] against the bus agent's advance: from a stop
    that is not the last of the route both put the bus on the same next
    stop; from the last stop the agent wraps to the first stop whereas the
    method of the model returns [False] and leaves the bus where it is. *)
Theorem Bus_move_to_next_stop_no_wrap (w : World) (b r c i : nat) :
  bus_current_route (buses w b) = Some r →
  bus_current_stop (buses w b) = Some c →
  py_index c (route_stop_list (routes w r)) = Some i →
  (i + 1 < length (route_stop_list (routes w r)) →
   ∃ w', Bus_move_to_next_stop b w = Some (true, w') ∧
         bus_current_stop (buses w' b)
         = bus_current_stop (buses (snd (BusThread_move_to_next_stop b w)) b) ∧
         bus_current_stop (buses w' b)
         = route_stop_list (routes w r) !! (i + 1)) ∧
  (i + 1 = length (route_stop_list (routes w r)) →
   Bus_move_to_next_stop b w = Some (false, w) ∧
   bus_current_stop (buses (snd (BusThread_move_to_next_stop b w)) b)
   = route_stop_list (routes w r) !! 0).
Proof.
  intros Hr Hc Hi.
  destruct (advance_route_step w b r c i Hr Hc Hi) as (n & w2 & Hsucc & Hmv & Hcur).
  unfold Bus_move_to_next_stop. rewrite Hr, Hc. cbn zeta. rewrite Hi.
  rewrite Hmv. cbn [snd]. rewrite Hcur. unfold route_successor in Hsucc.
  split; intros Hlen.
  - rewrite bool_decide_eq_true_2 in Hsucc by lia.
    rewrite bool_decide_eq_true_2 by lia. rewrite Hsucc.
    eexists. split; [reflexivity|]. world_simpl.
    by rewrite fn_lookup_insert.
  - rewrite bool_decide_eq_false_2 in Hsucc by lia.
    rewrite bool_decide_eq_false_2 by lia. by rewrite Hsucc.
Qed.

Lemma Bus_move_to_next_stop_no_wrap_witness :
  Bus_move_to_next_stop 0 (BusThread_cycle 0 scenario_A)
  = Some (false, BusThread_cycle 0 scenario_A) ∧
  bus_current_stop
    (buses (snd (BusThread_move_to_next_stop 0 (BusThread_cycle 0 scenario_A)))
           0)
  = Some 0.
Proof.
  apply (Bus_move_to_next_stop_no_wrap (BusThread_cycle 0 scenario_A) 0 0 1 1);
    reflexivity.
Defined.

Lemma Bus_add_passenger_ok b p w :
  Bus_can_accept_passengers (buses w b) 1 = true →
  ∃ w1, Bus_add_passenger b p w = (true, w1) ∧
        bus_passenger_list (buses w1 b) = bus_passenger_list (buses w b) ++ [p] ∧
        bus_capacity (buses w1 b) = bus_capacity (buses w b) ∧
        stops w1 = stops w ∧
        (∀ q, p_status (passengers w1 q) = p_status (passengers w q)).
Proof.
  intros Hroom. unfold Bus_add_passenger. rewrite Hroom.
  eexists. split; [reflexivity|]. world_simpl. rewrite fn_lookup_insert.
  repeat split. intros q.
  destruct (decide (p = q)) as [->|?];
    [by rewrite fn_lookup_insert | by rewrite fn_lookup_insert_ne].
Qed.

Lemma Passenger_should_board_bus_false p bus w :
  Passenger_should_board_bus p bus w = false.
Proof.
  unfold Passenger_should_board_bus. by destruct (bus_current_route _).
Qed.

(** [Bus.handle_passenger_boarding] boards nobody.  It offers its free
    seats to the waiting passengers for whom [should_board_bus] holds, and
    [should_board_bus] holds for none: its tests for the kind of the
    destination are never true.  Whatever the waiting list and the free
    seats, the method returns 0 and changes nothing. *)
Theorem Bus_handle_passenger_boarding_boards_nobody (w : World)
    (b stop : nat) :
  Bus_handle_passenger_boarding b stop w = (0, w) ∧
  ∀ p, Passenger_should_board_bus p b w = false.
Proof.
  split; [|intros p; apply Passenger_should_board_bus_false].
  unfold Bus_handle_passenger_boarding.
  destruct (Bus_is_full (buses w b)); [done|].
  rewrite filter_none; [by rewrite take_nil|].
  intros p. by rewrite Passenger_should_board_bus_false.
Qed.

Lemma Passenger_board_bus_ok p bus w :
  p_status (passengers w p) = STATUS_WAITING →
  Bus_can_accept_passengers (buses w bus) 1 = true →
  let w' := snd (Passenger_board_bus p bus w) in
  buses w' = buses w ∧ stops w' = stops w ∧
  p_status (passengers w' p) = STATUS_IN_BUS ∧
  p_current_bus (passengers w' p) = Some bus ∧
  (∀ q, q ≠ p → passengers w' q = passengers w q).
Proof.
  intros Hst Hroom. unfold Passenger_board_bus. rewrite Hst, Hroom.
  rewrite bool_decide_eq_true_2 by done. cbn [negb snd]. self_simpl.
  destruct (p_current_stop (passengers w p)); self_simpl;
    (repeat split; intros q Hq; by rewrite !fn_lookup_insert_ne).
Qed.

Lemma board_all_spec bus ps w :
  NoDup ps →
  (∀ p, p ∈ ps → p_status (passengers w p) = STATUS_WAITING) →
  Bus_can_accept_passengers (buses w bus) 1 = true →
  let w' := board_all bus ps w in
  buses w' = buses w ∧ stops w' = stops w ∧
  (∀ p, p ∈ ps →
        p_status (passengers w' p) = STATUS_IN_BUS ∧
        p_current_bus (passengers w' p) = Some bus) ∧
  (∀ q, q ∉ ps → passengers w' q = passengers w q).
Proof.
  revert w. induction ps as [|p ps IH]; intros w Hnd Hwait Hroom;
    unfold board_all; cbn [foldl].
  - split; [done|]. split; [done|]. split; [|done].
    intros q Hq. by apply elem_of_nil in Hq.
  - apply NoDup_cons in Hnd as [Hnotin Hnd].
    destruct (Passenger_board_bus_ok p bus w) as (Hb & Hs & Hst & Hcb & Hoth);
      [apply Hwait; left | done |].
    set (w1 := snd (Passenger_board_bus p bus w)) in *.
    destruct (IH w1 Hnd) as (Hb' & Hs' & Hin' & Hout').
    { intros q Hq. rewrite Hoth; [apply Hwait; by right|]. by intros ->. }
    { by rewrite Hb. }
    fold (board_all bus ps w1). cbn zeta in *.
    split; [by rewrite Hb'|]. split; [by rewrite Hs'|]. split.
    + intros q Hq. apply elem_of_cons in Hq as [->|Hq]; [|by apply Hin'].
      by rewrite (Hout' p Hnotin).
    + intros q Hq. apply not_elem_of_cons in Hq as [Hne Hq].
      rewrite Hout' by done. by apply Hoth.
Qed.

(** [Passenger.board_bus] checks for a free seat but takes none: it leaves
    the bus's passenger list (and the stop's lists) alone.  So on a bus with
    a single free seat any number of waiting passengers can board, each
    ending IN_BUS on that bus. *)
Theorem board_bus_takes_no_seat (w : World) (bus : nat) (ps : list nat) :
  NoDup ps →
  (∀ p, p ∈ ps → p_status (passengers w p) = STATUS_WAITING) →
  Bus_can_accept_passengers (buses w bus) 1 = true →
  let w' := board_all bus ps w in
  (∀ p, p ∈ ps →
        p_status (passengers w' p) = STATUS_IN_BUS ∧
        p_current_bus (passengers w' p) = Some bus) ∧
  bus_passenger_list (buses w' bus) = bus_passenger_list (buses w bus) ∧
  stops w' = stops w.
Proof.
  intros Hnd Hwait Hroom w'.
  destruct (board_all_spec bus ps w Hnd Hwait Hroom) as (Hb & Hs & Hin & _).
  fold w' in Hb, Hs, Hin. split; [done|]. split; [by rewrite Hb | done].
Qed.

Lemma board_bus_takes_no_seat_witness :
  let w' := board_all 0 [0; 1; 2; 3; 4] scenario_A in
  p_status (passengers w' 4) = STATUS_IN_BUS ∧
  p_current_bus (passengers w' 4) = Some 0 ∧
  bus_passenger_list (buses w' 0) = [] ∧
  bus_capacity (buses w' 0) = 2.
Proof.
  intros w'.
  destruct (board_bus_takes_no_seat scenario_A 0 [0; 1; 2; 3; 4])
    as (Hin & Hl & _).
  - repeat constructor; rewrite ?list_elem_of_In; cbn; lia.
  - intros p _. reflexivity.
  - reflexivity.
  - destruct (Hin 4) as [H1 H2]; [rewrite list_elem_of_In; cbn; lia|].
    split; [exact H1|]. split; [exact H2|]. split; [exact Hl|reflexivity].
Defined.

(** Between operations a passenger is WAITING, IN_BUS or ARRIVED:
    BOARDING and ALIGHTING only exist inside [board_bus] and [alight_bus].
    So at every such instant the passengers split into waiting, on board
    and arrived. *)
Theorem statuses_at_rest (w0 : World) (ops : list Op) (p : nat) :
  status_at_rest (p_status (passengers w0 p)) →
  status_at_rest (p_status (passengers (run ops w0) p)).
Proof.
  intros H0. induction ops as [|o ops IH] using rev_ind; [done|].
  rewrite run_snoc.
  destruct (step_transition_spec (run ops w0) o p) as (evs & _ & -> & Hsh).
  unfold status_at_rest in *.
  destruct Hsh as [->|[[_ ->]|[_ ->]]]; cbn; auto.
Qed.

Lemma statuses_at_rest_witness :
  status_at_rest
    (p_status (passengers
                 (run [OpBoardBus 0 0; OpBusCycle 0; OpAlightBus 0 1] scenario_A)
                 0)).
Proof. apply statuses_at_rest. by left. Defined.

Lemma Passenger_board_bus_buses p bus w :
  buses (snd (Passenger_board_bus p bus w)) = buses w.
Proof.
  unfold Passenger_board_bus.
  destruct (negb _); [done|]. destruct (negb _); [done|].
  cbn [snd]. by destruct (p_current_stop _).
Qed.

Lemma Passenger_alight_bus_buses p stop w :
  buses (snd (Passenger_alight_bus p stop w)) = buses w.
Proof.
  rewrite Passenger_alight_bus_world. by destruct (negb _).
Qed.

Lemma Stop_add_passenger_buses s p w :
  buses (snd (Stop_add_passenger s p w)) = buses w.
Proof.
  unfold Stop_add_passenger. by destruct (Stop_can_accept_passengers _ _).
Qed.

Lemma handle_alighting_within b w b' :
  within_capacity (buses w b') →
  within_capacity (buses (BusThread_handle_alighting b w) b').
Proof.
  unfold BusThread_handle_alighting.
  generalize (filter (λ p, BusThread_should_passenger_alight b p w = true)
                     (bus_passenger_list (buses w b))).
  intros l. revert w. induction l as [|p l IH]; intros w H; cbn [foldl];
    [done|].
  by apply IH, Bus_remove_passenger_within.
Qed.

Lemma boarding_loop_within b c ps w b' :
  within_capacity (buses w b') →
  within_capacity (buses (snd (boarding_loop b c ps w)) b').
Proof.
  revert w. induction ps as [|p ps IH]; intros w H; cbn [boarding_loop];
    [done|].
  destruct (Bus_can_accept_passengers _ _); [|by apply IH].
  destruct (BusThread_can_accept_passenger b p w) as [[|]|];
    [|by apply IH|done].
  pose proof (Bus_add_passenger_within b p w b' H) as Hadd.
  destruct (Bus_add_passenger b p w) as [added w1]. cbn [snd] in Hadd.
  apply IH. destruct added; [|done].
  by rewrite Stop_remove_passenger_buses.
Qed.

Lemma move_within b w b' :
  within_capacity (buses w b') →
  within_capacity (buses (snd (BusThread_move_to_next_stop b w)) b').
Proof.
  intros H. unfold BusThread_move_to_next_stop.
  destruct (bus_current_route (buses w b)); [|exact H].
  destruct (bus_current_stop (buses w b)); [|exact H].
  destruct (route_stop_list _) as [|first rest]; [exact H|].
  assert (Hassign : ∀ stop w2, within_capacity (buses w2 b') →
            within_capacity (buses (assign_current_stop b stop w2) b')).
  { intros stop w2 H2. unfold assign_current_stop. cbn [buses emit].
    rewrite buses_upd_bus. case_decide; [subst b'|done]. exact H2. }
  destruct (py_index _ _); cbn [snd]; [|by apply Hassign].
  destruct (call_bus_arrival_frame
              (if bool_decide (n1 < length (first :: rest) - 1)
               then default first ((first :: rest) !! (n1 + 1)) else first)
              b
              (assign_current_stop b
                 (if bool_decide (n1 < length (first :: rest) - 1)
                  then default first ((first :: rest) !! (n1 + 1)) else first)
                 (snd (call_bus_departure n0 b w)))) as (_ & -> & _).
  apply Hassign.
  destruct (call_bus_departure_frame n0 b w) as (_ & -> & _). exact H.
Qed.

Lemma cycle_within b w b' :
  within_capacity (buses w b') → within_capacity (buses (BusThread_cycle b w) b').
Proof.
  intros H. unfold BusThread_cycle.
  destruct (bus_current_route (buses w b)); [|exact H].
  destruct (bus_current_stop (buses w b)); [|exact H].
  assert (Hex : within_capacity
                  (buses (snd (BusThread_handle_passenger_exchange b w)) b')).
  { unfold BusThread_handle_passenger_exchange.
    destruct (bus_current_stop (buses w b)); [|exact H].
    pose proof (handle_alighting_within b w b' H) as Hal.
    revert Hal. generalize (BusThread_handle_alighting b w). intros w1 Hal.
    unfold BusThread_handle_boarding.
    destruct (Bus_is_full (buses w1 b)); [exact Hal|].
    destruct (bus_current_stop (buses w1 b)) as [c|]; [|exact Hal].
    by apply boarding_loop_within. }
  destruct (BusThread_handle_passenger_exchange b w) as [[|] w1];
    cbn [snd] in Hex; [|exact Hex].
  by apply move_within.
Qed.

(** Capacity holds system-wide: a bus within its capacity stays within it
    under every operation of the system, the whole bus-agent cycle
    included. *)
Theorem capacity_all_operations (w0 : World) (ops : list Op) (b : nat) :
  length (bus_passenger_list (buses w0 b)) ≤ bus_capacity (buses w0 b) →
  length (bus_passenger_list (buses (run ops w0) b))
  ≤ bus_capacity (buses (run ops w0) b).
Proof.
  intros H0. change (within_capacity (buses (run ops w0) b)).
  induction ops as [|o ops IH] using rev_ind; [done|].
  rewrite run_snoc. destruct o; cbn [step].
  - by rewrite Passenger_board_bus_buses.
  - by rewrite Passenger_alight_bus_buses.
  - by apply Bus_add_passenger_within.
  - by apply Bus_remove_passenger_within.
  - by rewrite Stop_add_passenger_buses.
  - by rewrite Stop_remove_passenger_buses.
  - by apply cycle_within.
  - by rewrite alighting_confirmation_noop.
Qed.

Lemma capacity_all_operations_witness :
  length (bus_passenger_list
            (buses (run [OpBusCycle 0; OpBoardBus 0 0; OpBusCycle 0]
                        (scenario (DestStation 0))) 0))
  ≤ bus_capacity
      (buses (run [OpBusCycle 0; OpBoardBus 0 0; OpBusCycle 0]
                  (scenario (DestStation 0))) 0).
Proof. apply capacity_all_operations. vm_compute. lia. Defined.

(** ** Bus agent *)

Lemma alighting_frame_refl b w : alighting_frame b w w.
Proof. by split. Qed.

Lemma alighting_frame_trans b w1 w2 w3 :
  alighting_frame b w1 w2 → alighting_frame b w2 w3 → alighting_frame b w1 w3.
Proof.
  intros [A1 A2 A3 A4 A5 A6 A7] [B1 B2 B3 B4 B5 B6 B7].
  split; [congruence..| |].
  - intros p. by rewrite B6, A6.
  - intros p Hp. by apply B7, A7.
Qed.

Lemma Bus_remove_passenger_frame b p w :
  alighting_frame b w (snd (Bus_remove_passenger b p w)).
Proof.
  unfold Bus_remove_passenger. destruct (py_in _ _); cbn [snd];
    [|apply alighting_frame_refl].
  split; world_simpl; try done.
  - by rewrite fn_lookup_insert.
  - by rewrite fn_lookup_insert.
  - intros q. destruct (decide (p = q)) as [->|?];
      [by rewrite fn_lookup_insert | by rewrite fn_lookup_insert_ne].
  - intros q Hq. destruct (decide (p = q)) as [->|?];
      [by rewrite fn_lookup_insert | by rewrite fn_lookup_insert_ne].
Qed.

Lemma Bus_remove_passenger_present b p w :
  p ∈ bus_passenger_list (buses w b) →
  bus_passenger_list (buses (snd (Bus_remove_passenger b p w)) b)
  = py_remove p (bus_passenger_list (buses w b)) ∧
  p_current_bus (passengers (snd (Bus_remove_passenger b p w)) p) = None.
Proof.
  intros Hin. unfold Bus_remove_passenger, py_in.
  rewrite bool_decide_eq_true_2 by done. cbn [snd]. world_simpl.
  by rewrite !fn_lookup_insert.
Qed.

Lemma should_alight_frame b p w w' :
  alighting_frame b w w' →
  BusThread_should_passenger_alight b p w'
  = BusThread_should_passenger_alight b p w.
Proof.
  intros [A1 A2 A3 A4 A5 A6 A7]. unfold BusThread_should_passenger_alight.
  rewrite A4, A6. unfold Origin_stop_list. by rewrite A2.
Qed.

Lemma py_remove_middle (x : nat) (pre l : list nat) :
  x ∉ pre → py_remove x (pre ++ x :: l) = pre ++ l.
Proof.
  induction pre as [|y pre IH]; intros Hnotin; cbn [app py_remove].
  - by rewrite decide_True.
  - apply not_elem_of_cons in Hnotin as [Hne Hnotin].
    rewrite decide_False by done. by rewrite IH.
Qed.

Lemma alighting_fold (f : nat → bool) b l pre w :
  bus_passenger_list (buses w b) = pre ++ l →
  Forall (λ x, f x = false) pre →
  let w' := foldl (λ w p, snd (Bus_remove_passenger b p w)) w
                  (filter (λ p, f p = true) l) in
  bus_passenger_list (buses w' b) = pre ++ filter (λ p, f p = false) l ∧
  alighting_frame b w w' ∧
  (∀ p, p ∈ l → f p = true → p_current_bus (passengers w' p) = None).
Proof.
  revert pre w. induction l as [|y l IH]; intros pre w Hlist Hpre.
  - cbn. split; [done|]. split; [apply alighting_frame_refl|].
    intros p Hp. by apply elem_of_nil in Hp.
  - rewrite !filter_cons. destruct (f y) eqn:Hy.
    + rewrite decide_True by done. rewrite decide_False by done.
      cbn [foldl].
      assert (Hnotin : y ∉ pre).
      { intros Hin. rewrite Forall_forall in Hpre.
        specialize (Hpre y Hin). congruence. }
      destruct (Bus_remove_passenger_present b y w) as [Hl Hnone].
      { rewrite Hlist. set_solver. }
      pose proof (Bus_remove_passenger_frame b y w) as Hfr.
      set (w1 := snd (Bus_remove_passenger b y w)) in *.
      rewrite Hlist, py_remove_middle in Hl by done.
      destruct (IH pre w1 Hl Hpre) as (Hl' & Hfr' & Hnone').
      cbn zeta in *. split; [done|]. split.
      * by eapply alighting_frame_trans.
      * intros p Hp Hfp. apply elem_of_cons in Hp as [->|Hp];
          [|by apply Hnone'].
        by apply (af_no_bus _ _ _ Hfr').
    + rewrite decide_False by congruence. rewrite decide_True by done.
      destruct (IH (pre ++ [y]) w) as (Hl' & Hfr' & Hnone').
      { by rewrite <-app_assoc. }
      { apply Forall_app. split; [done|]. by apply Forall_singleton. }
      cbn zeta in *. split; [by rewrite Hl', <-app_assoc|]. split; [done|].
      intros p Hp Hfp. apply elem_of_cons in Hp as [->|Hp];
        [congruence | by apply Hnone'].
Qed.

(** The alighting step of the bus agent sets down exactly the passengers
    whose destination is the current stop (or a station containing it):
    the others stay on board in their order, nobody left on board should
    still alight, every passenger set down has [current_bus] cleared, and
    no stop's list is touched (a passenger set down is on no list). *)
Theorem handle_alighting_result (w : World) (b : nat) :
  let w' := BusThread_handle_alighting b w in
  bus_passenger_list (buses w' b)
  = filter (λ p, BusThread_should_passenger_alight b p w = false)
           (bus_passenger_list (buses w b)) ∧
  (∀ p, p ∈ bus_passenger_list (buses w' b) →
        BusThread_should_passenger_alight b p w' = false) ∧
  (∀ p, p ∈ bus_passenger_list (buses w b) →
        BusThread_should_passenger_alight b p w = true →
        p_current_bus (passengers w' p) = None) ∧
  stops w' = stops w.
Proof.
  cbn zeta. unfold BusThread_handle_alighting.
  destruct (alighting_fold (λ p, BusThread_should_passenger_alight b p w) b
              (bus_passenger_list (buses w b)) [] w eq_refl (Forall_nil_2 _))
    as (Hl & Hfr & Hnone).
  cbn zeta in *. cbn [app] in Hl. split; [done|]. split; [|split].
  - intros p Hp. rewrite (should_alight_frame b p _ _ Hfr).
    rewrite Hl in Hp. by apply list_elem_of_filter in Hp as [? _].
  - done.
  - by destruct Hfr.
Qed.

Lemma py_remove_perm (x : nat) (l : list nat) :
  x ∈ l → l ≡ₚ x :: py_remove x l.
Proof.
  induction l as [|y l IH]; [by intros ?%elem_of_nil|].
  cbn [py_remove]. case_decide as E; [by subst|].
  intros [->|Hin]%elem_of_cons; [done|].
  rewrite (IH Hin) at 1. apply Permutation_swap.
Qed.

Lemma Bus_add_passenger_current_bus b p w :
  Bus_can_accept_passengers (buses w b) 1 = true →
  ∀ q, p_current_bus (passengers (snd (Bus_add_passenger b p w)) q)
       = if decide (q = p) then Some b else p_current_bus (passengers w q).
Proof.
  intros Hroom q. unfold Bus_add_passenger. rewrite Hroom. cbn [snd].
  world_simpl. case_decide as E.
  - subst q. by rewrite fn_lookup_insert.
  - by rewrite fn_lookup_insert_ne.
Qed.

Lemma Stop_remove_passenger_present c p w :
  stop_waiting_passengers (stops w c) = stop_passenger_list (stops w c) →
  p ∈ stop_waiting_passengers (stops w c) →
  let w' := snd (Stop_remove_passenger c p w) in
  stop_waiting_passengers (stops w' c)
  = py_remove p (stop_waiting_passengers (stops w c)) ∧
  stop_passenger_list (stops w' c) = stop_waiting_passengers (stops w' c).
Proof.
  intros Heq Hin. unfold Stop_remove_passenger, py_in. rewrite <-Heq.
  rewrite bool_decide_eq_true_2 by done. cbn [snd].
  rewrite stops_upd_stop_eq, decide_True by done. cbn.
  rewrite <-Heq. by rewrite bool_decide_eq_true_2.
Qed.

Lemma boarding_loop_conserves b c ps w :
  stop_waiting_passengers (stops w c) = stop_passenger_list (stops w c) →
  ps ⊆+ stop_waiting_passengers (stops w c) →
  let w' := snd (boarding_loop b c ps w) in
  ∃ boarded,
    bus_passenger_list (buses w' b) = bus_passenger_list (buses w b) ++ boarded ∧
    stop_waiting_passengers (stops w c)
    ≡ₚ boarded ++ stop_waiting_passengers (stops w' c) ∧
    stop_passenger_list (stops w' c) = stop_waiting_passengers (stops w' c) ∧
    (∀ p, p ∈ boarded → p_current_bus (passengers w' p) = Some b) ∧
    (∀ p, p_current_bus (passengers w p) = Some b →
          p_current_bus (passengers w' p) = Some b).
Proof.
  revert w. induction ps as [|p ps IH]; intros w Heq Hsub; cbn [boarding_loop].
  { exists []. cbn. rewrite app_nil_r.
    split; [done|]. split; [done|]. split; [done|]. split; [|done].
    intros p Hp. by apply elem_of_nil in Hp. }
  assert (Hsub' : ps ⊆+ stop_waiting_passengers (stops w c)).
  { trans (p :: ps); [by apply submseteq_cons|exact Hsub]. }
  destruct (Bus_can_accept_passengers (buses w b) 1) eqn:Hroom;
    [|by apply IH].
  destruct (BusThread_can_accept_passenger b p w) as [[|]|]; [|by apply IH|].
  2:{ exists []. cbn. rewrite app_nil_r.
      split; [done|]. split; [done|]. split; [done|]. split; [|done].
      intros q Hq. by apply elem_of_nil in Hq. }
  destruct (Bus_add_passenger_ok b p w Hroom) as (w1 & Hadd & Hl & _ & Hst & _).
  pose proof (Bus_add_passenger_current_bus b p w Hroom) as Hcb.
  rewrite Hadd in *. cbn [snd] in Hcb.
  assert (Hin : p ∈ stop_waiting_passengers (stops w c)).
  { eapply elem_of_submseteq; [|exact Hsub]. by left. }
  destruct (Stop_remove_passenger_present c p w1) as [Hw2 Heq2].
  { by rewrite Hst. } { by rewrite Hst. }
  pose proof (Stop_remove_passenger_passengers c p w1) as Hp2.
  pose proof (Stop_remove_passenger_buses c p w1) as Hb2.
  set (w2 := snd (Stop_remove_passenger c p w1)) in *. cbn zeta in *.
  rewrite Hst in Hw2.
  destruct (IH w2) as (boarded & Hl' & Hperm & Heq' & Hon & Hkeep).
  { done. }
  { rewrite Hw2. apply (submseteq_app_inv_l _ _ [p]). cbn [app].
    by rewrite <-py_remove_perm. }
  exists (p :: boarded). split; [|split; [|split; [|split]]].
  - rewrite Hl', Hb2, Hl. by rewrite <-app_assoc.
  - cbn [app]. rewrite <-Hperm, Hw2. by apply py_remove_perm.
  - done.
  - intros q Hq. apply elem_of_cons in Hq as [->|Hq]; [|by apply Hon].
    apply Hkeep. rewrite Hp2, Hcb. by rewrite decide_True.
  - intros q Hq. apply Hkeep. rewrite Hp2, Hcb. by case_decide.
Qed.

(** Boarding by the bus agent loses and duplicates nobody: the passengers
    that waited at the stop are, up to order, those taken on board followed
    by those still waiting; the ones taken on board are appended to the
    bus's list and have [current_bus] set to the bus; and the stop's two
    lists still agree. *)
Theorem handle_boarding_conserves (w : World) (b c : nat) :
  bus_current_stop (buses w b) = Some c →
  stop_waiting_passengers (stops w c) = stop_passenger_list (stops w c) →
  let w' := snd (BusThread_handle_boarding b w) in
  ∃ boarded,
    bus_passenger_list (buses w' b) = bus_passenger_list (buses w b) ++ boarded ∧
    stop_waiting_passengers (stops w c)
    ≡ₚ boarded ++ stop_waiting_passengers (stops w' c) ∧
    stop_passenger_list (stops w' c) = stop_waiting_passengers (stops w' c) ∧
    (∀ p, p ∈ boarded → p_current_bus (passengers w' p) = Some b).
Proof.
  intros Hc Heq. cbn zeta. unfold BusThread_handle_boarding. rewrite Hc.
  destruct (Bus_is_full (buses w b)).
  - exists []. cbn. rewrite app_nil_r.
    split; [done|]. split; [done|]. split; [done|].
    intros p Hp. by apply elem_of_nil in Hp.
  - destruct (boarding_loop_conserves b c (stop_waiting_passengers (stops w c))
                w Heq) as (boarded & H1 & H2 & H3 & H4 & _); [done|].
    by exists boarded.
Qed.

Lemma handle_boarding_conserves_witness :
  let w := scenario (DestStation 0) in
  let w' := snd (BusThread_handle_boarding 0 w) in
  ∃ boarded,
    bus_passenger_list (buses w' 0) = bus_passenger_list (buses w 0) ++ boarded ∧
    stop_waiting_passengers (stops w 0)
    ≡ₚ boarded ++ stop_waiting_passengers (stops w' 0) ∧
    stop_passenger_list (stops w' 0) = stop_waiting_passengers (stops w' 0) ∧
    (∀ p, p ∈ boarded → p_current_bus (passengers w' p) = Some 0).
Proof.
  apply (handle_boarding_conserves (scenario (DestStation 0)) 0 0);
    reflexivity.
Defined.

Lemma py_index_elem (c : nat) (l : list nat) :
  c ∈ l → ∃ i, py_index c l = Some i.
Proof.
  induction l as [|y l IH]; [by intros ?%elem_of_nil|].
  cbn [py_index]. case_decide as E; [by eexists|].
  intros [->|Hin]%elem_of_cons; [done|].
  destruct (IH Hin) as [i ->]. by eexists.
Qed.

Lemma handle_alighting_frame b w :
  alighting_frame b w (BusThread_handle_alighting b w).
Proof.
  unfold BusThread_handle_alighting.
  by destruct (alighting_fold (λ p, BusThread_should_passenger_alight b p w) b
                 (bus_passenger_list (buses w b)) [] w eq_refl
                 (Forall_nil_2 _)) as (_ & Hfr & _).
Qed.

Lemma boarding_loop_normal b c ps w0 w :
  (∀ p, BusThread_can_accept_passenger b p w0 ≠ None) →
  boarding_frame b w0 w →
  (boarding_loop b c ps w).1 = Normal ∧
  boarding_frame b w0 (boarding_loop b c ps w).2.
Proof.
  intros Hok. revert w. induction ps as [|p ps IH]; intros w Hfr;
    cbn [boarding_loop]; [done|].
  destruct (Bus_can_accept_passengers (buses w b) 1); [|by apply IH].
  rewrite (can_accept_passenger_frame b p w0 w Hfr).
  destruct (BusThread_can_accept_passenger b p w0) as [[|]|] eqn:E;
    [|by apply IH|by destruct (Hok p)].
  destruct (boarding_frame_step b c p w0 w Hfr) as [Hrem Hadd].
  destruct (Bus_add_passenger b p w) as [added w1]. cbn [snd] in *.
  apply IH. by destruct added.
Qed.

Lemma move_frame b w :
  routes (BusThread_move_to_next_stop b w).2 = routes w ∧
  bus_current_route (buses (BusThread_move_to_next_stop b w).2 b)
  = bus_current_route (buses w b).
Proof.
  unfold BusThread_move_to_next_stop.
  destruct (bus_current_route (buses w b)) as [r|] eqn:Hr;
    [|cbn [snd]; by rewrite Hr].
  destruct (bus_current_stop (buses w b)) as [c|];
    [|cbn [snd]; by rewrite Hr].
  destruct (route_stop_list (routes w r)) as [|first rest];
    [cbn [snd]; by rewrite Hr|].
  assert (Hassign : ∀ stop w2,
            routes (assign_current_stop b stop w2) = routes w2 ∧
            bus_current_route (buses (assign_current_stop b stop w2) b)
            = bus_current_route (buses w2 b)).
  { intros stop w2. unfold assign_current_stop. world_simpl.
    by rewrite fn_lookup_insert. }
  destruct (py_index c (first :: rest)) as [i|]; cbn [snd].
  - set (next_stop := if bool_decide (i < length (first :: rest) - 1)
                      then default first ((first :: rest) !! (i + 1))
                      else first).
    destruct (call_bus_departure_frame c b w) as (_ & Hb1 & Hr1).
    destruct (call_bus_arrival_frame next_stop b
                (assign_current_stop b next_stop
                   (snd (call_bus_departure c b w)))) as (_ & Hb2 & Hr2).
    cbn zeta in *. rewrite Hb2, Hr2.
    destruct (Hassign next_stop (snd (call_bus_departure c b w))) as [-> ->].
    by rewrite Hb1, Hr1, Hr.
  - destruct (Hassign first w) as [-> ->]. by rewrite Hr.
Qed.

Lemma cycle_on_route w b r c i :
  bus_current_route (buses w b) = Some r →
  bus_current_stop (buses w b) = Some c →
  py_index c (route_stop_list (routes w r)) = Some i →
  ∃ next_stop,
    route_successor (route_stop_list (routes w r)) i = Some next_stop ∧
    (BusThread_handle_passenger_exchange b w).1 = Normal ∧
    bus_current_stop (buses (BusThread_cycle b w) b) = Some next_stop ∧
    bus_current_route (buses (BusThread_cycle b w) b) = Some r ∧
    routes (BusThread_cycle b w) = routes w.
Proof.
  intros Hr Hc Hi. unfold BusThread_cycle. rewrite Hr, Hc.
  assert (Hex : (BusThread_handle_passenger_exchange b w).1 = Normal ∧
                boarding_frame b (BusThread_handle_alighting b w)
                  (BusThread_handle_passenger_exchange b w).2).
  { unfold BusThread_handle_passenger_exchange. rewrite Hc.
    unfold BusThread_handle_boarding.
    destruct (Bus_is_full _); [split; [done|apply boarding_frame_refl]|].
    destruct (handle_alighting_frame b w) as [A1 A2 A3 A4 A5 A6 A7].
    rewrite A4, Hc. apply boarding_loop_normal; [|apply boarding_frame_refl].
    intros p. unfold BusThread_can_accept_passenger.
    rewrite A5, A4, A3, Hr, Hc. cbn zeta. rewrite Hi.
    by destruct (Origin_stop_list _ _). }
  destruct Hex as [Hnormal Hfr].
  destruct (handle_alighting_frame b w) as [A1 A2 A3 A4 A5 A6 A7].
  destruct Hfr as [B1 B2 B3 B4 B5 B6].
  destruct (BusThread_handle_passenger_exchange b w) as [o w2].
  cbn [fst snd] in *. subst o.
  destruct (advance_route_step w2 b r c i) as (next_stop & w3 & Hs & Hmv & Hn).
  { by rewrite B3, A5. } { by rewrite B4, A4. } { by rewrite B1, A3. }
  destruct (move_frame b w2) as [Hrt Hbr]. rewrite Hmv in *. cbn [snd] in *.
  exists next_stop. rewrite B1, A3 in Hs.
  split; [done|]. split; [done|]. split; [done|]. split.
  - by rewrite Hbr, B3, A5.
  - by rewrite Hrt, B1, A3.
Qed.

(** A bus that is on its route stays on it: the passenger exchange of a
    cycle raises no exception (so the advance is never skipped), after the
    cycle the bus is again at a stop of its route, and the cycle changes
    neither the bus's route nor any route's stop list. *)
Theorem bus_stays_on_route (w : World) (b : nat) :
  bus_on_route b w →
  (BusThread_handle_passenger_exchange b w).1 = Normal ∧
  bus_on_route b (BusThread_cycle b w) ∧
  bus_current_route (buses (BusThread_cycle b w) b)
  = bus_current_route (buses w b) ∧
  routes (BusThread_cycle b w) = routes w.
Proof.
  intros (r & c & Hr & Hc & Hin).
  destruct (py_index_elem _ _ Hin) as [i Hi].
  destruct (cycle_on_route w b r c i Hr Hc Hi)
    as (next_stop & Hs & Hn & Hc' & Hr' & Hrt).
  split; [done|]. split; [|by rewrite Hr', Hr].
  exists r, next_stop. split; [done|]. split; [done|]. rewrite Hrt.
  unfold route_successor in Hs.
  destruct (bool_decide _); by eapply list_elem_of_lookup_2.
Qed.

Lemma bus_stays_on_route_witness :
  (BusThread_handle_passenger_exchange 0 scenario_A).1 = Normal ∧
  bus_on_route 0 (BusThread_cycle 0 scenario_A).
Proof.
  destruct (bus_stays_on_route scenario_A 0) as (H1 & H2 & _).
  - exists 0, 0. split; [reflexivity|]. split; [reflexivity|].
    apply list_elem_of_In. cbn. lia.
  - split; [exact H1|exact H2].
Defined.

Lemma py_index_NoDup (l : list nat) (i c : nat) :
  NoDup l → l !! i = Some c → py_index c l = Some i.
Proof.
  intros Hnd Hl. destruct (py_index_elem c l) as [j Hj];
    [by eapply list_elem_of_lookup_2|].
  rewrite Hj. f_equal.
  eapply NoDup_lookup; [exact Hnd|by apply py_index_lookup|exact Hl].
Qed.

(** On a route without repeated stops the bus agent goes round the route:
    starting at the stop of index [i], after [n] cycles the bus is at the
    stop of index [(i + n) mod length]. *)
Theorem bus_position_after_cycles (w : World) (b r i n : nat) :
  bus_current_route (buses w b) = Some r →
  NoDup (route_stop_list (routes w r)) →
  i < length (route_stop_list (routes w r)) →
  bus_current_stop (buses w b) = route_stop_list (routes w r) !! i →
  bus_current_stop (buses (Nat.iter n (BusThread_cycle b) w) b)
  = route_stop_list (routes w r)
      !! ((i + n) mod length (route_stop_list (routes w r))).
Proof.
  intros Hr Hnd Hi Hc.
  set (l := route_stop_list (routes w r)) in *.
  assert (Hpos : length l ≠ 0) by lia.
  assert (H : bus_current_stop (buses (Nat.iter n (BusThread_cycle b) w) b)
              = l !! ((i + n) mod length l) ∧
              bus_current_route (buses (Nat.iter n (BusThread_cycle b) w) b)
              = Some r ∧
              routes (Nat.iter n (BusThread_cycle b) w) = routes w);
    [|by destruct H].
  induction n as [|n (IHc & IHr & IHrt)].
  - change (Nat.iter 0 (BusThread_cycle b) w) with w.
    rewrite Nat.add_0_r, Nat.mod_small by done. done.
  - rewrite !Nat.iter_succ. set (wn := Nat.iter n (BusThread_cycle b) w) in *.
    pose proof (Nat.mod_upper_bound (i + n) (length l) Hpos) as Hlt.
    destruct (lookup_lt_is_Some_2 l _ Hlt) as [c Hlc].
    rewrite Hlc in IHc.
    destruct (cycle_on_route wn b r c ((i + n) mod length l) IHr IHc)
      as (next_stop & Hs & _ & Hc' & Hr' & Hrt').
    { rewrite IHrt. by apply py_index_NoDup. }
    rewrite IHrt in Hs. fold l in Hs.
    split; [|split; [done|by rewrite Hrt']].
    rewrite Hc', <-Hs. unfold route_successor.
    replace (i + S n) with (S (i + n)) by lia.
    rewrite <-(Nat.add_1_r (i + n)).
    rewrite <-(Nat.Div0.add_mod_idemp_l (i + n) 1).
    case_bool_decide as Hw.
    + by rewrite (Nat.mod_small _ _ Hw).
    + assert (E : (i + n) mod length l + 1 = length l) by lia.
      by rewrite E, Nat.Div0.mod_same.
Qed.

Lemma bus_position_after_cycles_witness :
  bus_current_stop (buses (Nat.iter 3 (BusThread_cycle 0) scenario_A) 0)
  = Some 1.
Proof.
  apply (bus_position_after_cycles scenario_A 0 0 0 3).
  - reflexivity.
  - repeat constructor; rewrite ?list_elem_of_In; cbn; lia.
  - cbn. lia.
  - reflexivity.
Defined.

(** The initialisation check of the bus agent: when it succeeds on a bus
    whose route has stops, the bus is on its route afterwards; a bus
    already on its route is accepted as it is; and a second call returns
    the same answer and changes nothing more. *)
Theorem verify_and_fix_establishes (w : World) (b : nat) :
  let res := BusThread_verify_and_fix_bus_initialization b w in
  (∀ r, res.1 = true → bus_current_route (buses w b) = Some r →
        route_stop_list (routes w r) ≠ [] → bus_on_route b res.2) ∧
  (bus_on_route b w → res = (true, w)) ∧
  BusThread_verify_and_fix_bus_initialization b res.2 = res.
Proof.
  cbn zeta. unfold BusThread_verify_and_fix_bus_initialization, bus_on_route.
  destruct (bus_current_route (buses w b)) as [r|] eqn:Hr; cbn [fst snd].
  2:{ rewrite Hr. split; [done|]. split; [|done].
      by intros (? & ? & ? & _). }
  destruct (bus_current_stop (buses w b)) as [c|] eqn:Hc.
  - unfold py_in. destruct (decide (c ∈ route_stop_list (routes w r))) as [Hin|Hn].
    + rewrite bool_decide_eq_true_2 by done. cbn [fst snd]. rewrite Hr, Hc.
      rewrite bool_decide_eq_true_2 by done. split; [|done].
      intros r' _ [= <-] _. by exists r, c.
    + rewrite bool_decide_eq_false_2 by done.
      destruct (route_stop_list (routes w r)) as [|first rest] eqn:Hl;
        cbn [fst snd].
      * rewrite Hr, Hc, Hl. unfold py_in.
        rewrite bool_decide_eq_false_2 by done. split; [done|]. split; [|done].
        intros (r' & c' & [= <-] & [= <-] & Hin). by rewrite Hl in Hin.
      * world_simpl. rewrite fn_lookup_insert. cbn. rewrite Hr, Hl.
        unfold py_in. rewrite bool_decide_eq_true_2 by left.
        split; [|split; [|done]].
        -- intros r' _ [= <-] _. exists r, first. rewrite Hl.
           split; [done|]. split; [done|]. left.
        -- intros (r' & c' & [= <-] & [= <-] & Hin). by rewrite Hl in Hin.
  - destruct (route_stop_list (routes w r)) as [|first rest] eqn:Hl;
      cbn [fst snd].
    + rewrite Hr, Hc, Hl. split; [by intros r' _ [= <-] Hne|].
      split; [|done].
      intros (? & ? & _ & ? & _). congruence.
    + world_simpl. rewrite fn_lookup_insert. cbn. rewrite Hr, Hl.
      unfold py_in. rewrite bool_decide_eq_true_2 by left.
      split; [|split; [|done]].
      * intros r' _ [= <-] _. exists r, first. rewrite Hl.
        split; [done|]. split; [done|]. left.
      * intros (? & ? & _ & ? & _). congruence.
Qed.

Lemma stops_call_bus_arrival s bus w s' :
  stops (call_bus_arrival s bus w).2 s'
  = if decide (s = s') then (Stop_bus_arrival bus (stops w s)).2
    else stops w s'.
Proof.
  unfold call_bus_arrival. rewrite stops_emit.
  destruct (Stop_bus_arrival bus (stops w s)) as [res x]. cbn [snd].
  by rewrite stops_upd_stop_eq, stops_emit.
Qed.

Lemma stops_call_bus_departure s bus w s' :
  stops (call_bus_departure s bus w).2 s'
  = if decide (s = s') then (Stop_bus_departure bus (stops w s)).2
    else stops w s'.
Proof.
  unfold call_bus_departure. rewrite stops_emit.
  destruct (Stop_bus_departure bus (stops w s)) as [res x]. cbn [snd].
  by rewrite stops_upd_stop_eq, stops_emit.
Qed.

Lemma Stop_bus_arrival_registers bus x :
  bus ∈ stop_current_buses (Stop_bus_arrival bus x).2 ∨
  bus ∈ stop_bus_queue (Stop_bus_arrival bus x).2.
Proof.
  unfold Stop_bus_arrival. destruct (stop_is_occupied x); cbn.
  - right. set_solver.
  - left. set_solver.
Qed.

(** Where the advance of the bus agent leaves the bus in the stops'
    admission state: at the new stop the bus is admitted or waits in the
    queue; stops other than the old and the new one are untouched; and a
    bus that was not admitted at the old stop (it was only queued there)
    leaves that stop exactly as it was, so it stays in its queue. *)
Theorem advance_admission (w : World) (b r c i : nat) :
  bus_current_route (buses w b) = Some r →
  bus_current_stop (buses w b) = Some c →
  py_index c (route_stop_list (routes w r)) = Some i →
  let w' := (BusThread_move_to_next_stop b w).2 in
  ∃ next_stop,
    bus_current_stop (buses w' b) = Some next_stop ∧
    (b ∈ stop_current_buses (stops w' next_stop) ∨
     b ∈ stop_bus_queue (stops w' next_stop)) ∧
    (∀ s, s ≠ c → s ≠ next_stop → stops w' s = stops w s) ∧
    (next_stop ≠ c → b ∉ stop_current_buses (stops w c) →
     stops w' c = stops w c).
Proof.
  intros Hr Hc Hi. cbn zeta. unfold BusThread_move_to_next_stop.
  rewrite Hr, Hc. pose proof (py_index_lt _ _ _ Hi) as Hlt.
  destruct (route_stop_list (routes w r)) as [|first rest];
    [cbn in Hlt; lia|].
  rewrite Hi. cbn [snd].
  set (n := if bool_decide (i < length (first :: rest) - 1)
            then default first ((first :: rest) !! (i + 1)) else first).
  exists n. split.
  { destruct (call_bus_arrival_frame n b
                (assign_current_stop b n (call_bus_departure c b w).2))
      as (_ & Hb & _).
    cbn zeta in Hb. rewrite Hb. unfold assign_current_stop. world_simpl.
    by rewrite fn_lookup_insert. }
  unfold assign_current_stop.
  split; [|split].
  - rewrite stops_call_bus_arrival, decide_True by done.
    apply Stop_bus_arrival_registers.
  - intros s Hsc Hsn. rewrite stops_call_bus_arrival, decide_False by done.
    rewrite stops_emit. change (stops (upd_bus ?b ?f ?w)) with (stops w).
    by rewrite stops_call_bus_departure, decide_False.
  - intros Hne Hnot. rewrite stops_call_bus_arrival, decide_False by done.
    rewrite stops_emit. change (stops (upd_bus ?b ?f ?w)) with (stops w).
    rewrite stops_call_bus_departure, decide_True by done.
    unfold Stop_bus_departure. by rewrite bool_decide_eq_false_2.
Qed.

Lemma advance_admission_witness :
  let w' := (BusThread_move_to_next_stop 0 scenario_A).2 in
  ∃ next_stop,
    bus_current_stop (buses w' 0) = Some next_stop ∧
    (0 ∈ stop_current_buses (stops w' next_stop) ∨
     0 ∈ stop_bus_queue (stops w' next_stop)) ∧
    (∀ s, s ≠ 0 → s ≠ next_stop → stops w' s = stops scenario_A s) ∧
    (next_stop ≠ 0 → 0 ∉ stop_current_buses (stops scenario_A 0) →
     stops w' 0 = stops scenario_A 0).
Proof. apply (advance_admission scenario_A 0 0 0 0); reflexivity. Defined.

(** ** Passenger agent *)

Lemma passenger_only_refl p w : passenger_only p w w.
Proof. by split. Qed.

Lemma Passenger_board_bus_only p bus w :
  passenger_only p w (Passenger_board_bus p bus w).2.
Proof.
  unfold Passenger_board_bus.
  destruct (negb _); [apply passenger_only_refl|].
  destruct (negb _); [apply passenger_only_refl|].
  cbn [snd]. destruct (p_current_stop _); split; world_simpl; try done;
    intros q Hq; by rewrite !fn_lookup_insert_ne.
Qed.

Lemma Passenger_alight_bus_only p stop w :
  passenger_only p w (Passenger_alight_bus p stop w).2.
Proof.
  rewrite Passenger_alight_bus_world.
  destruct (negb _); [apply passenger_only_refl|].
  split; world_simpl; try done.
  intros q Hq. by rewrite !fn_lookup_insert_ne.
Qed.

Lemma Passenger_board_bus_refused p bus w :
  (Passenger_board_bus p bus w).1 = false → (Passenger_board_bus p bus w).2 = w.
Proof.
  unfold Passenger_board_bus.
  destruct (negb _); [done|]. by destruct (negb _).
Qed.

Lemma try_board_loop_spec p l w :
  try_board_loop p l w = w ∨
  ∃ bus, bus ∈ l ∧ PassengerThread_can_board_bus p bus w = true ∧
         (Passenger_board_bus p bus w).1 = true ∧
         try_board_loop p l w = (Passenger_board_bus p bus w).2.
Proof.
  induction l as [|bus l IH]; cbn [try_board_loop]; [by left|].
  destruct (PassengerThread_can_board_bus p bus w) eqn:Hcan.
  - pose proof (Passenger_board_bus_refused p bus w) as Href.
    destruct (Passenger_board_bus p bus w) as [[|] w1] eqn:Hb; cbn [fst snd] in *.
    + right. exists bus. rewrite Hb. split; [left|done].
    + rewrite Href by done. destruct IH as [IH|(bus' & Hin & ? & ? & ?)];
        [by left|]. right. exists bus'. split; [by right|done].
  - destruct IH as [IH|(bus' & Hin & ? & ? & ?)]; [by left|].
    right. exists bus'. split; [by right|done].
Qed.

(** The passenger agent only ever writes its own passenger: one iteration
    changes no bus (in particular no bus's passenger list), no stop (in
    particular no waiting list), no route, no station and no other
    passenger. *)
Theorem passenger_agent_frame (iteration : SetIteration) (w : World)
    (p : nat) :
  let w' := PassengerThread_cycle iteration p w in
  buses w' = buses w ∧ stops w' = stops w ∧ routes w' = routes w ∧
  stations w' = stations w ∧
  (∀ q, q ≠ p → passengers w' q = passengers w q).
Proof.
  cbn zeta.
  assert (H : passenger_only p w (PassengerThread_cycle iteration p w));
    [|by destruct H].
  unfold PassengerThread_cycle.
  destruct (p_status (passengers w p)); try apply passenger_only_refl.
  - unfold PassengerThread_try_board_bus.
    destruct (p_current_stop (passengers w p)) as [c|];
      [|apply passenger_only_refl].
    destruct (try_board_loop_spec p
                (visit iteration (stop_current_buses (stops w c))) w) as [->|(bus & _ & _ & _ & ->)];
      [apply passenger_only_refl|apply Passenger_board_bus_only].
  - unfold PassengerThread_check_arrival.
    destruct (p_current_bus (passengers w p)) as [bus|];
      [|apply passenger_only_refl].
    destruct (bus_current_stop (buses w bus)) as [c|];
      [|apply passenger_only_refl].
    destruct (PassengerThread_should_alight_at_stop p c w);
      [apply Passenger_alight_bus_only|apply passenger_only_refl].
Qed.

(** When a waiting passenger's agent boards, it boards a bus admitted at
    the passenger's stop that has a free seat and that the agent's own test
    accepts; the passenger is then IN_BUS with [current_bus] set, but it is
    not put on the bus's passenger list and it stays on the stop's waiting
    list.  Otherwise the iteration changes nothing. *)
Theorem passenger_agent_boarding (iteration : SetIteration) (w : World)
    (p : nat) :
  p_status (passengers w p) = STATUS_WAITING →
  let w' := PassengerThread_cycle iteration p w in
  w' = w ∨
  ∃ c bus,
    p_current_stop (passengers w p) = Some c ∧
    bus ∈ stop_current_buses (stops w c) ∧
    PassengerThread_can_board_bus p bus w = true ∧
    Bus_can_accept_passengers (buses w bus) 1 = true ∧
    p_status (passengers w' p) = STATUS_IN_BUS ∧
    p_current_bus (passengers w' p) = Some bus ∧
    bus_passenger_list (buses w' bus) = bus_passenger_list (buses w bus) ∧
    stop_waiting_passengers (stops w' c) = stop_waiting_passengers (stops w c).
Proof.
  intros Hst. cbn zeta. unfold PassengerThread_cycle. rewrite Hst.
  unfold PassengerThread_try_board_bus.
  destruct (p_current_stop (passengers w p)) as [c|]; [|by left].
  destruct (try_board_loop_spec p
              (visit iteration (stop_current_buses (stops w c))) w)
    as [->|(bus & Hin & Hcan & Hok & ->)]; [by left|].
  right. exists c, bus. apply visit_elem_of in Hin.
  assert (Hroom : Bus_can_accept_passengers (buses w bus) 1 = true).
  { revert Hok. unfold Passenger_board_bus. rewrite Hst.
    rewrite bool_decide_eq_true_2 by done. cbn [negb].
    by destruct (Bus_can_accept_passengers _ _). }
  destruct (Passenger_board_bus_ok p bus w Hst Hroom)
    as (Hb & Hs & Hst' & Hcb & _).
  cbn zeta in *. rewrite Hb, Hs. done.
Qed.

Lemma passenger_agent_boarding_witness :
  let w := (call_bus_arrival 0 0 (scenario (DestStation 0))).2 in
  let w' := PassengerThread_cycle ascending_iteration 0 w in
  w' = w ∨
  ∃ c bus,
    p_current_stop (passengers w 0) = Some c ∧
    bus ∈ stop_current_buses (stops w c) ∧
    PassengerThread_can_board_bus 0 bus w = true ∧
    Bus_can_accept_passengers (buses w bus) 1 = true ∧
    p_status (passengers w' 0) = STATUS_IN_BUS ∧
    p_current_bus (passengers w' 0) = Some bus ∧
    bus_passenger_list (buses w' bus) = bus_passenger_list (buses w bus) ∧
    stop_waiting_passengers (stops w' c) = stop_waiting_passengers (stops w c).
Proof.
  apply (passenger_agent_boarding ascending_iteration
           (call_bus_arrival 0 0 (scenario (DestStation 0))).2 0).
  reflexivity.
Defined.

(** When the agent of a passenger IN_BUS sets the passenger down, at a stop
    that is its destination or belongs to its destination station, the
    passenger does not become ARRIVED: it ends WAITING at the bus's stop
    with [current_bus] cleared, because [alight_bus] never finds it at its
    destination.  The bus's passenger list is left as it was (the passenger
    is still on it if it was).  When the stop is not the destination the
    iteration changes nothing. *)
Theorem passenger_agent_alighting (iteration : SetIteration) (w : World)
    (p bus c : nat) :
  p_status (passengers w p) = STATUS_IN_BUS →
  p_current_bus (passengers w p) = Some bus →
  bus_current_stop (buses w bus) = Some c →
  let w' := PassengerThread_cycle iteration p w in
  (PassengerThread_should_alight_at_stop p c w = true →
   p_status (passengers w' p) = STATUS_WAITING ∧
   p_current_stop (passengers w' p) = Some c ∧
   p_current_bus (passengers w' p) = None ∧
   bus_passenger_list (buses w' bus) = bus_passenger_list (buses w bus)) ∧
  (PassengerThread_should_alight_at_stop p c w = false → w' = w).
Proof.
  intros Hst Hb Hc. cbn zeta. unfold PassengerThread_cycle. rewrite Hst.
  unfold PassengerThread_check_arrival. rewrite Hb, Hc.
  split; intros Hal; rewrite Hal; [|done].
  rewrite Passenger_alight_bus_world, Hst.
  rewrite bool_decide_eq_true_2 by done. cbn [negb]. self_simpl. done.
Qed.

Lemma passenger_agent_alighting_witness :
  let w := run [OpBusCycle 0; OpBoardBus 0 0] (scenario (DestStation 0)) in
  PassengerThread_should_alight_at_stop 0 1 w = true ∧
  p_status (passengers (PassengerThread_cycle descending_iteration 0 w) 0)
  = STATUS_WAITING.
Proof.
  intros w. split; [reflexivity|].
  destruct (passenger_agent_alighting descending_iteration w 0 0 1)
    as [H _];
    [reflexivity..|].
  by destruct (H eq_refl) as (? & _).
Defined.

(** The passenger agent's test is stricter than the bus agent's: with the
    bus at a stop of its route, a passenger the passenger agent would board
    is one the bus agent accepts too.  And like the bus agent's, it refuses
    every passenger whose destination is a [Stop]: such a passenger's agent
    never boards. *)
Theorem passenger_agent_stricter (w : World) (p bus r c i : nat) :
  bus_current_route (buses w bus) = Some r →
  bus_current_stop (buses w bus) = Some c →
  py_index c (route_stop_list (routes w r)) = Some i →
  (PassengerThread_can_board_bus p bus w = true →
   BusThread_can_accept_passenger bus p w = Some true) ∧
  (∀ s, p_destination (passengers w p) = DestStop s →
        PassengerThread_can_board_bus p bus w = false).
Proof.
  intros Hr Hc Hi.
  unfold PassengerThread_can_board_bus, BusThread_can_accept_passenger.
  rewrite Hr, Hc. cbn zeta. cbn [mbind option_bind]. rewrite Hi. split.
  - destruct (Origin_stop_list (p_destination (passengers w p)) w) as [l|];
      cbn [default]; [|done].
    intros (s & Hs & Hlt)%existsb_exists. f_equal.
    apply existsb_exists. exists s. split; [done|].
    destruct (py_index s (route_stop_list (routes w r))) as [j|] eqn:Hj;
      [|done].
    apply bool_decide_eq_true_1 in Hlt. apply bool_decide_eq_true_2.
    apply py_index_lookup in Hj.
    eapply (list_elem_of_lookup_2 _ (j - i)). rewrite lookup_drop.
    by replace (i + (j - i)) with j by lia.
  - intros s ->. done.
Qed.

Lemma passenger_agent_stricter_witness :
  BusThread_can_accept_passenger 0 0 (scenario (DestStation 0)) = Some true.
Proof.
  destruct (passenger_agent_stricter (scenario (DestStation 0)) 0 0 0 0 0)
    as [H _]; [reflexivity..|].
  apply H. reflexivity.
Defined.

(** ** Routes *)

Lemma py_index_None (c : nat) (l : list nat) : c ∉ l → py_index c l = None.
Proof.
  intros Hn. destruct (py_index c l) as [i|] eqn:E; [|done].
  destruct Hn. eapply list_elem_of_lookup_2. by apply py_index_lookup.
Qed.

Lemma py_remove_at (x : nat) (l : list nat) (i : nat) :
  py_index x l = Some i → py_remove x l = take i l ++ drop (S i) l.
Proof.
  revert i. induction l as [|y l IH]; intros i; cbn [py_index py_remove];
    [done|].
  case_decide as E.
  - by intros [= <-].
  - destruct (py_index x l) as [j|]; [|done]. intros [= <-].
    cbn. by rewrite (IH j).
Qed.

Lemma lookup_remove_at (l : list nat) (pos k : nat) :
  pos < length l →
  (take pos l ++ drop (S pos) l) !! k
  = if decide (k < pos) then l !! k else l !! (S k).
Proof.
  intros Hpos. case_decide as Hk.
  - rewrite lookup_app_l by (rewrite length_take; lia).
    by rewrite lookup_take_lt.
  - rewrite lookup_app_r by (rewrite length_take; lia).
    rewrite length_take, lookup_drop. f_equal. lia.
Qed.

Lemma forallb_adjacent (nb : nat → gset nat) (l : list nat) :
  forallb (λ i, match l !! i, l !! (i + 1) with
                | Some a, Some b => bool_decide (b ∈ nb a)
                | _, _ => true
                end) (seq 0 (length l - 1)) = true
  ↔ adjacent nb l.
Proof.
  rewrite forallb_forall. split.
  - intros H i a b Ha Hb. apply lookup_lt_Some in Hb as Hlt.
    assert (Hin : In i (seq 0 (length l - 1))) by (apply in_seq; lia).
    specialize (H i Hin). rewrite Ha, Hb in H.
    by apply bool_decide_eq_true_1 in H.
  - intros H i _. destruct (l !! i) as [a|] eqn:Ha; [|done].
    destruct (l !! (i + 1)) as [b|] eqn:Hb; [|done].
    apply bool_decide_eq_true_2. by eapply H.
Qed.

(** On a route without repeated stops, [get_next_stop] and
    [get_previous_stop] are inverse to each other: [b] follows [a] exactly
    when [a] precedes [b]. *)
Theorem route_next_previous (x : Route) (a b : nat) :
  NoDup (route_stop_list x) →
  Route_get_next_stop x a = Some b ↔ Route_get_previous_stop x b = Some a.
Proof.
  intros Hnd. unfold Route_get_next_stop, Route_get_previous_stop. split.
  - destruct (py_index a (route_stop_list x)) as [i|] eqn:Hi; [|done].
    case_bool_decide as Hlt; [|done]. intros Hb.
    rewrite (py_index_NoDup _ _ _ Hnd Hb).
    rewrite bool_decide_eq_true_2 by lia.
    replace (i + 1 - 1) with i by lia. by apply py_index_lookup.
  - destruct (py_index b (route_stop_list x)) as [j|] eqn:Hj; [|done].
    case_bool_decide as Hlt; [|done]. intros Ha.
    rewrite (py_index_NoDup _ _ _ Hnd Ha).
    pose proof (py_index_lt _ _ _ Hj).
    rewrite bool_decide_eq_true_2 by lia.
    replace (j - 1 + 1) with j by lia. by apply py_index_lookup.
Qed.

Lemma route_next_previous_witness :
  Route_get_next_stop (mkRoute [4; 7; 9]) 7 = Some 9
  ↔ Route_get_previous_stop (mkRoute [4; 7; 9]) 9 = Some 7.
Proof.
  apply route_next_previous.
  repeat constructor; rewrite ?list_elem_of_In; cbn; lia.
Defined.

(** [get_stops_between] read in the other direction gives the same stops
    in reverse order (and [None] in both directions when one of the two
    stops is not on the route). *)
Theorem stops_between_reverse (x : Route) (a b : nat) :
  Route_get_stops_between x b a = @rev nat <$> Route_get_stops_between x a b.
Proof.
  unfold Route_get_stops_between.
  destruct (py_index a (route_stop_list x)) as [i|],
           (py_index b (route_stop_list x)) as [j|]; try done.
  cbn [fmap option_fmap option_map]. f_equal.
  destruct (decide (i < j)) as [Hij|Hij].
  - rewrite (bool_decide_eq_true_2 (i < j)) by done.
    by rewrite (bool_decide_eq_false_2 (j < i)) by lia.
  - rewrite (bool_decide_eq_false_2 (i < j)) by done. rewrite rev_involutive.
    destruct (decide (j < i)) as [Hji|Hji].
    + by rewrite bool_decide_eq_true_2.
    + rewrite bool_decide_eq_false_2 by done.
      assert (i = j) as -> by lia. unfold py_slice.
      replace (j - (j + 1)) with 0 by lia. by rewrite take_0.
Qed.

Lemma rev_reverse (l : list nat) : rev l = reverse l.
Proof. unfold reverse. apply List.rev_alt. Qed.

(** The route created by [create_reverse_route] runs the other way: on a
    route without repeated stops, the next stop on the reverse route is the
    previous stop on the route. *)
Theorem reverse_route_next (x : Route) (a : nat) :
  NoDup (route_stop_list x) →
  Route_get_next_stop (Route_create_reverse_route x) a
  = Route_get_previous_stop x a.
Proof.
  intros Hnd. unfold Route_get_next_stop, Route_get_previous_stop,
    Route_create_reverse_route. cbn [route_stop_list].
  set (l := route_stop_list x) in *.
  destruct (py_index a l) as [i|] eqn:Hi.
  - pose proof (py_index_lt _ _ _ Hi) as Hlt.
    apply py_index_lookup in Hi.
    assert (Hr : py_index a (rev l) = Some (length l - 1 - i)).
    { rewrite rev_reverse.
      apply py_index_NoDup; [by rewrite reverse_Permutation|].
      rewrite reverse_lookup by lia.
      rewrite <-Hi. f_equal. lia. }
    rewrite Hr, rev_reverse, length_reverse.
    destruct (decide (0 < i)) as [Hpos|Hpos].
    + rewrite !bool_decide_eq_true_2 by lia.
      rewrite reverse_lookup by lia. f_equal. lia.
    + by rewrite !bool_decide_eq_false_2 by lia.
  - rewrite py_index_None; [done|].
    rewrite rev_reverse, elem_of_reverse. intros Hin.
    destruct (py_index_elem a l Hin) as [i Hi']. congruence.
Qed.

Lemma reverse_route_next_witness :
  Route_get_next_stop (Route_create_reverse_route (mkRoute [4; 7; 9])) 7
  = Some 4.
Proof.
  apply (reverse_route_next (mkRoute [4; 7; 9]) 7).
  repeat constructor; rewrite ?list_elem_of_In; cbn; lia.
Defined.

(** [remove_stop] keeps a valid route valid: when it succeeds on a route
    that [is_valid] accepts, the shortened route is accepted too, with the
    same first and last stop and one stop less. *)
Theorem remove_stop_keeps_valid (nb : nat → gset nat)
    (os oe : option OriginView) (x x' : Route) (stop : nat) :
  Route_is_valid nb os oe x = true →
  Route_remove_stop nb x stop = (true, x') →
  Route_is_valid nb os oe x' = true ∧
  S (length (route_stop_list x')) = length (route_stop_list x) ∧
  route_stop_list x' !! 0 = route_stop_list x !! 0 ∧
  last (route_stop_list x') = last (route_stop_list x).
Proof.
  unfold Route_remove_stop, Route_is_valid. set (l := route_stop_list x).
  intros Hvalid Hrm.
  destruct (py_index stop l) as [pos|] eqn:Hpos; [|done].
  pose proof (py_index_lt _ _ _ Hpos) as Hlt.
  destruct (decide (pos = 0)) as [->|Hne0];
    [by rewrite bool_decide_eq_true_2 in Hrm|].
  rewrite (bool_decide_eq_false_2 (pos = 0)) in Hrm by done.
  destruct (decide (pos = length l - 1)) as [Hlast|Hnelast];
    [by rewrite bool_decide_eq_true_2 in Hrm|].
  rewrite bool_decide_eq_false_2 in Hrm by done. cbn [orb] in Hrm.
  destruct (l !! (pos - 1)) as [prev_stop|] eqn:Hprev; [|done].
  destruct (l !! (pos + 1)) as [next_stop|] eqn:Hnext; [|done].
  case_bool_decide as Hnb; [|done]. injection Hrm as <-.
  cbn [route_stop_list]. rewrite (py_remove_at _ _ _ Hpos).
  set (l' := take pos l ++ drop (S pos) l).
  assert (Hlen : S (length l') = length l).
  { unfold l'. rewrite length_app, length_take, length_drop. lia. }
  assert (H0 : l' !! 0 = l !! 0).
  { unfold l'. rewrite lookup_remove_at by done. rewrite decide_True; [done|lia]. }
  assert (Hla : last l' = last l).
  { rewrite !last_lookup. unfold l'. rewrite lookup_remove_at by done.
    fold l'. rewrite decide_False by lia. f_equal. lia. }
  split; [|done].
  rewrite H0, Hla.
  rewrite bool_decide_eq_false_2 by lia.
  case_bool_decide as Hl2; [done|].
  destruct (forallb _ (seq 0 (length l - 1))) eqn:Hadj; [|done].
  cbn [negb] in Hvalid.
  apply forallb_adjacent in Hadj.
  rewrite (proj2 (forallb_adjacent nb l')); [exact Hvalid|].
  intros i a b Ha Hb. unfold l' in Ha, Hb.
  rewrite lookup_remove_at in Ha, Hb by done.
  destruct (decide (i + 1 < pos)) as [H1|H1].
  - rewrite decide_True in Ha by lia. by eapply Hadj.
  - destruct (decide (i < pos)) as [H2|H2].
    + assert (i = pos - 1) as -> by lia.
      replace (S (pos - 1 + 1)) with (pos + 1) in Hb by lia.
      congruence.
    + apply (Hadj (S i)); [done|]. by replace (S i + 1) with (S (i + 1)) by lia.
Qed.

Lemma remove_stop_keeps_valid_witness :
  Route_is_valid (λ _, {[4; 7; 9]}) None None (mkRoute [4; 9]) = true.
Proof.
  apply (remove_stop_keeps_valid (λ _, {[4; 7; 9]}) None None
           (mkRoute [4; 7; 9]) (mkRoute [4; 9]) 7); reflexivity.
Defined.

(** [Bus.get_route_destinations] of a bus on its route is the current stop
    followed by what [Route.get_remaining_stops] returns for it; it is the
    list of forward stops the bus agent's boarding test searches. *)
Theorem route_destinations_remaining (w : World) (b r c : nat) :
  bus_current_route (buses w b) = Some r →
  bus_current_stop (buses w b) = Some c →
  c ∈ route_stop_list (routes w r) →
  Bus_get_route_destinations b w
  = c :: Route_get_remaining_stops (routes w r) c ∧
  forward_stops b w = Some (Bus_get_route_destinations b w).
Proof.
  intros Hr Hc Hin. unfold Bus_get_route_destinations, forward_stops,
    Route_get_remaining_stops.
  rewrite Hr, Hc. cbn [mbind option_bind].
  destruct (py_index_elem _ _ Hin) as [i Hi]. rewrite Hi. cbn.
  split; [|done]. apply py_index_lookup in Hi.
  rewrite Nat.add_1_r. by apply drop_S.
Qed.

Lemma route_destinations_remaining_witness :
  Bus_get_route_destinations 0 scenario_A
  = 0 :: Route_get_remaining_stops (routes scenario_A 0) 0.
Proof.
  apply (route_destinations_remaining scenario_A 0 0 0);
    [reflexivity..|]. apply list_elem_of_In. cbn. lia.
Defined.

(** ** Neighbours and connections *)

Lemma fn_insert_decide {B} (f : nat → B) (k a : nat) (v : B) :
  (<[k := v]> f) a = if decide (k = a) then v else f a.
Proof.
  case_decide as E; [subst; apply fn_lookup_insert|by apply fn_lookup_insert_ne].
Qed.

Lemma add_neighbour_ok self stop nb :
  neighbours_ok nb → neighbours_ok (Stop_add_neighboring_stop self stop nb).2.
Proof.
  intros [Hsym Hirr]. unfold Stop_add_neighboring_stop.
  case_bool_decide as Hnew; cbn [andb snd]; [|done].
  case_bool_decide as Hne; cbn [snd]; [|done].
  split.
  - intros a b. rewrite !fn_insert_decide.
    repeat case_decide; subst; set_unfold; naive_solver.
  - intros a. rewrite !fn_insert_decide.
    repeat case_decide; subst; set_unfold; naive_solver.
Qed.

Lemma remove_neighbour_ok self stop nb :
  neighbours_ok nb →
  neighbours_ok (Stop_remove_neighboring_stop self stop nb).2.
Proof.
  intros [Hsym Hirr]. unfold Stop_remove_neighboring_stop.
  case_bool_decide as Hin; cbn [snd]; [|done].
  split.
  - intros a b. rewrite !fn_insert_decide.
    repeat case_decide; subst; set_unfold; naive_solver.
  - intros a. rewrite !fn_insert_decide.
    repeat case_decide; subst; set_unfold; naive_solver.
Qed.

(** Neighbourhood stays a symmetric, irreflexive relation under every
    sequence of [add_neighboring_stop] and [remove_neighboring_stop] calls:
    both keep the two stops' sets in step, and a stop is never made its own
    neighbour. *)
Theorem neighbours_symmetric (nb0 : nat → gset nat) (ops : list NeighbourOp) :
  neighbours_ok nb0 →
  let nb := foldl neighbour_step nb0 ops in
  (∀ a b, b ∈ nb a ↔ a ∈ nb b) ∧ (∀ a, a ∉ nb a).
Proof.
  intros H0. cbn zeta.
  assert (H : neighbours_ok (foldl neighbour_step nb0 ops)).
  { induction ops as [|o ops IH] using rev_ind; [done|].
    rewrite foldl_snoc. destruct o; cbn [neighbour_step].
    - by apply add_neighbour_ok.
    - by apply remove_neighbour_ok. }
  destruct H as [Hsym Hirr]. split; [|done].
  intros a b. split; apply Hsym.
Qed.

Lemma neighbours_symmetric_witness :
  let nb := foldl neighbour_step (λ _, ∅)
              [OpAddNeighbour 1 2; OpAddNeighbour 3 1; OpRemoveNeighbour 2 1] in
  (∀ a b, b ∈ nb a ↔ a ∈ nb b) ∧ (∀ a, a ∉ nb a).
Proof.
  apply (neighbours_symmetric (λ _, ∅)). split; intros; set_solver.
Defined.

(** What the two calls achieve: after [add_neighboring_stop] the two
    distinct stops are neighbours of each other whatever it returned, and
    after [remove_neighboring_stop] on a symmetric relation neither is a
    neighbour of the other. *)
Theorem neighbour_calls_effect (nb : nat → gset nat) (self stop : nat) :
  neighbours_ok nb →
  let added := (Stop_add_neighboring_stop self stop nb).2 in
  let removed := (Stop_remove_neighboring_stop self stop nb).2 in
  (stop ≠ self → stop ∈ added self ∧ self ∈ added stop) ∧
  (stop ∉ removed self) ∧ (self ∉ removed stop).
Proof.
  intros [Hsym Hirr]. cbn zeta.
  unfold Stop_add_neighboring_stop, Stop_remove_neighboring_stop.
  split; [intros Hne|].
  - case_bool_decide as Hnew; cbn [andb snd].
    + rewrite bool_decide_eq_true_2 by done. cbn [snd].
      rewrite !fn_insert_decide.
      repeat case_decide; subst; set_unfold; naive_solver.
    + split; [done|by apply Hsym].
  - case_bool_decide as Hin; cbn [snd].
    + rewrite !fn_insert_decide.
      repeat case_decide; subst; set_unfold; naive_solver.
    + split; [done|]. intros H. by apply Hin, Hsym.
Qed.

Lemma neighbour_calls_effect_witness :
  1 ∈ (Stop_add_neighboring_stop 0 1 (λ _, ∅)).2 0 ∧
  0 ∈ (Stop_add_neighboring_stop 0 1 (λ _, ∅)).2 1.
Proof.
  destruct (neighbour_calls_effect (λ _, ∅) 0 1) as [H _].
  - split; intros; set_solver.
  - apply H. lia.
Defined.

Lemma py_remove_elem (x y : nat) (l : list nat) :
  NoDup l → y ∈ py_remove x l ↔ y ∈ l ∧ y ≠ x.
Proof.
  induction l as [|z l IH]; intros Hnd; cbn [py_remove]; [set_solver|].
  apply NoDup_cons in Hnd as [Hz Hnd]. case_decide as E.
  - subst z. set_solver.
  - rewrite elem_of_cons, (IH Hnd). set_solver.
Qed.

Lemma py_remove_NoDup (x : nat) (l : list nat) :
  NoDup l → NoDup (py_remove x l).
Proof.
  induction l as [|z l IH]; intros Hnd; cbn [py_remove]; [done|].
  apply NoDup_cons in Hnd as [Hz Hnd]. case_decide as E; [done|].
  apply NoDup_cons. split; [|by apply IH].
  rewrite py_remove_elem by done. tauto.
Qed.

Lemma NoDup_snoc (x : nat) (l : list nat) :
  NoDup l → x ∉ l → NoDup (l ++ [x]).
Proof.
  intros Hnd Hx. apply NoDup_app. split; [done|]. split.
  - intros y Hy ?%list_elem_of_singleton. by subst.
  - apply NoDup_singleton.
Qed.

Lemma connect_ok self other co :
  connections_ok co → connections_ok (Origin_connect_to self other co).2.
Proof.
  intros [Hsym Hnd]. unfold Origin_connect_to, py_in.
  case_bool_decide as Hnew; cbn [negb snd]; [done|].
  rewrite fn_insert_decide.
  destruct (decide (self = other)) as [<-|Hne].
  - rewrite bool_decide_eq_true_2 by set_solver. cbn [negb]. split.
    + intros a b. rewrite !fn_insert_decide.
      repeat case_decide; subst; rewrite ?elem_of_app, ?list_elem_of_singleton;
        naive_solver.
    + intros a. rewrite fn_insert_decide. case_decide; [|done].
      by apply NoDup_snoc.
  - assert (Hnew' : self ∉ co other) by (intros ?; by apply Hnew, Hsym).
    rewrite bool_decide_eq_false_2 by done. cbn [negb]. split.
    + intros a b. rewrite !fn_insert_decide.
      repeat case_decide; subst; rewrite ?elem_of_app, ?list_elem_of_singleton;
        naive_solver.
    + intros a. rewrite !fn_insert_decide.
      repeat case_decide; subst; try done; by apply NoDup_snoc.
Qed.

Lemma disconnect_ok self other co :
  connections_ok co → connections_ok (Origin_disconnect_from self other co).2.
Proof.
  intros [Hsym Hnd]. unfold Origin_disconnect_from, py_in.
  case_bool_decide as Hin; cbn [snd]; [|done].
  rewrite fn_insert_decide.
  destruct (decide (self = other)) as [<-|Hne].
  - rewrite bool_decide_eq_false_2
      by (rewrite py_remove_elem by done; tauto).
    split.
    + intros a b. rewrite !fn_insert_decide.
      repeat case_decide; subst; rewrite ?py_remove_elem by done;
        naive_solver.
    + intros a. rewrite fn_insert_decide. case_decide; [|done].
      by apply py_remove_NoDup.
  - rewrite bool_decide_eq_true_2 by (by apply Hsym). split.
    + intros a b. rewrite !fn_insert_decide.
      repeat case_decide; subst; rewrite ?py_remove_elem by done;
        naive_solver.
    + intros a. rewrite !fn_insert_decide.
      repeat case_decide; subst; try done; by apply py_remove_NoDup.
Qed.

(** Connections between origins stay symmetric, and listed once, under
    every sequence of [connect_to] and [disconnect_from] calls; so
    [is_connected_to] gives the same answer in both directions. *)
Theorem connections_symmetric (co0 : nat → list nat) (ops : list ConnectionOp) :
  connections_ok co0 →
  let co := foldl connection_step co0 ops in
  (∀ a b, Origin_is_connected_to a b co = Origin_is_connected_to b a co) ∧
  (∀ a, NoDup (co a)).
Proof.
  intros H0. cbn zeta.
  assert (H : connections_ok (foldl connection_step co0 ops)).
  { induction ops as [|o ops IH] using rev_ind; [done|].
    rewrite foldl_snoc. destruct o; cbn [connection_step].
    - by apply connect_ok.
    - by apply disconnect_ok. }
  destruct H as [Hsym Hnd]. split; [|done].
  intros a b. unfold Origin_is_connected_to, py_in.
  apply bool_decide_ext. split; apply Hsym.
Qed.

Lemma connections_symmetric_witness :
  let co := foldl connection_step (λ _, [])
              [OpConnect 1 2; OpConnect 3 1; OpConnect 2 2; OpDisconnect 2 1] in
  (∀ a b, Origin_is_connected_to a b co = Origin_is_connected_to b a co) ∧
  (∀ a, NoDup (co a)).
Proof.
  apply (connections_symmetric (λ _, [])). split.
  - intros a b Hb. by apply elem_of_nil in Hb.
  - intros a. apply NoDup_nil_2.
Defined.

(** What the two calls achieve on symmetric connections: after
    [connect_to] each origin lists the other, whatever it returned, and
    after [disconnect_from] neither lists the other. *)
Theorem connection_calls_effect (co : nat → list nat) (self other : nat) :
  connections_ok co →
  let connected := (Origin_connect_to self other co).2 in
  let disconnected := (Origin_disconnect_from self other co).2 in
  Origin_is_connected_to self other connected = true ∧
  Origin_is_connected_to other self connected = true ∧
  Origin_is_connected_to self other disconnected = false ∧
  Origin_is_connected_to other self disconnected = false.
Proof.
  intros Hok. cbn zeta.
  pose proof (connect_ok self other co Hok) as [Hsym1 _].
  pose proof (disconnect_ok self other co Hok) as [Hsym2 _].
  destruct Hok as [Hsym Hnd].
  assert (H1 : other ∈ (Origin_connect_to self other co).2 self).
  { unfold Origin_connect_to, py_in.
    case_bool_decide as Hnew; cbn [negb snd]; [done|].
    destruct (negb _); rewrite !fn_insert_decide;
      repeat case_decide; subst; rewrite ?elem_of_app, ?list_elem_of_singleton;
      naive_solver. }
  assert (H2 : other ∉ (Origin_disconnect_from self other co).2 self).
  { unfold Origin_disconnect_from, py_in.
    case_bool_decide as Hin; cbn [snd]; [|done].
    destruct (bool_decide _); rewrite !fn_insert_decide;
      repeat case_decide; subst;
      rewrite ?py_remove_elem by (try apply py_remove_NoDup; done);
      naive_solver. }
  unfold Origin_is_connected_to, py_in.
  rewrite !bool_decide_eq_true, !bool_decide_eq_false.
  split; [done|]. split; [by apply Hsym1|]. split; [done|].
  intros H. by apply H2, Hsym2.
Qed.

Lemma connection_calls_effect_witness :
  Origin_is_connected_to 1 0 (Origin_connect_to 0 1 (λ _, [])).2 = true.
Proof.
  destruct (connection_calls_effect (λ _, []) 0 1) as (_ & H & _).
  - split; [intros a b Hb; by apply elem_of_nil in Hb|].
    intros a. apply NoDup_nil_2.
  - exact H.
Defined.

(** ** Message adapters *)

Lemma find_by_id_elem (p : nat) (l : list nat) :
  p ∈ l → find_by_id (Some (VInt p)) l = Some p.
Proof.
  unfold find_by_id. induction l as [|q l IH]; [by intros ?%elem_of_nil|].
  cbn [List.find]. case_bool_decide as E.
  - intros _. by injection E as ->.
  - intros [->|Hin]%elem_of_cons; [done|]. by apply IH.
Qed.

Lemma find_by_id_Some (passenger_id : option Value) (l : list nat) (p : nat) :
  find_by_id passenger_id l = Some p → passenger_id = Some (VInt p) ∧ p ∈ l.
Proof.
  unfold find_by_id. intros [Hin Hp]%List.find_some.
  apply bool_decide_eq_true_1 in Hp. by rewrite list_elem_of_In.
Qed.

Lemma py_truthy_int (n : nat) : py_truthy (Some (VInt n)) = true ↔ n ≠ 0.
Proof. destruct n; cbn; split; (done || lia || auto). Qed.

Lemma boarded_message_fields self_id bus p sid now w :
  let conf := boarded_message self_id bus p sid now w in
  data conf !! "passenger_id" = Some (VInt p) ∧
  data conf !! "stop_id" = Some sid ∧
  data conf !! "status" = Some (VStr "confirmed") ∧
  data conf !! "bus_id" = Some (VInt bus).
Proof. cbn. repeat split. Qed.

Lemma Bus_add_passenger_other b p w b' :
  b' ≠ b → buses (Bus_add_passenger b p w).2 b' = buses w b'.
Proof.
  intros Hne. unfold Bus_add_passenger.
  destruct (Bus_can_accept_passengers _ _); cbn [snd]; [|done].
  world_simpl. by rewrite fn_lookup_insert_ne.
Qed.

Lemma boarding_request_ok self_id bus now m w p c :
  bus_current_stop (buses w bus) = Some c →
  data m !! "passenger_id" = Some (VInt p) →
  data m !! "stop_id" = Some (VInt c) →
  p ≠ 0 → c ≠ 0 →
  Bus_can_accept_passengers (buses w bus) 1 = true →
  p ∈ stop_waiting_passengers (stops w c) →
  MessageBusAdapter_handle_passenger_boarding_request self_id bus now m w
  = ((Bus_add_passenger bus p w).2,
     [boarded_message self_id bus p (VInt c) now (Bus_add_passenger bus p w).2]).
Proof.
  intros Hc Hp Hs Hp0 Hc0 Hroom Hin.
  unfold MessageBusAdapter_handle_passenger_boarding_request.
  rewrite Hp, Hs, Hc, Hroom.
  rewrite (proj2 (py_truthy_int p) Hp0), (proj2 (py_truthy_int c) Hc0).
  rewrite bool_decide_eq_true_2 by done. cbn [negb orb andb].
  rewrite (find_by_id_elem p _ Hin).
  destruct (Bus_add_passenger_ok bus p w Hroom) as (w1 & -> & _). done.
Qed.

(** What a boarding request can do at a bus adapter: nothing, or take on
    board, through [Bus.add_passenger], the waiting passenger of the bus's
    current stop that the message names, and publish one confirmation.  A
    request naming passenger 0 or stop 0 is among those dropped: the
    handler tests the identifiers for truth. *)
Theorem boarding_request_shape (self_id : string) (bus now : nat)
    (m : Message) (w : World) :
  let res :=
    MessageBusAdapter_handle_passenger_boarding_request self_id bus now m w in
  res = (w, []) ∨
  ∃ p c w1,
    bus_current_stop (buses w bus) = Some c ∧
    data m !! "stop_id" = Some (VInt c) ∧
    data m !! "passenger_id" = Some (VInt p) ∧
    p ≠ 0 ∧ c ≠ 0 ∧
    p ∈ stop_waiting_passengers (stops w c) ∧
    Bus_add_passenger bus p w = (true, w1) ∧
    res = (w1, [boarded_message self_id bus p (VInt c) now w1]).
Proof.
  cbn zeta. unfold MessageBusAdapter_handle_passenger_boarding_request.
  destruct (py_truthy (data m !! "passenger_id")) eqn:Hp; cbn [negb orb];
    [|by left].
  destruct (py_truthy (data m !! "stop_id")) eqn:Hs; cbn [negb];
    [|by left].
  destruct (bus_current_stop (buses w bus)) as [c|]; [|by left].
  destruct (data m !! "stop_id") as [sid|] eqn:Hsid; [|by left].
  case_bool_decide as Hc; cbn [andb]; [subst sid|by left].
  destruct (Bus_can_accept_passengers (buses w bus) 1) eqn:Hroom; [|by left].
  destruct (find_by_id _ _) as [p|] eqn:Hfind; [|by left].
  apply find_by_id_Some in Hfind as [Hpid Hin].
  destruct (Bus_add_passenger_ok bus p w Hroom) as (w1 & Hadd & _).
  rewrite Hadd. right. exists p, c, w1. rewrite Hpid in Hp.
  apply py_truthy_int in Hp, Hs. done.
Qed.

Lemma boarding_request_zero self_id bus now m w p c :
  data m !! "passenger_id" = Some (VInt p) →
  data m !! "stop_id" = Some (VInt c) →
  p = 0 ∨ c = 0 →
  MessageBusAdapter_handle_passenger_boarding_request self_id bus now m w
  = (w, []).
Proof.
  intros Hp Hs Hz.
  unfold MessageBusAdapter_handle_passenger_boarding_request.
  rewrite Hp, Hs. by destruct Hz as [-> | ->]; [|destruct p].
Qed.

(** Boarding by message, for a request that names a passenger waiting at
    the stop where the bus stands with a free seat, the stop's two lists
    being equal.  When the passenger's and the stop's identifiers are not
    0, the bus adapter handling the request and then the stop adapter
    handling the confirmation the bus adapter published move the passenger
    from the stop's two lists to the end of the bus's list and set
    [current_bus]; the passenger's status is not touched.  When one of the
    two identifiers is 0 the request is dropped: nothing changes and
    nothing is published. *)
Theorem boarding_by_message (self_id : string) (bus now : nat) (m : Message)
    (w : World) (p c : nat) :
  bus_current_stop (buses w bus) = Some c →
  data m !! "passenger_id" = Some (VInt p) →
  data m !! "stop_id" = Some (VInt c) →
  Bus_can_accept_passengers (buses w bus) 1 = true →
  p ∈ stop_waiting_passengers (stops w c) →
  stop_waiting_passengers (stops w c) = stop_passenger_list (stops w c) →
  (p ≠ 0 → c ≠ 0 →
   ∃ w1 conf,
     MessageBusAdapter_handle_passenger_boarding_request self_id bus now m w
     = (w1, [conf]) ∧
     msg_type conf = PASSENGER_BOARDING ∧ sender_id conf = self_id ∧
     let w2 :=
       MessageStopAdapter_handle_passenger_boarding_confirmation c conf w1 in
     bus_passenger_list (buses w2 bus)
     = bus_passenger_list (buses w bus) ++ [p] ∧
     stop_waiting_passengers (stops w2 c)
     = py_remove p (stop_waiting_passengers (stops w c)) ∧
     stop_passenger_list (stops w2 c) = stop_waiting_passengers (stops w2 c) ∧
     p_current_bus (passengers w2 p) = Some bus ∧
     p_status (passengers w2 p) = p_status (passengers w p)) ∧
  (p = 0 ∨ c = 0 →
   MessageBusAdapter_handle_passenger_boarding_request self_id bus now m w
   = (w, [])).
Proof.
  intros Hc Hp Hs Hroom Hin Heq.
  split; [intros Hp0 Hc0|by apply boarding_request_zero].
  rewrite (boarding_request_ok self_id bus now m w p c) by done.
  destruct (Bus_add_passenger_ok bus p w Hroom)
    as (w1 & Hadd & Hl & _ & Hst & Hstatus).
  pose proof (Bus_add_passenger_current_bus bus p w Hroom p) as Hcb.
  rewrite Hadd in *. cbn [snd] in *. rewrite decide_True in Hcb by done.
  eexists _, _. split; [reflexivity|]. split; [done|]. split; [done|].
  cbn zeta. unfold MessageStopAdapter_handle_passenger_boarding_confirmation.
  destruct (boarded_message_fields self_id bus p (VInt c) now w1)
    as (-> & -> & -> & _).
  rewrite !bool_decide_eq_false_2 by (intros H; by apply H). cbn [orb].
  rewrite Hst, (find_by_id_elem p _ Hin).
  destruct (Stop_remove_passenger_present c p w1) as [Hw2 Heq2];
    [by rewrite Hst..|].
  cbn zeta in *. rewrite Hw2, Heq2, Hw2, Hst.
  rewrite Stop_remove_passenger_buses, Stop_remove_passenger_passengers.
  by rewrite Hl, Hcb, Hstatus.
Qed.

Lemma boarding_by_message_witness :
  let m := mkMessage PASSENGER_BOARDING "Stop-1"
             (<["passenger_id" := VInt 7]> (<["stop_id" := VInt 1]> ∅)) 0 in
  let w := (Stop_add_passenger 1 7 (BusThread_cycle 0 scenario_A)).2 in
  ∃ w1 conf,
    MessageBusAdapter_handle_passenger_boarding_request "Bus-0" 0 5 m w
    = (w1, [conf]) ∧
    bus_passenger_list
      (buses (MessageStopAdapter_handle_passenger_boarding_confirmation
                1 conf w1) 0) = [7].
Proof.
  intros m w.
  destruct (boarding_by_message "Bus-0" 0 5 m w 7 1) as [H _];
    [reflexivity|reflexivity|reflexivity|reflexivity| |reflexivity|].
  - apply list_elem_of_In. vm_compute. lia.
  - destruct H as (w1 & conf & H1 & _ & _ & H2 & _); [lia|lia|].
    exists w1, conf. split; [exact H1|exact H2].
Defined.

(** A boarding request is not addressed to one bus: the handler reads
    neither [bus_id] nor [status].  With two buses standing at the stop
    with a free seat each, once the first bus's adapter has taken the
    passenger, the second bus's adapter handling the same request, or the
    confirmation the first published, takes the same passenger too: the
    passenger is then on both buses' lists. *)
Theorem boarding_request_untargeted (id1 id2 : string) (b1 b2 now1 now2 : nat)
    (m : Message) (w : World) (p c : nat) :
  b1 ≠ b2 →
  bus_current_stop (buses w b1) = Some c →
  bus_current_stop (buses w b2) = Some c →
  data m !! "passenger_id" = Some (VInt p) →
  data m !! "stop_id" = Some (VInt c) →
  p ≠ 0 → c ≠ 0 →
  Bus_can_accept_passengers (buses w b1) 1 = true →
  Bus_can_accept_passengers (buses w b2) 1 = true →
  p ∈ stop_waiting_passengers (stops w c) →
  ∃ w1 conf,
    MessageBusAdapter_handle_passenger_boarding_request id1 b1 now1 m w
    = (w1, [conf]) ∧
    ∀ m2, m2 = m ∨ m2 = conf →
      let w2 :=
        (MessageBusAdapter_handle_passenger_boarding_request
           id2 b2 now2 m2 w1).1 in
      p ∈ bus_passenger_list (buses w2 b1) ∧
      p ∈ bus_passenger_list (buses w2 b2).
Proof.
  intros Hne Hc1 Hc2 Hp Hs Hp0 Hc0 Hroom1 Hroom2 Hin.
  rewrite (boarding_request_ok id1 b1 now1 m w p c) by done.
  destruct (Bus_add_passenger_ok b1 p w Hroom1) as (w1 & Hadd & Hl & _ & Hst & _).
  pose proof (Bus_add_passenger_other b1 p w b2 (not_eq_sym Hne)) as Hb2.
  rewrite Hadd in *. cbn [snd] in *.
  eexists _, _. split; [reflexivity|]. intros m2 Hm2. cbn zeta.
  assert (Hfields : data m2 !! "passenger_id" = Some (VInt p) ∧
                    data m2 !! "stop_id" = Some (VInt c)).
  { destruct Hm2 as [->| ->]; [done|].
    by destruct (boarded_message_fields id1 b1 p (VInt c) now1 w1)
      as (? & ? & _). }
  destruct Hfields as [Hp2 Hs2].
  rewrite (boarding_request_ok id2 b2 now2 m2 w1 p c);
    [|by rewrite Hb2|done|done|done|done|by rewrite Hb2|by rewrite Hst].
  cbn [fst].
  destruct (Bus_add_passenger_ok b2 p w1) as (w2 & Hadd2 & Hl2 & _);
    [by rewrite Hb2|].
  rewrite Hadd2. cbn [snd]. split.
  - replace (buses w2 b1) with (buses w1 b1).
    + rewrite Hl. set_solver.
    + pose proof (Bus_add_passenger_other b2 p w1 b1 Hne) as H.
      by rewrite Hadd2 in H.
  - rewrite Hl2. set_solver.
Qed.

Lemma boarding_request_untargeted_witness :
  let m := mkMessage PASSENGER_BOARDING "Stop-1"
             (<["passenger_id" := VInt 7]> (<["stop_id" := VInt 1]> ∅)) 0 in
  let w := upd_bus 3 (set_bus_current_stop (Some 1))
             (Stop_add_passenger 1 7 (BusThread_cycle 0 scenario_A)).2 in
  ∃ w1 conf,
    MessageBusAdapter_handle_passenger_boarding_request "Bus-0" 0 5 m w
    = (w1, [conf]) ∧
    let w2 :=
      (MessageBusAdapter_handle_passenger_boarding_request
         "Bus-3" 3 6 conf w1).1 in
    7 ∈ bus_passenger_list (buses w2 0) ∧ 7 ∈ bus_passenger_list (buses w2 3).
Proof.
  intros m w.
  destruct (boarding_request_untargeted "Bus-0" "Bus-3" 0 3 5 6 m w 7 1)
    as (w1 & conf & H1 & H2).
  all: try reflexivity; try lia.
  - apply list_elem_of_In. vm_compute. lia.
  - exists w1, conf. split; [exact H1|]. apply H2. by right.
Defined.

Lemma alighting_request_zero bus m w p c :
  data m !! "passenger_id" = Some (VInt p) →
  data m !! "stop_id" = Some (VInt c) →
  p = 0 ∨ c = 0 →
  MessageBusAdapter_handle_passenger_alighting_request bus m w = (w, false).
Proof.
  intros Hp Hs Hz.
  unfold MessageBusAdapter_handle_passenger_alighting_request.
  rewrite Hp, Hs. by destruct Hz as [-> | ->]; [|destruct p].
Qed.

(** Alighting by message, for a request that names a passenger on board
    and the stop where the bus stands.  When the passenger's and the
    stop's identifiers are not 0, the bus adapter removes the passenger
    from the bus, clears [current_bus] and publishes a confirmation; and
    whatever message the alighting handler of a stop adapter then receives,
    it changes nothing, so the passenger set down this way is put on no
    stop's list and keeps the status and the [current_stop] it had on
    board.  When one of the two identifiers is 0 the request is dropped:
    the passenger stays on the bus and nothing is published. *)
Theorem alighting_by_message (bus : nat) (m : Message) (w : World)
    (p c : nat) :
  bus_current_stop (buses w bus) = Some c →
  data m !! "passenger_id" = Some (VInt p) →
  data m !! "stop_id" = Some (VInt c) →
  p ∈ bus_passenger_list (buses w bus) →
  (p ≠ 0 → c ≠ 0 →
   ∃ w1,
     MessageBusAdapter_handle_passenger_alighting_request bus m w
     = (w1, true) ∧
     ∀ stop m',
       let w2 :=
         MessageStopAdapter_handle_passenger_alighting_confirmation
           stop m' w1 in
       bus_passenger_list (buses w2 bus)
       = py_remove p (bus_passenger_list (buses w bus)) ∧
       p_current_bus (passengers w2 p) = None ∧
       p_status (passengers w2 p) = p_status (passengers w p) ∧
       p_current_stop (passengers w2 p) = p_current_stop (passengers w p) ∧
       stops w2 = stops w) ∧
  (p = 0 ∨ c = 0 →
   MessageBusAdapter_handle_passenger_alighting_request bus m w = (w, false)).
Proof.
  intros Hc Hp Hs Hin.
  split; [intros Hp0 Hc0|by apply alighting_request_zero].
  unfold MessageBusAdapter_handle_passenger_alighting_request.
  rewrite Hp, Hs, Hc.
  rewrite (proj2 (py_truthy_int p) Hp0), (proj2 (py_truthy_int c) Hc0).
  rewrite bool_decide_eq_true_2 by done. cbn [negb orb].
  rewrite (find_by_id_elem p _ Hin).
  destruct (Bus_remove_passenger_present bus p w Hin) as [Hl Hcb].
  pose proof (Bus_remove_passenger_stops bus p w) as Hst.
  assert (Hrest : p_status (passengers (Bus_remove_passenger bus p w).2 p)
                  = p_status (passengers w p) ∧
                  p_current_stop (passengers (Bus_remove_passenger bus p w).2 p)
                  = p_current_stop (passengers w p) ∧
                  (Bus_remove_passenger bus p w).1 = true).
  { unfold Bus_remove_passenger, py_in. rewrite bool_decide_eq_true_2 by done.
    cbn [fst snd]. world_simpl. by rewrite fn_lookup_insert. }
  destruct Hrest as (Hstatus & Hstop & Hres).
  destruct (Bus_remove_passenger bus p w) as [removed w1].
  cbn [fst snd] in *. subst removed.
  exists w1. split; [done|]. intros stop m'. cbn zeta.
  by rewrite alighting_confirmation_noop.
Qed.

Lemma alighting_by_message_witness :
  let m := mkMessage PASSENGER_ALIGHTING "Stop-1"
             (<["passenger_id" := VInt 7]> (<["stop_id" := VInt 1]> ∅)) 0 in
  let w := (Bus_add_passenger 0 7 (BusThread_cycle 0 scenario_A)).2 in
  ∃ w1,
    MessageBusAdapter_handle_passenger_alighting_request 0 m w = (w1, true) ∧
    stops (MessageStopAdapter_handle_passenger_alighting_confirmation 1 m w1)
    = stops w.
Proof.
  intros m w.
  destruct (alighting_by_message 0 m w 7 1) as [H _];
    [reflexivity|reflexivity|reflexivity| |].
  - apply list_elem_of_In. vm_compute. lia.
  - destruct H as (w1 & H1 & H2); [lia|lia|].
    exists w1. split; [exact H1|]. by destruct (H2 1 m) as (_ & _ & _ & _ & ?).
Defined.
